(** * gravplass: the share lifecycle of [src/server/index.ts]

    A shallow embedding of the server: password-derived buckets, the
    per-bucket quota, upload and download of shares, burn-after-download,
    the expiry sweep and the request throttle.  The storage tree, the
    timer queue and the throttle table are explicit state; every handler
    is a function from the request and the state to a response and the
    next state. *)

From Stdlib Require Import ZArith Lia Ascii String List Bool.
From Stdlib Require Import DecimalString.
From stdpp Require Import gmap strings list.
Import ListNotations.
Local Open Scope Z_scope.

(** ** Strings *)

Definition slash : ascii := "/"%char.

(** [s.split(sep)] for a one-character separator: the pieces between
    separators, empty pieces kept. *)
Fixpoint split_on (sep : ascii) (s : string) : list string :=
  match s with
  | EmptyString => [EmptyString]
  | String c rest =>
      if Ascii.eqb c sep then EmptyString :: split_on sep rest
      else match split_on sep rest with
           | seg :: segs => String c seg :: segs
           | [] => [String c EmptyString]
           end
  end.

Definition split_slash : string -> list string := split_on slash.

(** The one-character string of a double quote. *)
Definition dquote : string := String (ascii_of_nat 34) EmptyString.

(** A string is truthy in JavaScript when it is not empty. *)
Definition truthy (s : string) : bool := negb (String.eqb s EmptyString).

Definition is_space (c : ascii) : bool :=
  let n := nat_of_ascii c in
  (Nat.eqb n 32 || (Nat.leb 9 n && Nat.leb n 13))%bool.

Fixpoint trim_start (s : string) : string :=
  match s with
  | String c rest => if is_space c then trim_start rest else s
  | EmptyString => EmptyString
  end.

Fixpoint trim_end (s : string) : string :=
  match s with
  | String c rest =>
      match trim_end rest with
      | EmptyString => if is_space c then EmptyString else String c EmptyString
      | rest' => String c rest'
      end
  | EmptyString => EmptyString
  end.

(** [s.trim()], on the ASCII white space characters. *)
Definition trim (s : string) : string := trim_end (trim_start s).

(** [s.slice(start, stop)] for [0 <= start <= stop]. *)
Definition slice (start stop : nat) (s : string) : string :=
  String.substring start (stop - start) s.

Definition hex_digit (d : Z) : ascii :=
  nth (Z.to_nat d) (list_ascii_of_string "0123456789abcdef") "0"%char.

Fixpoint hex_digits (fuel : nat) (n : Z) (acc : string) : string :=
  match fuel with
  | O => acc
  | S fuel' =>
      let acc' := String (hex_digit (n mod 16)) acc in
      if n <? 16 then acc' else hex_digits fuel' (n / 16) acc'
  end.

(** [n.toString(16)] on an integer: lower-case digits, no leading zero,
    a minus sign in front of a negative number. *)
Definition toString16 (n : Z) : string :=
  if n <? 0 then String "-"%char (hex_digits (S (Z.to_nat (Z.log2 (- n)))) (- n) EmptyString)
  else hex_digits (S (Z.to_nat (Z.log2 n))) n EmptyString.

(** [String(n)] on an integer. *)
Definition toString10 (n : Z) : string :=
  NilZero.string_of_int (Z.to_int n).

(** ** Paths ([node:path], posix) *)

(** A normalised path: whether it starts at the root, and its segments.
    A relative path may start with [".."] segments; no other segment is
    empty, ["."] or [".."]. *)
Record path := { absolute : bool; segments : list string }.

(** One step of [normalizeString]: the stack holds the segments kept so
    far, innermost first. *)
Definition push_segment (abs : bool) (stack : list string) (seg : string) : list string :=
  if String.eqb seg EmptyString || String.eqb seg "." then stack
  else if String.eqb seg ".." then
    match stack with
    | top :: below => if String.eqb top ".." then seg :: stack else below
    | [] => if abs then [] else [seg]
    end
  else seg :: stack.

Definition normalize_onto (abs : bool) (stack segs : list string) : list string :=
  fold_left (push_segment abs) segs stack.

Definition is_absolute (s : string) : bool :=
  match s with
  | String c _ => Ascii.eqb c slash
  | EmptyString => false
  end.

(** [normalize(s)]. *)
Definition parse_path (s : string) : path :=
  {| absolute := is_absolute s;
     segments := rev (normalize_onto (is_absolute s) [] (split_slash s)) |}.

(** [join(p, part1, ..., partn)] where [p] is itself the result of a
    [join]: the parts are split at the separators and normalised on top
    of the segments of [p]. *)
Definition join (p : path) (parts : list string) : path :=
  {| absolute := absolute p;
     segments := rev (normalize_onto (absolute p) (rev (segments p))
                        (flat_map split_slash parts)) |}.

(** The absolute location a path denotes for a process whose working
    directory is [cwd]. *)
Definition resolve (cwd : list string) (p : path) : list string :=
  if absolute p then segments p
  else rev (normalize_onto true (rev cwd) (segments p)).

(** ** Constants and configuration *)

Definition HOUR_MS : Z := 60 * 60 * 1000.
Definition RATE_LIMIT_WINDOW : Z := 60 * 1000.
Definition RATE_LIMIT_MAX : Z := 30.

Record Config := {
  port : Z;
  data_dir : string;
  passwords : list string;
  max_file_size_mb : Z;
  share_ttl_days : Z;
  max_bucket_size_mb : Z
}.

(** What the server takes from its runtime: [Bun.hash], the MIME type
    Bun derives from a file name ([Bun.file(p).type], empty when
    unknown), [encodeURIComponent] and the working directory of the
    process. *)
Record Host := {
  Bun_hash : string -> Z;
  file_type : string -> string;
  encodeURIComponent : string -> string;
  cwd : list string
}.

(** ** The request throttle *)

Record RateEntry := { count : Z; resetAt : Z }.

Definition isRateLimited (ip : string) (now : Z) (rateLimitMap : gmap string RateEntry)
  : bool * gmap string RateEntry :=
  match rateLimitMap !! ip with
  | Some entry =>
      if now >? resetAt entry then
        (false, <[ip := {| count := 1; resetAt := now + RATE_LIMIT_WINDOW |}]> rateLimitMap)
      else
        let entry' := {| count := count entry + 1; resetAt := resetAt entry |} in
        (count entry' >? RATE_LIMIT_MAX, <[ip := entry']> rateLimitMap)
  | None =>
      (false, <[ip := {| count := 1; resetAt := now + RATE_LIMIT_WINDOW |}]> rateLimitMap)
  end.

(** ** The bucket of a password *)

Definition hashPassword (host : Host) (password : string) : string :=
  slice 0 12 (toString16 (Bun_hash host password)).

(** ** The storage tree *)

(** An entry of the tree: a regular file with its bytes, a directory
    with its entries in listing order, or an entry that is listed by its
    directory but can be neither examined nor opened (a dangling link).
    [mtimeMs] is the time of the last modification; for a directory that
    is the last time an entry was added to it or removed from it. *)
#[local] Unset Elimination Schemes.
Inductive node :=
| File (mtimeMs : Z) (content : string)
| Dir (mtimeMs : Z) (entries : list (string * node))
| Dangling.
#[local] Set Elimination Schemes.

Fixpoint get_entry (name : string) (es : list (string * node)) : option node :=
  match es with
  | [] => None
  | (k, n) :: rest => if String.eqb k name then Some n else get_entry name rest
  end.

(** Replaces the entry of that name, or adds it at the end of the listing. *)
Fixpoint put_entry (name : string) (n : node) (es : list (string * node))
  : list (string * node) :=
  match es with
  | [] => [(name, n)]
  | (k, n0) :: rest =>
      if String.eqb k name then (k, n) :: rest else (k, n0) :: put_entry name n rest
  end.

Fixpoint del_entry (name : string) (es : list (string * node)) : list (string * node) :=
  match es with
  | [] => []
  | (k, n0) :: rest =>
      if String.eqb k name then del_entry name rest else (k, n0) :: del_entry name rest
  end.

(** The entry at an absolute location, walking down from the root. *)
Fixpoint find (segs : list string) (n : node) : option node :=
  match segs with
  | [] => Some n
  | name :: rest =>
      match n with
      | Dir _ es =>
          match get_entry name es with
          | Some child => find rest child
          | None => None
          end
      | _ => None
      end
  end.

(** What a primitive does with the entry it finds at the end of its
    path: leave an entry there, remove it, or fail. *)
Inductive leaf_result := Leave (n : node) | Remove | Fail.

(** Walks to the parent of the last segment and applies [act] there;
    missing directories on the way are created when [create] is set.
    A directory whose listing changes gets [now] as modification time. *)
Fixpoint alter_at (now : Z) (create : bool) (act : option node -> leaf_result)
    (segs : list string) (n : node) : option node :=
  match segs with
  | [] => None
  | name :: rest =>
      match n with
      | Dir m es =>
          match rest with
          | [] =>
              match act (get_entry name es) with
              | Leave n' =>
                  Some (Dir (match get_entry name es with Some _ => m | None => now end)
                            (put_entry name n' es))
              | Remove => Some (Dir now (del_entry name es))
              | Fail => None
              end
          | _ :: _ =>
              match get_entry name es with
              | Some child =>
                  match alter_at now create act rest child with
                  | Some child' => Some (Dir m (put_entry name child' es))
                  | None => None
                  end
              | None =>
                  if create then
                    match alter_at now create act rest (Dir now []) with
                    | Some child' => Some (Dir now (put_entry name child' es))
                    | None => None
                    end
                  else None
              end
          end
      | _ => None
      end
  end.

(** ** File system primitives

    Each primitive takes an absolute location; [None] stands for the
    rejection of the promise (an exception at the [await]). *)

Record Stats := { st_mtimeMs : Z; st_size : Z; st_isDirectory : bool }.

Definition byte_length (s : string) : Z := Z.of_nat (String.length s).

(** [stat(p)]; the size reported for a directory depends on the host and
    is never read by the server. *)
Definition fs_stat (p : list string) (fs : node) : option Stats :=
  match find p fs with
  | Some (File m c) => Some {| st_mtimeMs := m; st_size := byte_length c; st_isDirectory := false |}
  | Some (Dir m _) => Some {| st_mtimeMs := m; st_size := 0; st_isDirectory := true |}
  | _ => None
  end.

(** [readdir(p)]. *)
Definition fs_readdir (p : list string) (fs : node) : option (list string) :=
  match find p fs with
  | Some (Dir _ es) => Some (map fst es)
  | _ => None
  end.

(** [Bun.file(p).exists()]: true for a regular file only. *)
Definition fs_exists (p : list string) (fs : node) : bool :=
  match find p fs with
  | Some (File _ _) => true
  | _ => false
  end.

(** The bytes a reader of [Bun.file(p)] receives, if [p] is a regular file. *)
Definition fs_read (p : list string) (fs : node) : option string :=
  match find p fs with
  | Some (File _ c) => Some c
  | _ => None
  end.

(** [mkdir(p, { recursive: true })]. *)
Definition fs_mkdir_p (now : Z) (p : list string) (fs : node) : option node :=
  match p with
  | [] => Some fs
  | _ =>
      alter_at now true
        (fun found => match found with
                      | None => Leave (Dir now [])
                      | Some (Dir m es) => Leave (Dir m es)
                      | Some _ => Fail
                      end) p fs
  end.

(** [Bun.write(p, data)]: creates the file and its missing parent
    directories, or replaces the bytes of an existing regular file. *)
Definition fs_write (now : Z) (p : list string) (data : string) (fs : node) : option node :=
  alter_at now true
    (fun found => match found with
                  | None | Some (File _ _) => Leave (File now data)
                  | Some _ => Fail
                  end) p fs.

(** [rm(p, { recursive: true })]: removes whatever is at [p]; rejects
    when nothing is there ([force] is not set). *)
Definition fs_rm_recursive (now : Z) (p : list string) (fs : node) : option node :=
  alter_at now false
    (fun found => match found with
                  | Some _ => Remove
                  | None => Fail
                  end) p fs.

(** [rm(p)] without options: removes a file or a link; on a directory
    the promise is rejected ([ERR_FS_EISDIR] in Node, [EISDIR] from
    [unlink] in Bun), whether or not the directory is empty. *)
Definition fs_rm (now : Z) (p : list string) (fs : node) : option node :=
  alter_at now false
    (fun found => match found with
                  | Some (Dir _ _) => Fail
                  | Some _ => Remove
                  | None => Fail
                  end) p fs.

(** ** Tasks: code that reads and changes the tree and may throw *)

Inductive Outcome (A : Type) :=
| Returned (a : A) (fs : node)
| Thrown (fs : node).
Arguments Returned {A} a fs.
Arguments Thrown {A} fs.

Definition Task (A : Type) : Type := node -> Outcome A.

Definition ret {A} (a : A) : Task A := fun fs => Returned a fs.

Definition bind {A B} (t : Task A) (k : A -> Task B) : Task B :=
  fun fs => match t fs with
            | Returned a fs' => k a fs'
            | Thrown fs' => Thrown fs'
            end.

Notation "'let*' x ':=' t 'in' k" := (bind t (fun x => k))
  (at level 10, x name, t at level 100, k at level 200).

(** [try { t } catch { handler }]: what [t] changed before it threw stays. *)
Definition try_catch {A} (t handler : Task A) : Task A :=
  fun fs => match t fs with
            | Returned a fs' => Returned a fs'
            | Thrown fs' => handler fs'
            end.

(** [for (const x of xs) { await body(x) }]. *)
Fixpoint for_of {A} (xs : list A) (body : A -> Task unit) : Task unit :=
  match xs with
  | [] => ret tt
  | x :: rest => let* _ := body x in for_of rest body
  end.

(** A primitive that only reads. *)
Definition reading {A} (op : node -> option A) : Task A :=
  fun fs => match op fs with
            | Some a => Returned a fs
            | None => Thrown fs
            end.

(** A primitive that changes the tree. *)
Definition writing (op : node -> option node) : Task unit :=
  fun fs => match op fs with
            | Some fs' => Returned tt fs'
            | None => Thrown fs
            end.

Definition state_of {A} (o : Outcome A) : node :=
  match o with
  | Returned _ fs => fs
  | Thrown fs => fs
  end.

Definition result_of {A} (o : Outcome A) : option A :=
  match o with
  | Returned a _ => Some a
  | Thrown _ => None
  end.

(** A step that only looks at the tree and cannot throw. *)
Definition getting {A} (f : node -> A) : Task A := fun fs => Returned (f fs) fs.

(** ** Responses and requests *)

Inductive Body :=
| Text (s : string)
| JsonUrl (url : string)
| JsonQuota (used max available : Z)
| FileBody (content : option string)
| ZipBody (members : list (string * option string)).

Record Response := {
  status : Z;
  headers : list (string * string);
  body : Body
}.

Definition text_response (code : Z) (msg : string) : Response :=
  {| status := code; headers := []; body := Text msg |}.

(** A value of a multipart form: a string, or a [File] with its name
    and bytes. *)
Inductive FormValue :=
| FormString (s : string)
| FormFile (name : string) (content : string).

Record UploadRequest := {
  up_password : option string;          (* header X-Password *)
  up_files : list FormValue;            (* formData.getAll("files") *)
  up_burn : option FormValue            (* formData.get("burn") *)
}.

Record QuotaRequest := {
  q_forwarded_for : option string;      (* header x-forwarded-for *)
  q_real_ip : option string;            (* header x-real-ip *)
  q_password : option string            (* header X-Password *)
}.

(** A pending [setTimeout]: the time it is due and the share directory
    its callback removes. *)
Record Timer := { due : Z; target : path }.

Section Server.

Context (host : Host).

Definition locate (p : path) : list string := resolve (cwd host) p.

Definition getClientIp (req : QuotaRequest) : string :=
  match q_forwarded_for req with
  | Some v =>
      match split_on ","%char v with
      | first :: _ => trim first
      | [] => match q_real_ip req with Some ip => ip | None => "unknown" end
      end
  | None => match q_real_ip req with Some ip => ip | None => "unknown" end
  end.

(** The loop of [getDirSize] over the entries of one directory, and the
    result of [getDirSize] on an entry.  [readdir] throws on anything
    but a directory and [stat] throws on an entry it cannot examine;
    the [catch] then returns the total reached so far. *)
Fixpoint dir_size (n : node) : Z :=
  match n with
  | Dir _ es =>
      (fix walk (es : list (string * node)) : Z :=
         match es with
         | [] => 0
         | (_, child) :: rest =>
             match child with
             | Dir _ _ => dir_size child + walk rest
             | File _ c => byte_length c + walk rest
             | Dangling => 0
             end
         end) es
  | _ => 0
  end.

Definition getDirSize (dirPath : path) (fs : node) : Z :=
  match find (locate dirPath) fs with
  | Some n => dir_size n
  | None => 0
  end.

Definition uploads_dir (cfg : Config) : path :=
  join (parse_path (data_dir cfg)) ["uploads"].

Definition sweep_share (now ttlMs : Z) (bucketPath : path) (shareId : string) : Task unit :=
  let sharePath := join bucketPath [shareId] in
  try_catch
    (let* shareStat := reading (fs_stat (locate sharePath)) in
     if now - st_mtimeMs shareStat >? ttlMs
     then writing (fs_rm_recursive now (locate sharePath))
     else ret tt)
    (ret tt).

Definition sweep_bucket (now ttlMs : Z) (uploadsDir : path) (bucket : string) : Task unit :=
  let bucketPath := join uploadsDir [bucket] in
  let* shares := reading (fs_readdir (locate bucketPath)) in
  let* _ := for_of shares (sweep_share now ttlMs bucketPath) in
  let* remaining := reading (fs_readdir (locate bucketPath)) in
  if (length remaining =? 0)%nat
  then writing (fs_rm now (locate bucketPath))
  else ret tt.

Definition cleanupExpiredShares (cfg : Config) (now : Z) : Task unit :=
  let ttlMs := share_ttl_days cfg * 24 * HOUR_MS in
  let uploadsDir := uploads_dir cfg in
  try_catch
    (let* buckets := reading (fs_readdir (locate uploadsDir)) in
     for_of buckets (sweep_bucket now ttlMs uploadsDir))
    (ret tt).

Definition not_found : Response := text_response 404 "Not Found".

(** The [try] block of [handleDownload] with its [catch]: the answer
    for the share directory [shareDir], and the timer it sets. *)
Definition download_share (shareDir : path) (shareId : string) (now : Z) (fs : node)
  : Response * list Timer :=
  let burnFile := join shareDir [".burn"] in
  match fs_readdir (locate shareDir) fs with
  | None => (not_found, [])
  | Some allFiles =>
      let files := List.filter (fun f => negb (String.eqb f ".burn")) allFiles in
      if (length files =? 0)%nat then (not_found, [])
      else
        let shouldBurn := fs_exists (locate burnFile) fs in
        let archive :=
          {| status := 200;
             headers := [("Content-Disposition",
                          "attachment; filename=" +:+ dquote +:+ shareId +:+ ".zip" +:+ dquote);
                         ("Content-Type", "application/zip")];
             body := ZipBody (map (fun filename =>
                       (filename, fs_read (locate (join shareDir [filename])) fs)) files) |} in
        let response :=
          match files with
          | [filename] =>
              if truthy filename then
                {| status := 200;
                   headers := [("Content-Disposition",
                                "attachment; filename=" +:+ dquote
                                +:+ encodeURIComponent host filename +:+ dquote);
                               ("Content-Type",
                                if truthy (file_type host filename)
                                then file_type host filename
                                else "application/octet-stream")];
                   body := FileBody (fs_read (locate (join shareDir [filename])) fs) |}
              else archive
          | _ => archive
          end in
        (response,
         if shouldBurn then [{| due := now + 1000; target := shareDir |}] else [])
  end.

Definition handleDownload (cfg : Config) (pathname : string) (now : Z) (fs : node)
  : Response * list Timer :=
  let parts := List.filter truthy (split_slash pathname) in
  match parts with
  | _ :: bucket :: shareId :: _ =>
      let shareDir := join (parse_path (data_dir cfg)) ["uploads"; bucket; shareId] in
      download_share shareDir shareId now fs
  | _ => (text_response 400 "Invalid path", [])
  end.

(** [v === s] for a form value that may be missing. *)
Definition strictly_equals (v : option FormValue) (s : string) : bool :=
  match v with
  | Some (FormString s') => String.eqb s' s
  | _ => false
  end.

(** The sum of [file.size] over the values that are files. *)
Definition upload_size (files : list FormValue) : Z :=
  fold_left (fun total v => match v with
                            | FormFile _ c => total + byte_length c
                            | FormString _ => total
                            end) files 0.

Definition authorized (cfg : Config) (password : option string) : bool :=
  match password with
  | Some pw => truthy pw && existsb (String.eqb pw) (passwords cfg)
  | None => false
  end.

Definition bucket_dir (cfg : Config) (bucket : string) : path :=
  join (parse_path (data_dir cfg)) ["uploads"; bucket].

Definition save_file (now : Z) (shareDir : path) (v : FormValue) : Task unit :=
  match v with
  | FormFile name c => writing (fs_write now (locate (join shareDir [name])) c)
  | FormString _ => ret tt
  end.

(** [handleUpload]; [shareId] is the identifier [nanoid(8)] draws for
    this request and [now] the time of the request.  A [Thrown] outcome
    is an exception that leaves the handler. *)
Definition handleUpload (cfg : Config) (req : UploadRequest) (shareId : string) (now : Z)
  : Task Response :=
  if negb (authorized cfg (up_password req)) then ret (text_response 401 "Unauthorized")
  else
    let password := default EmptyString (up_password req) in
    let files := up_files req in
    if (length files =? 0)%nat then ret (text_response 400 "No files provided")
    else
      let uploadSize := upload_size files in
      let bucket := hashPassword host password in
      let bucketDir := bucket_dir cfg bucket in
      let* currentSize := getting (getDirSize bucketDir) in
      let maxBytes := max_bucket_size_mb cfg * 1024 * 1024 in
      if currentSize + uploadSize >? maxBytes then
        let availableMb := (maxBytes - currentSize) / (1024 * 1024) in
        ret (text_response 413
               ("Quota exceeded. " +:+ toString10 availableMb +:+ "MB available."))
      else
        let shareDir := join bucketDir [shareId] in
        let* _ := writing (fs_mkdir_p now (locate shareDir)) in
        let* _ := for_of files (save_file now shareDir) in
        let* _ := if strictly_equals (up_burn req) "true"
                  then writing (fs_write now (locate (join shareDir [".burn"])) EmptyString)
                  else ret tt in
        ret {| status := 200; headers := [];
               body := JsonUrl ("/d/" +:+ bucket +:+ "/" +:+ shareId) |}.

Definition handleQuota (cfg : Config) (req : QuotaRequest) (now : Z)
    (rateLimitMap : gmap string RateEntry) (fs : node)
  : Response * gmap string RateEntry :=
  let ip := getClientIp req in
  let (limited, rateLimitMap') := isRateLimited ip now rateLimitMap in
  if limited then (text_response 429 "Too many requests", rateLimitMap')
  else if negb (authorized cfg (q_password req))
  then (text_response 401 "Unauthorized", rateLimitMap')
  else
    let password := default EmptyString (q_password req) in
    let bucket := hashPassword host password in
    let bucketDir := bucket_dir cfg bucket in
    let used := getDirSize bucketDir fs in
    let max := max_bucket_size_mb cfg * 1024 * 1024 in
    ({| status := 200;
        headers := [("Access-Control-Allow-Origin", "*")];
        body := JsonQuota used max (max - used) |}, rateLimitMap').

(** The callback of a burn timer: [rm(shareDir, { recursive: true })]
    with its rejection swallowed. *)
Definition fire (now : Z) (t : Timer) (fs : node) : node :=
  match fs_rm_recursive now (locate (target t)) fs with
  | Some fs' => fs'
  | None => fs
  end.

(** The event loop at time [now]: the timers that are due run, in the
    order they were set; the others stay pending. *)
Definition run_timers (now : Z) (timers : list Timer) (fs : node) : list Timer * node :=
  (List.filter (fun t => now <? due t) timers,
   fold_left (fun fs t => fire now t fs) (List.filter (fun t => due t <=? now) timers) fs).

End Server.

(** ** Process start *)

Inductive Job := CleanupJob.

(** The top-level statements of the module that concern the sweep, in
    order: [setInterval(..., HOUR_MS)], then one call of
    [cleanupExpiredShares()]. *)
Inductive StartupStep :=
| SetInterval (job : Job) (period : Z)
| CallNow (job : Job).

Definition startup : list StartupStep :=
  [SetInterval CleanupJob HOUR_MS; CallNow CleanupJob].

(** The times at which a job runs in a process started at [t0], up to
    [horizon] periods of each interval. *)
Definition runs_of (horizon : nat) (t0 : Z) (step : StartupStep) : list Z :=
  match step with
  | SetInterval _ period => map (fun k => t0 + Z.of_nat (S k) * period) (seq 0 horizon)
  | CallNow _ => [t0]
  end.

(** ** Well-formed names *)

Definition has_slash (s : string) : bool :=
  existsb (Ascii.eqb slash) (list_ascii_of_string s).

(** A name a directory can hold: not empty, not ["."] or [".."], no
    separator in it. *)
Definition plain_segment (s : string) : bool :=
  truthy s && negb (String.eqb s ".") && negb (String.eqb s "..") && negb (has_slash s).

(** Some segment of the name is [".."]. *)
Definition has_dotdot (name : string) : bool :=
  existsb (String.eqb "..") (split_slash name).

(** The segments [normalizeString] keeps of a name. *)
Definition kept_segments (segs : list string) : list string :=
  List.filter (fun s => negb (String.eqb s EmptyString || String.eqb s ".")) segs.

Definition file_name (v : FormValue) : option string :=
  match v with
  | FormFile name _ => Some name
  | FormString _ => None
  end.

(** No file of the form has a [".."] segment in its name. *)
Definition names_stay_below (files : list FormValue) : Prop :=
  Forall (fun v => match file_name v with
                   | Some name => has_dotdot name = false
                   | None => True
                   end) files.

(** Two locations neither of which is an ancestor of (or equal to) the
    other. *)
Fixpoint diverge (p q : list string) : bool :=
  match p, q with
  | x :: p', y :: q' => if String.eqb x y then diverge p' q' else true
  | _, _ => false
  end.

(** ** Induction on the storage tree *)

Section NodeInduction.

Variable P : node -> Prop.
Hypothesis P_file : forall m c, P (File m c).
Hypothesis P_dir : forall m es, Forall (fun e => P (snd e)) es -> P (Dir m es).
Hypothesis P_dangling : P Dangling.

Fixpoint node_ind (n : node) : P n :=
  match n with
  | File m c => P_file m c
  | Dir m es =>
      P_dir m es
        ((fix all (es : list (string * node)) : Forall (fun e => P (snd e)) es :=
            match es with
            | [] => @List.Forall_nil _ _
            | e :: rest => @List.Forall_cons _ _ e rest (node_ind (snd e)) (all rest)
            end) es)
  | Dangling => P_dangling
  end.

End NodeInduction.

(** ** Runs of the throttle *)

(** The verdicts [isRateLimited] gives to the requests of client [ip]
    when the requests [reqs] (client and time of each) are served in
    order from the table [m]. *)
Fixpoint verdicts_of (ip : string) (reqs : list (string * Z)) (m : gmap string RateEntry)
  : list bool :=
  match reqs with
  | [] => []
  | (client, t) :: rest =>
      let (v, m') := isRateLimited client t m in
      if String.eqb client ip then v :: verdicts_of ip rest m'
      else verdicts_of ip rest m'
  end.

(** ** Notions the proofs use *)

(** The characters of a bucket name. *)
Definition hexish (c : ascii) : bool :=
  existsb (Ascii.eqb c) (list_ascii_of_string "0123456789abcdef-").

Fixpoint all_chars (f : ascii -> bool) (s : string) : bool :=
  match s with
  | EmptyString => true
  | String c rest => f c && all_chars f rest
  end.

(** What an entry adds to the total of the directory that lists it. *)
Definition weight (n : node) : Z :=
  match n with
  | File _ c => byte_length c
  | Dir _ _ => dir_size n
  | Dangling => 0
  end.

Fixpoint walk_size (es : list (string * node)) : Z :=
  match es with
  | [] => 0
  | (_, Dangling) :: _ => 0
  | (_, child) :: rest => weight child + walk_size rest
  end.

(** The total [getDirSize] reports for the location [q]. *)
Definition size_at (q : list string) (n : node) : Z :=
  match find q n with
  | Some d => dir_size d
  | None => 0
  end.

(** An action that adds at most [k] bytes: it removes nothing, does not
    replace an entry that cannot be examined, and what it leaves weighs
    at most [k] more than what it found, at every depth. *)
Definition adds_at_most (k : Z) (act : option node -> leaf_result) : Prop :=
  forall found,
    match act found with
    | Leave r =>
        match found with
        | Some Dangling => False
        | Some n0 => weight r <= weight n0 + k /\
                     forall q, size_at q r <= size_at q n0 + k
        | None => weight r <= k /\ forall q, size_at q r <= k
        end
    | Remove => False
    | Fail => True
    end.

(** A task whose effect on the tree stays within the relation [R]. *)
Definition respects {A} (R : node -> node -> Prop) (t : Task A) : Prop :=
  forall fs, R fs (state_of (t fs)).

(** A task that adds at most [k] bytes to the total of the location [q]. *)
Definition grows_at_most {A} (q : list string) (k : Z) (t : Task A) : Prop :=
  forall fs, size_at q (state_of (t fs)) <= size_at q fs + k.

(** A file of [n] bytes. *)
Definition blob (n : N) : string := N.iter n (String "x"%char) EmptyString.

(** What the sweep at time [now] leaves at the location [q] of a
    share: nothing when the share can be examined and is older than the
    time to live, what was there otherwise. *)
Definition swept (now ttlMs : Z) (fs : node) (q : list string) : option node :=
  match fs_stat q fs with
  | Some st => if now - st_mtimeMs st >? ttlMs then None else find q fs
  | None => find q fs
  end.

(** ** Concrete hosts, configurations and trees used by the examples *)

(** The throttle table of a server that has seen no client yet. *)
Definition no_clients : gmap string RateEntry := ∅.

(** A host whose 64-bit hash is small on short passwords. *)
Definition short_hash_host : Host :=
  {| Bun_hash := fun s => (16 ^ Z.of_nat (String.length s)) mod 2 ^ 64;
     file_type := fun _ => EmptyString;
     encodeURIComponent := fun s => s;
     cwd := ["srv"] |}.

(** ** Runs of uploads *)

(** An upload as the server meets it: the request, the identifier
    [nanoid] draws for it and the time it arrives. *)
Record UploadEvent := {
  ev_request : UploadRequest;
  ev_shareId : string;
  ev_now : Z
}.

(** The tree after the uploads have been handled one after the other,
    whatever each of them was answered. *)
Definition run_uploads (host : Host) (cfg : Config) (evs : list UploadEvent) (fs : node)
  : node :=
  fold_left (fun fs ev =>
               state_of (handleUpload host cfg (ev_request ev) (ev_shareId ev) (ev_now ev) fs))
            evs fs.

Definition max_bytes (cfg : Config) : Z := max_bucket_size_mb cfg * 1024 * 1024.

(** Every bucket is within the quota. *)
Definition within_quota (host : Host) (cfg : Config) (fs : node) : Prop :=
  forall bucket, plain_segment bucket = true ->
  getDirSize host (bucket_dir cfg bucket) fs <= max_bytes cfg.

(** The share directory [handleUpload] creates for a request. *)
Definition share_dir_of (host : Host) (cfg : Config) (req : UploadRequest) (shareId : string)
  : path :=
  join (bucket_dir cfg (hashPassword host (default EmptyString (up_password req)))) [shareId].

(** A host for the examples: the hash of a password depends on its
    length only, so that ["pw"] and ["other"] get the buckets
    ["2bcdef012345"] and ["5bcdef012345"]. *)
Definition demo_host : Host :=
  {| Bun_hash := fun s =>
       (Z.of_nat (String.length s) * 2 ^ 60 + 850598692808648585) mod 2 ^ 64;
     file_type := fun name =>
       if String.eqb name "a.txt" then "text/plain;charset=utf-8" else EmptyString;
     encodeURIComponent := fun s => s;
     cwd := ["srv"] |}.

Definition demo_cfg : Config :=
  {| port := 3000; data_dir := "./data"; passwords := ["pw"; "other"];
     max_file_size_mb := 100; share_ttl_days := 7; max_bucket_size_mb := 1 |}.

(** The same configuration with a quota of zero. *)
Definition zero_quota_cfg : Config :=
  {| port := 3000; data_dir := "./data"; passwords := ["pw"; "other"];
     max_file_size_mb := 100; share_ttl_days := 7; max_bucket_size_mb := 0 |}.

(** A disk on which nothing has been uploaded yet. *)
Definition empty_tree : node := Dir 0 [("srv", Dir 0 [])].

Definition upload_of (password : string) (files : list FormValue) (burn : option FormValue)
  : UploadRequest :=
  {| up_password := Some password; up_files := files; up_burn := burn |}.

(** One byte in the bucket of ["pw"]. *)
Definition one_byte_tree : node :=
  state_of (handleUpload demo_host demo_cfg
              (upload_of "pw" [FormFile "a" "x"] None) "share001" 0 empty_tree).

(** The bucket of ["other"] filled to the quota, then an upload by
    ["pw"] whose file name climbs out of its share. *)
Definition fill_other : UploadEvent :=
  {| ev_request := upload_of "other" [FormFile "big.bin" (blob 1048576)] None;
     ev_shareId := "share001"; ev_now := 0 |}.

Definition climb_into_other : UploadEvent :=
  {| ev_request := upload_of "pw" [FormFile "../../5bcdef012345/share001/extra" "x"] None;
     ev_shareId := "share002"; ev_now := 10 |}.

Definition small_upload : UploadEvent :=
  {| ev_request := upload_of "pw" [FormFile "a.txt" "hello"; FormFile "sub/b.txt" "hi"] None;
     ev_shareId := "share003"; ev_now := 20 |}.

(** ** The byte sum of a directory, as the specification words it *)

(** The recursive byte sum of an entry: the bytes of a file, the sum
    over all entries of a directory (markers of zero bytes included),
    nothing for an entry that cannot be examined. *)
Fixpoint byte_sum (n : node) : Z :=
  match n with
  | File _ c => byte_length c
  | Dir _ es =>
      (fix sum (es : list (string * node)) : Z :=
         match es with
         | [] => 0
         | (_, child) :: rest => byte_sum child + sum rest
         end) es
  | Dangling => 0
  end.

(** The recursive byte sum of the directory at [p]; zero when there is
    no directory at [p]. *)
Definition directory_bytes (p : list string) (fs : node) : Z :=
  match find p fs with
  | Some (Dir m es) => byte_sum (Dir m es)
  | _ => 0
  end.

(** Every entry of the subtree is a file or a directory. *)
Fixpoint examinable (n : node) : bool :=
  match n with
  | File _ _ => true
  | Dir _ es =>
      (fix all (es : list (string * node)) : bool :=
         match es with
         | [] => true
         | (_, child) :: rest => examinable child && all rest
         end) es
  | Dangling => false
  end.

(** A quota request of client 10.0.0.1 with the password ["pw"]. *)
Definition quota_request : QuotaRequest :=
  {| q_forwarded_for := Some "10.0.0.1, 172.16.0.1"; q_real_ip := None;
     q_password := Some "pw" |}.

(** The throttle table after [n] quota requests at time 0. *)
Definition after_requests (n : nat) : gmap string RateEntry :=
  Nat.iter n (fun m => (handleQuota demo_host demo_cfg quota_request 0 m one_byte_tree).2)
    no_clients.

(** A share of two files, and a share of one. *)
Definition two_files_tree : node :=
  state_of (handleUpload demo_host demo_cfg
              (upload_of "pw" [FormFile "a.txt" "hello"; FormFile "b.bin" "world"] None)
              "share004" 30 empty_tree).

Definition one_file_tree : node :=
  state_of (handleUpload demo_host demo_cfg
              (upload_of "pw" [FormFile "a.txt" "hello"] None) "share005" 40 empty_tree).

(** A share uploaded with [burn = "true"]. *)
Definition burn_request : UploadRequest :=
  upload_of "pw" [FormFile "a.txt" "hello"] (Some (FormString "true")).

Definition burn_tree : node :=
  state_of (handleUpload demo_host demo_cfg burn_request "share006" 0 empty_tree).

(** ** Trees for the sweep

    The time to live of [demo_cfg] is seven days, 604800000 ms. *)

Definition uploads_of (buckets : list (string * node)) : node :=
  Dir 0 [("srv", Dir 0 [("data", Dir 0 [("uploads", Dir 0 buckets)])])].

Definition old_share (file : string) : node := Dir 0 [(file, File 0 "hello")].

(** Two buckets, each with one share last modified at time 0. *)
Definition stale_tree : node :=
  uploads_of [("aaaaaaaaaaaa", Dir 0 [("share00a", old_share "a.txt")]);
              ("bbbbbbbbbbbb", Dir 0 [("share00b", old_share "b.txt")])].

(** A bucket that cannot be read, followed by a bucket with an old share. *)
Definition unreadable_bucket_tree : node :=
  uploads_of [("aaaaaaaaaaaa", Dangling);
              ("bbbbbbbbbbbb", Dir 0 [("share00b", old_share "b.txt")])].

(** One bucket with a share that cannot be examined, an old share and
    a share modified one hour before the sweep. *)
Definition mixed_bucket_tree : node :=
  uploads_of [("aaaaaaaaaaaa",
               Dir 0 [("share001", Dangling);
                      ("share002", old_share "a.txt");
                      ("share003", Dir 601200001 [("b.txt", File 601200001 "world")])])].

Definition sweep_time : Z := 604800001.

(** A share of two uploaded files one of which is named [".burn"], and
    a share of two files uploaded under the names ["x/a"] and ["x/b"];
    neither upload asks for burn. *)
Definition dot_burn_upload : UploadRequest :=
  upload_of "pw" [FormFile ".burn" "zz"; FormFile "a.txt" "hello"] None.

Definition dot_burn_tree : node :=
  state_of (handleUpload demo_host demo_cfg dot_burn_upload "share007" 60 empty_tree).

Definition nested_upload : UploadRequest :=
  upload_of "pw" [FormFile "x/a" "one"; FormFile "x/b" "two"] None.

Definition nested_tree : node :=
  state_of (handleUpload demo_host demo_cfg nested_upload "share008" 70 empty_tree).

(** ** Static files and the router *)

Definition DIST_DIR : path := parse_path "./dist/client".

(** A request as [fetch] reads it: the method, [new URL(req.url).pathname],
    the headers the handlers look at and the fields of the form. *)
Record Request := {
  req_method : string;
  req_pathname : string;
  req_password : option string;         (* header X-Password *)
  req_forwarded_for : option string;    (* header x-forwarded-for *)
  req_real_ip : option string;          (* header x-real-ip *)
  req_files : list FormValue;           (* formData.getAll("files") *)
  req_burn : option FormValue           (* formData.get("burn") *)
}.

(** What the process holds between two requests: the storage tree, the
    pending timers and the throttle table. *)
Record ServerState := {
  srv_tree : node;
  srv_timers : list Timer;
  srv_limits : gmap string RateEntry
}.

Definition as_upload (req : Request) : UploadRequest :=
  {| up_password := req_password req; up_files := req_files req; up_burn := req_burn req |}.

Definition as_quota (req : Request) : QuotaRequest :=
  {| q_forwarded_for := req_forwarded_for req; q_real_ip := req_real_ip req;
     q_password := req_password req |}.

(** [headers.set(name, value)] on the list of headers of a response. *)
Fixpoint set_header (name value : string) (hs : list (string * string))
  : list (string * string) :=
  match hs with
  | [] => [(name, value)]
  | (k, v) :: rest =>
      if String.eqb k name then (k, value) :: rest else (k, v) :: set_header name value rest
  end.

Definition with_header (name value : string) (r : Response) : Response :=
  {| status := status r; headers := set_header name value (headers r); body := body r |}.

(** The answer to a preflight request; its body is [null]. *)
Definition preflight : Response :=
  {| status := 200;
     headers := [("Access-Control-Allow-Origin", "*");
                 ("Access-Control-Allow-Methods", "GET, POST, OPTIONS");
                 ("Access-Control-Allow-Headers", "Content-Type, X-Password")];
     body := Text EmptyString |}.

Section Frontend.

Context (host : Host).

(** [new Response(Bun.file(p))]: the code gives no header of its own. *)
Definition file_response (p : path) (fs : node) : Response :=
  {| status := 200; headers := []; body := FileBody (fs_read (locate host p) fs) |}.

Definition serveStatic (pathname : string) (fs : node) : Response :=
  let filePath := if String.eqb pathname "/" then "/index.html" else pathname in
  let fullPath := join DIST_DIR [filePath] in
  if fs_exists (locate host fullPath) fs then file_response fullPath fs
  else
    let indexFile := join DIST_DIR ["index.html"] in
    if fs_exists (locate host indexFile) fs then file_response indexFile fs
    else text_response 404 "Not Found".

(** The [fetch] handler of [Bun.serve]; [shareId] is the identifier
    [nanoid] would draw and [now] the time of the request.  No response
    stands for an exception that leaves the handler. *)
Definition fetch (cfg : Config) (req : Request) (shareId : string) (now : Z)
    (st : ServerState) : option Response * ServerState :=
  if String.eqb (req_method req) "OPTIONS" then (Some preflight, st)
  else if String.prefix "/d/" (req_pathname req) then
    let (response, set) := handleDownload host cfg (req_pathname req) now (srv_tree st) in
    (Some response,
     {| srv_tree := srv_tree st; srv_timers := srv_timers st ++ set;
        srv_limits := srv_limits st |})
  else if String.eqb (req_pathname req) "/api/upload" && String.eqb (req_method req) "POST" then
    match handleUpload host cfg (as_upload req) shareId now (srv_tree st) with
    | Returned response fs' =>
        (Some (with_header "Access-Control-Allow-Origin" "*" response),
         {| srv_tree := fs'; srv_timers := srv_timers st; srv_limits := srv_limits st |})
    | Thrown fs' =>
        (None, {| srv_tree := fs'; srv_timers := srv_timers st; srv_limits := srv_limits st |})
    end
  else if String.eqb (req_pathname req) "/api/quota" && String.eqb (req_method req) "GET" then
    let (response, limits) := handleQuota host cfg (as_quota req) now (srv_limits st)
                                (srv_tree st) in
    (Some response,
     {| srv_tree := srv_tree st; srv_timers := srv_timers st; srv_limits := limits |})
  else (Some (serveStatic (req_pathname req) (srv_tree st)), st).

End Frontend.

(** ** The upload form ([src/client/App.tsx])

    A [File] of the browser is its name and its bytes; its [size] is
    the number of bytes. *)

Definition file_size (f : string * string) : Z := byte_length f.2.

(** The quota the form keeps: the JSON of a successful answer of
    [/api/quota]. *)
Record Quota := { quota_used : Z; quota_max : Z; quota_available : Z }.

Definition totalSize (queuedFiles : list (string * string)) : Z :=
  fold_left (fun sum f => sum + file_size f) queuedFiles 0.

Definition exceedsQuota (quota : option Quota) (queuedFiles : list (string * string)) : bool :=
  match quota with
  | Some q => totalSize queuedFiles >? quota_available q
  | None => false
  end.

Definition handleDrop (files prev : list (string * string)) : list (string * string) :=
  prev ++ files.

(** [xs.filter((x, i) => keep(x, i))], the index counted from [i]. *)
Fixpoint filter_indexed {A} (keep : A -> nat -> bool) (i : nat) (xs : list A) : list A :=
  match xs with
  | [] => []
  | x :: rest =>
      if keep x i then x :: filter_indexed keep (S i) rest
      else filter_indexed keep (S i) rest
  end.

Definition handleRemoveFile (index : nat) (prev : list (string * string))
  : list (string * string) :=
  filter_indexed (fun _ i => negb (i =? index)%nat) 0 prev.

(** What the effect that fetches the quota stores for an answer:
    [res.ok ? await res.json() : null]. *)
Definition quota_of (response : Response) : option Quota :=
  if (200 <=? status response) && (status response <=? 299) then
    match body response with
    | JsonQuota used max available =>
        Some {| quota_used := used; quota_max := max; quota_available := available |}
    | _ => None
    end
  else None.

(** The request [uploadFiles] sends; [password] is the X-Password
    header as it reaches the server. *)
Definition uploadFiles (files : list (string * string)) (password : string) (burn : bool)
  : UploadRequest :=
  {| up_password := Some password;
     up_files := map (fun f => FormFile f.1 f.2) files;
     up_burn := if burn then Some (FormString "true") else None |}.

(** ** Notions the further properties use *)

(** The names [readdir] gives for the directory at [p], when there is
    one, are names a directory can hold. *)
Definition listed_plain (p : list string) (fs : node) : Prop :=
  forall names, fs_readdir p fs = Some names ->
  Forall (fun s => plain_segment s = true) names.

(** The buckets of the uploads directory and the shares of every bucket
    have names a directory can hold. *)
Definition well_named (uploads : list string) (fs : node) : Prop :=
  listed_plain uploads fs /\
  forall bucket, plain_segment bucket = true -> listed_plain (uploads ++ [bucket]) fs.

(** What the sweep keeps true of the tree while it runs, for a location
    [q] it has no reason to touch: the names stay well formed and what
    is at [q] is what was there in [fs0]. *)
Definition kept_by_sweep (uploads q : list string) (fs0 fs : node) : Prop :=
  well_named uploads fs /\ find q fs = find q fs0.

(** The entries of a share directory after an upload at time [now]. *)
Definition saved_entries (now : Z) (files : list (string * string)) (burn : bool)
  : list (string * node) :=
  map (fun f => (f.1, File now f.2)) files
  ++ (if burn then [(".burn", File now EmptyString)] else []).

Definition no_comma (s : string) : bool :=
  all_chars (fun c => negb (Ascii.eqb c ","%char)) s.

(** A disk with the built front end and one old share. *)
Definition site_tree : node :=
  Dir 0 [("srv",
          Dir 0 [("dist",
                  Dir 0 [("client",
                          Dir 0 [("index.html", File 0 "<html></html>");
                                 ("assets", Dir 0 [("app.js", File 0 "run()")])])]);
                 ("data",
                  Dir 0 [("uploads",
                          Dir 0 [("aaaaaaaaaaaa",
                                  Dir 0 [("share00a", old_share "a.txt")])])])])].

(** The string of [n] times the character [c]. *)
Fixpoint repeat_char (c : ascii) (n : nat) : string :=
  match n with
  | O => EmptyString
  | S n' => String c (repeat_char c n')
  end.

(** The bytes a run of uploads brings: the sum of the sizes of the
    uploads. *)
Definition uploaded_bytes (evs : list UploadEvent) : Z :=
  fold_right (fun ev total => upload_size (up_files (ev_request ev)) + total) 0 evs.

(** ** The statistics script

    The script counts the shares and the buckets under
    [<data_dir>/uploads] and measures the directory with its own copy
    of [getDirSize]; the [catch] around its loop keeps what was counted
    before a [readdir] threw. *)

Record StatsLine := { stat_shares : nat; stat_buckets : nat; stat_bytes : Z }.

Section Stats.

Context (host : Host).

Fixpoint count_shares (uploadsDir : path) (bucketDirs : list string) (shares : nat)
    (fs : node) : nat :=
  match bucketDirs with
  | [] => shares
  | bucket :: rest =>
      match fs_readdir (locate host (join uploadsDir [bucket])) fs with
      | Some entries => count_shares uploadsDir rest (shares + length entries) fs
      | None => shares
      end
  end.

Definition stats (dataDir : string) (fs : node) : StatsLine :=
  let uploadsDir := join (parse_path dataDir) ["uploads"] in
  let counted :=
    match fs_readdir (locate host uploadsDir) fs with
    | Some bucketDirs => (count_shares uploadsDir bucketDirs 0 fs, length bucketDirs)
    | None => (O, O)
    end in
  {| stat_shares := counted.1; stat_buckets := counted.2;
     stat_bytes := getDirSize host uploadsDir fs |}.

End Stats.

(** The shares of the buckets that come before the first entry that is
    not a directory. *)
Fixpoint listed_shares (entries : list (string * node)) : nat :=
  match entries with
  | (_, Dir _ es) :: rest => (length es + listed_shares rest)%nat
  | _ => O
  end.

(** * Properties *)

(** ** Strings and hexadecimal digits *)

Lemma substring_0_length (n : nat) (s : string) :
  String.length (String.substring 0 n s) = Nat.min n (String.length s).
Proof.
  revert s; induction n as [|n IH]; intros [|c s]; simpl; auto.
Qed.

Lemma slice_0_length (n : nat) (s : string) :
  String.length (slice 0 n s) = Nat.min n (String.length s).
Proof. unfold slice. rewrite Nat.sub_0_r. apply substring_0_length. Qed.

(** The number of digits [hex_digits] produces, when the fuel covers
    the number. *)
Lemma hex_digits_length (fuel : nat) :
  forall n acc, 0 <= n < 16 ^ Z.of_nat (S fuel) ->
  exists d : nat,
    (1 <= d <= S fuel)%nat /\
    String.length (hex_digits (S fuel) n acc) = (String.length acc + d)%nat /\
    n < 16 ^ Z.of_nat d /\ (d = 1%nat \/ 16 ^ (Z.of_nat d - 1) <= n).
Proof.
  induction fuel as [|fuel IH]; intros n acc Hn;
    change (hex_digits (S ?f) n acc)
      with (if n <? 16 then String (hex_digit (n mod 16)) acc
            else hex_digits f (n / 16) (String (hex_digit (n mod 16)) acc));
    destruct (Z.ltb_spec n 16) as [Hlt|Hge];
    try (exists 1%nat; cbn [String.length]; repeat split; try lia; fail).
  assert (Hq : 0 <= n / 16 < 16 ^ Z.of_nat (S fuel)).
  { split; [apply Z.div_pos; lia|].
    apply Z.div_lt_upper_bound; [lia|].
    replace (16 * 16 ^ Z.of_nat (S fuel)) with (16 ^ Z.of_nat (S (S fuel))); [lia|].
    rewrite (Nat2Z.inj_succ (S fuel)), Z.pow_succ_r; lia. }
  destruct (IH (n / 16) (String (hex_digit (n mod 16)) acc) Hq)
    as (d & Hd & Hlen & Hup & Hlow).
  exists (S d). rewrite Hlen. cbn [String.length].
  assert (Hpow : 16 ^ Z.of_nat (S d) = 16 * 16 ^ Z.of_nat d)
    by (rewrite Nat2Z.inj_succ, Z.pow_succ_r; lia).
  assert (Hdiv : n = 16 * (n / 16) + n mod 16) by (apply Z.div_mod; lia).
  assert (Hmod : 0 <= n mod 16 < 16) by (apply Z.mod_pos_bound; lia).
  repeat split; try lia.
  right. replace (Z.of_nat (S d) - 1) with (Z.of_nat d) by lia.
  destruct Hlow as [->|Hlow]; [simpl; lia|].
  replace (Z.of_nat d) with (Z.succ (Z.of_nat d - 1)) by lia.
  rewrite Z.pow_succ_r by lia. lia.
Qed.

Lemma log2_fuel (n : Z) : 0 <= n -> n < 16 ^ Z.of_nat (S (Z.to_nat (Z.log2 n))).
Proof.
  intros Hn.
  destruct (Z.eq_dec n 0) as [->|Hne]; [simpl; lia|].
  assert (H2 : n < 2 ^ Z.succ (Z.log2 n)) by (apply Z.log2_spec; lia).
  assert (Hl : 0 <= Z.log2 n) by apply Z.log2_nonneg.
  rewrite Nat2Z.inj_succ, Z2Nat.id by lia.
  eapply Z.lt_le_trans; [exact H2|].
  apply Z.pow_le_mono_l. lia.
Qed.

Lemma hex_digit_hexish (d : Z) : hexish (hex_digit d) = true.
Proof.
  unfold hex_digit. generalize (Z.to_nat d) as k. intros k.
  do 16 (destruct k as [|k]; [reflexivity|]). destruct k; reflexivity.
Qed.

Lemma hex_digits_hexish (fuel : nat) :
  forall n acc, all_chars hexish acc = true ->
  all_chars hexish (hex_digits fuel n acc) = true.
Proof.
  induction fuel as [|fuel IH]; intros n acc Hacc; cbn [hex_digits]; [exact Hacc|].
  assert (Hacc' : all_chars hexish (String (hex_digit (n mod 16)) acc) = true).
  { cbn [all_chars]. rewrite hex_digit_hexish, Hacc. reflexivity. }
  destruct (n <? 16); [exact Hacc'|]. apply IH. exact Hacc'.
Qed.

Lemma hex_digits_nonempty (fuel : nat) (n : Z) (acc : string) :
  hex_digits (S fuel) n acc <> EmptyString.
Proof.
  revert n acc; induction fuel as [|fuel IH]; intros n acc.
  - cbn. destruct (n <? 16); discriminate.
  - change (hex_digits (S (S fuel)) n acc)
      with (if n <? 16 then String (hex_digit (n mod 16)) acc
            else hex_digits (S fuel) (n / 16) (String (hex_digit (n mod 16)) acc)).
    destruct (n <? 16); [discriminate|apply IH].
Qed.

Lemma toString16_hexish (n : Z) : all_chars hexish (toString16 n) = true.
Proof.
  unfold toString16. destruct (n <? 0).
  - cbn [all_chars]. rewrite hex_digits_hexish; reflexivity.
  - apply hex_digits_hexish. reflexivity.
Qed.

Lemma toString16_nonempty (n : Z) : toString16 n <> EmptyString.
Proof.
  unfold toString16. destruct (n <? 0); [discriminate|apply hex_digits_nonempty].
Qed.

Lemma substring_0_all_chars (f : ascii -> bool) (n : nat) (s : string) :
  all_chars f s = true -> all_chars f (String.substring 0 n s) = true.
Proof.
  revert s; induction n as [|n IH]; intros [|c s] H; simpl in *; auto.
  apply andb_true_iff in H as [Hc Hs]. rewrite Hc. simpl. auto.
Qed.

Lemma hexish_no_slash (s : string) : all_chars hexish s = true -> has_slash s = false.
Proof.
  unfold has_slash. induction s as [|c s IH]; [reflexivity|].
  cbn [all_chars list_ascii_of_string existsb].
  intros H. apply andb_true_iff in H as [Hc Hs]. rewrite (IH Hs), orb_false_r.
  destruct (Ascii.eqb_spec slash c) as [<-|]; [cbv in Hc; discriminate Hc|reflexivity].
Qed.

Lemma hexish_plain (s : string) :
  all_chars hexish s = true -> s <> EmptyString -> plain_segment s = true.
Proof.
  intros Hall Hne. unfold plain_segment, truthy.
  rewrite (hexish_no_slash s Hall).
  destruct (String.eqb_spec s EmptyString) as [->|_]; [congruence|].
  destruct (String.eqb_spec s ".") as [->|_]; [cbv in Hall; discriminate Hall|].
  destruct (String.eqb_spec s "..") as [->|_]; [cbv in Hall; discriminate Hall|].
  reflexivity.
Qed.

(** The bucket of any password is a name a directory can hold. *)
Lemma hashPassword_plain (host : Host) (password : string) :
  plain_segment (hashPassword host password) = true.
Proof.
  apply hexish_plain.
  - apply substring_0_all_chars, toString16_hexish.
  - unfold hashPassword, slice.
    pose proof (toString16_nonempty (Bun_hash host password)) as Hne.
    destruct (toString16 (Bun_hash host password)); [congruence|]. discriminate.
Qed.

(** ** The request throttle *)

Lemma isRateLimited_other (ip client : string) (t : Z) (m : gmap string RateEntry) :
  client <> ip -> (isRateLimited client t m).2 !! ip = m !! ip.
Proof.
  intros Hne. unfold isRateLimited.
  destruct (m !! client) as [e|]; [destruct (t >? resetAt e)|];
    simpl; apply lookup_insert_ne; exact Hne.
Qed.

(** Within a window that is open for [ip], the request number [i] from
    now is refused exactly when the count passes the maximum. *)
Lemma verdicts_in_window (ip : string) (reqs : list (string * Z)) :
  forall (m : gmap string RateEntry) (c R : Z),
  m !! ip = Some {| count := c; resetAt := R |} ->
  Forall (fun r => r.1 = ip -> r.2 <= R) reqs ->
  verdicts_of ip reqs m =
  map (fun i => RATE_LIMIT_MAX <? c + Z.of_nat i)
      (seq 1 (length (List.filter (fun r => String.eqb r.1 ip) reqs))).
Proof.
  induction reqs as [|[client t] rest IH]; intros m c R Hm Hall; [reflexivity|].
  apply Forall_cons in Hall as [Hhd Htl]. cbn [verdicts_of List.filter fst].
  destruct (isRateLimited client t m) as [v m'] eqn:Hstep.
  destruct (String.eqb_spec client ip) as [->|Hne].
  - unfold isRateLimited in Hstep. rewrite Hm in Hstep. cbn [resetAt count] in Hstep.
    specialize (Hhd eq_refl). cbn in Hhd.
    destruct (Z.gtb_spec t R) as [Hgt|_]; [lia|].
    injection Hstep as <- <-.
    cbn [length seq map]. f_equal.
    + rewrite Z.gtb_ltb. reflexivity.
    + rewrite (IH _ (c + 1) R); [|apply lookup_insert_eq|exact Htl].
      rewrite <- (seq_shift _ 1), map_map. apply map_ext. intros i. f_equal. lia.
  - apply (IH m' c R); [|exact Htl].
    replace m' with (isRateLimited client t m).2 by (rewrite Hstep; reflexivity).
    rewrite isRateLimited_other; assumption.
Qed.

(** ** Paths *)

Lemma split_on_nonempty (sep : ascii) (s : string) : split_on sep s <> [].
Proof.
  destruct s as [|c s]; [discriminate|]. cbn [split_on].
  destruct (Ascii.eqb c sep); [discriminate|].
  destruct (split_on sep s); discriminate.
Qed.

Lemma split_on_app (sep : ascii) (a b : string) :
  split_on sep (a +:+ String sep b) = split_on sep a ++ split_on sep b.
Proof.
  induction a as [|c a IH].
  - change (EmptyString +:+ String sep b) with (String sep b).
    cbn [split_on]. rewrite Ascii.eqb_refl. reflexivity.
  - change (String c a +:+ String sep b) with (String c (a +:+ String sep b)).
    cbn [split_on]. destruct (Ascii.eqb c sep).
    + rewrite IH. reflexivity.
    + rewrite IH. pose proof (split_on_nonempty sep a) as Hne.
      destruct (split_on sep a); [congruence|reflexivity].
Qed.

Lemma split_slash_plain (s : string) : has_slash s = false -> split_slash s = [s].
Proof.
  unfold has_slash, split_slash. induction s as [|c s IH]; [reflexivity|].
  cbn [list_ascii_of_string existsb split_on]. intros H.
  apply orb_false_iff in H as [Hc Hs].
  rewrite Ascii.eqb_sym, Hc, (IH Hs). reflexivity.
Qed.

Lemma plain_segment_inv (s : string) :
  plain_segment s = true ->
  s <> EmptyString /\ s <> "." /\ s <> ".." /\ has_slash s = false.
Proof.
  unfold plain_segment, truthy. intros H.
  repeat (apply andb_true_iff in H as [H ?]).
  repeat split;
    try (intros ->; cbv in *; discriminate).
  destruct (has_slash s); [discriminate|reflexivity].
Qed.

Lemma plain_split (s : string) : plain_segment s = true -> split_slash s = [s].
Proof. intros H. apply split_slash_plain, plain_segment_inv, H. Qed.

Lemma plain_truthy (s : string) : plain_segment s = true -> truthy s = true.
Proof.
  unfold plain_segment. intros H. repeat (apply andb_true_iff in H as [H ?]). exact H.
Qed.

Lemma plain_no_dotdot (s : string) : plain_segment s = true -> has_dotdot s = false.
Proof.
  intros H. unfold has_dotdot. rewrite (plain_split s H). cbn [existsb].
  destruct (plain_segment_inv s H) as (_ & _ & Hdd & _).
  destruct (String.eqb_spec ".." s); [congruence|reflexivity].
Qed.

Lemma plain_kept (s : string) : plain_segment s = true -> kept_segments [s] = [s].
Proof.
  intros H. destruct (plain_segment_inv s H) as (He & Hd & _ & _).
  unfold kept_segments. cbn [List.filter].
  destruct (String.eqb_spec s EmptyString); [congruence|].
  destruct (String.eqb_spec s "."); [congruence|]. reflexivity.
Qed.

(** The link of a share: its pieces are ["d"], the bucket and the share. *)
Lemma split_link (bucket shareId : string) :
  plain_segment bucket = true -> plain_segment shareId = true ->
  List.filter truthy (split_slash ("/d/" +:+ bucket +:+ "/" +:+ shareId))
  = ["d"; bucket; shareId].
Proof.
  intros Hb Hs. unfold split_slash.
  change ("/d/" +:+ bucket +:+ "/" +:+ shareId)
    with (EmptyString +:+ String slash ("d" +:+ String slash (bucket +:+ String slash shareId))).
  rewrite !split_on_app.
  change (split_on slash "d") with ["d"].
  change (split_on slash EmptyString) with [EmptyString].
  fold split_slash. rewrite (plain_split _ Hb), (plain_split _ Hs).
  cbn [app List.filter].
  change (truthy EmptyString) with false. change (truthy "d") with true. cbv iota.
  rewrite (plain_truthy _ Hb), (plain_truthy _ Hs). reflexivity.
Qed.

Lemma normalize_onto_app (abs : bool) (stack xs ys : list string) :
  normalize_onto abs stack (xs ++ ys) = normalize_onto abs (normalize_onto abs stack xs) ys.
Proof. unfold normalize_onto. apply fold_left_app. Qed.

(** Without [".."] segments, normalising only drops the empty and the
    ["."] segments. *)
Lemma normalize_onto_below (abs : bool) (segs : list string) :
  forall stack, existsb (String.eqb "..") segs = false ->
  normalize_onto abs stack segs = rev (kept_segments segs) ++ stack.
Proof.
  induction segs as [|s segs IH]; intros stack H; [reflexivity|].
  cbn [existsb] in H. apply orb_false_iff in H as [Hs Hrest].
  unfold normalize_onto in *. cbn [fold_left kept_segments List.filter].
  rewrite (IH _ Hrest). unfold push_segment.
  destruct (String.eqb s EmptyString || String.eqb s ".") eqn:Hdrop; cbn [negb].
  - reflexivity.
  - rewrite String.eqb_sym, Hs. cbn [rev]. rewrite <- app_assoc. reflexivity.
Qed.

Lemma join_join (p : path) (xs ys : list string) :
  join (join p xs) ys = join p (xs ++ ys).
Proof.
  unfold join. cbn [absolute segments]. f_equal.
  rewrite rev_involutive, flat_map_app, normalize_onto_app. reflexivity.
Qed.

Lemma join_segments_below (p : path) (parts : list string) :
  existsb (String.eqb "..") (flat_map split_slash parts) = false ->
  segments (join p parts) = segments p ++ kept_segments (flat_map split_slash parts).
Proof.
  intros H. unfold join. cbn [segments].
  rewrite (normalize_onto_below _ _ _ H), rev_app_distr, !rev_involutive. reflexivity.
Qed.

Lemma kept_segments_clean (segs : list string) :
  existsb (String.eqb "..") segs = false ->
  existsb (String.eqb "..") (kept_segments segs) = false.
Proof.
  induction segs as [|s segs IH]; [reflexivity|].
  cbn [existsb kept_segments List.filter]. intros H.
  apply orb_false_iff in H as [Hs Hrest].
  destruct (negb _); cbn [existsb]; rewrite ?Hs; auto.
Qed.

Lemma kept_segments_idem (segs : list string) :
  kept_segments (kept_segments segs) = kept_segments segs.
Proof.
  unfold kept_segments. induction segs as [|s segs IH]; [reflexivity|].
  cbn [List.filter]. destruct (negb _) eqn:Hk; [|exact IH].
  cbn [List.filter]. rewrite Hk, IH. reflexivity.
Qed.

Section Locations.

Context (host : Host).

(** A name without [".."] segments stays below the path it is joined to. *)
Lemma locate_join_below (p : path) (parts : list string) :
  existsb (String.eqb "..") (flat_map split_slash parts) = false ->
  locate host (join p parts) =
  locate host p ++ kept_segments (flat_map split_slash parts).
Proof.
  intros H. unfold locate, resolve.
  change (absolute (join p parts)) with (absolute p).
  rewrite (join_segments_below p parts H).
  destruct (absolute p); [reflexivity|].
  rewrite normalize_onto_app.
  rewrite (normalize_onto_below true (kept_segments _) _ (kept_segments_clean _ H)).
  rewrite kept_segments_idem, rev_app_distr, rev_involutive. reflexivity.
Qed.

Lemma locate_join_name (p : path) (name : string) :
  has_dotdot name = false ->
  locate host (join p [name]) = locate host p ++ kept_segments (split_slash name).
Proof.
  intros H. rewrite locate_join_below; cbn [flat_map]; rewrite app_nil_r; auto.
Qed.

Lemma locate_join_plain (p : path) (s : string) :
  plain_segment s = true -> locate host (join p [s]) = locate host p ++ [s].
Proof.
  intros H. rewrite (locate_join_name p s (plain_no_dotdot s H)).
  rewrite (plain_split s H), (plain_kept s H). reflexivity.
Qed.

End Locations.

(** ** Directory listings *)

Lemma get_put_same (k : string) (n : node) (es : list (string * node)) :
  get_entry k (put_entry k n es) = Some n.
Proof.
  induction es as [|[k0 n0] es IH]; cbn [put_entry get_entry].
  - rewrite String.eqb_refl. reflexivity.
  - destruct (String.eqb k0 k) eqn:E; cbn [get_entry]; rewrite E; auto.
Qed.

Lemma get_put_other (k k' : string) (n : node) (es : list (string * node)) :
  k <> k' -> get_entry k' (put_entry k n es) = get_entry k' es.
Proof.
  intros Hne. induction es as [|[k0 n0] es IH]; cbn [put_entry get_entry].
  - destruct (String.eqb_spec k k'); [congruence|reflexivity].
  - destruct (String.eqb_spec k0 k) as [->|]; cbn [get_entry].
    + destruct (String.eqb_spec k k'); [congruence|reflexivity].
    + rewrite IH. reflexivity.
Qed.

Lemma get_del_same (k : string) (es : list (string * node)) :
  get_entry k (del_entry k es) = None.
Proof.
  induction es as [|[k0 n0] es IH]; cbn [del_entry get_entry]; [reflexivity|].
  destruct (String.eqb k0 k) eqn:E; [exact IH|]. cbn [get_entry]. rewrite E. exact IH.
Qed.

Lemma get_del_other (k k' : string) (es : list (string * node)) :
  k <> k' -> get_entry k' (del_entry k es) = get_entry k' es.
Proof.
  intros Hne. induction es as [|[k0 n0] es IH]; cbn [del_entry get_entry]; [reflexivity|].
  destruct (String.eqb_spec k0 k) as [->|]; cbn [get_entry].
  - rewrite IH. destruct (String.eqb_spec k k'); [congruence|reflexivity].
  - rewrite IH. reflexivity.
Qed.

Lemma get_entry_listed (k : string) (es : list (string * node)) (n : node) :
  get_entry k es = Some n -> In k (map fst es).
Proof.
  induction es as [|[k0 n0] es IH]; cbn [get_entry map fst]; [discriminate|].
  destruct (String.eqb_spec k0 k) as [->|]; [left; reflexivity|right; auto].
Qed.

(** ** The primitives that change the tree *)

Section AlterAt.

Context (now : Z) (create : bool) (act : option node -> leaf_result).

Lemma alter_at_last (name : string) (m : Z) (es : list (string * node)) :
  alter_at now create act [name] (Dir m es) =
  match act (get_entry name es) with
  | Leave n' =>
      Some (Dir (match get_entry name es with Some _ => m | None => now end)
                (put_entry name n' es))
  | Remove => Some (Dir now (del_entry name es))
  | Fail => None
  end.
Proof. reflexivity. Qed.

Lemma alter_at_inner (name next : string) (rest : list string) (m : Z)
    (es : list (string * node)) :
  alter_at now create act (name :: next :: rest) (Dir m es) =
  match get_entry name es with
  | Some child =>
      match alter_at now create act (next :: rest) child with
      | Some child' => Some (Dir m (put_entry name child' es))
      | None => None
      end
  | None =>
      if create then
        match alter_at now create act (next :: rest) (Dir now []) with
        | Some child' => Some (Dir now (put_entry name child' es))
        | None => None
        end
      else None
  end.
Proof. reflexivity. Qed.

(** Only a directory can be changed below, and it stays a directory. *)
Lemma alter_at_dir (p : list string) (n n' : node) :
  alter_at now create act p n = Some n' ->
  exists x p' m es m' es', p = x :: p' /\ n = Dir m es /\ n' = Dir m' es'.
Proof.
  destruct p as [|x p]; [discriminate|].
  destruct n as [| m es |]; try discriminate.
  intros H. exists x, p, m, es.
  destruct p as [|y p].
  - rewrite alter_at_last in H. destruct (act _); inversion H; eauto.
  - rewrite alter_at_inner in H.
    destruct (get_entry x es).
    + destruct (alter_at _ _ _ _ _); inversion H; eauto.
    + destruct create; [|discriminate].
      destruct (alter_at _ _ _ _ _); inversion H; eauto.
Qed.

(** A change at [p] is not seen at a location that diverges from [p]. *)
Lemma alter_at_frame (p : list string) :
  forall q n n', diverge p q = true ->
  alter_at now create act p n = Some n' -> find q n' = find q n.
Proof.
  induction p as [|x p IH]; intros q n n' Hd Ha; [discriminate|].
  destruct q as [|y q]; [discriminate|].
  destruct n as [| m es |]; try discriminate.
  cbn [diverge] in Hd. cbn [find].
  destruct (String.eqb_spec x y) as [<-|Hne].
  - destruct p as [|x2 p]; [discriminate|].
    rewrite alter_at_inner in Ha.
    destruct (get_entry x es) as [child|] eqn:Hg.
    + destruct (alter_at now create act (x2 :: p) child) as [child'|] eqn:Hc;
        [|discriminate].
      injection Ha as <-. cbn [find]. rewrite get_put_same. eauto.
    + destruct create; [|discriminate].
      destruct (alter_at now true act (x2 :: p) (Dir now [])) as [child'|] eqn:Hc;
        [|discriminate].
      injection Ha as <-. cbn [find]. rewrite get_put_same.
      rewrite (IH q _ _ Hd Hc).
      destruct q as [|y q]; [destruct p; discriminate|reflexivity].
  - destruct p as [|x2 p].
    + rewrite alter_at_last in Ha.
      destruct (act (get_entry x es)); inversion Ha; subst; cbn [find];
        rewrite ?get_put_other, ?get_del_other by assumption; reflexivity.
    + rewrite alter_at_inner in Ha.
      destruct (get_entry x es).
      * destruct (alter_at _ _ _ _ _); inversion Ha; subst; cbn [find].
        rewrite get_put_other by assumption. reflexivity.
      * destruct create; [|discriminate].
        destruct (alter_at _ _ _ _ _); inversion Ha; subst; cbn [find].
        rewrite get_put_other by assumption. reflexivity.
Qed.

(** What is found at [p] afterwards is what [act] left there. *)
Lemma alter_at_result (Q : option node -> Prop) :
  (forall found r, act found = Leave r -> Q (Some r)) ->
  (forall found, act found = Remove -> Q None) ->
  forall p n n', alter_at now create act p n = Some n' -> Q (find p n').
Proof.
  intros HL HR. induction p as [|x p IH]; intros n n' Ha; [discriminate|].
  destruct n as [| m es |]; try discriminate.
  destruct p as [|x2 p].
  - rewrite alter_at_last in Ha.
    destruct (act (get_entry x es)) eqn:Hact; inversion Ha; subst; cbn [find].
    + rewrite get_put_same. eauto.
    + rewrite get_del_same. eauto.
  - rewrite alter_at_inner in Ha.
    destruct (get_entry x es) as [child|].
    + destruct (alter_at now create act (x2 :: p) child) as [child'|] eqn:Hc;
        inversion Ha; subst.
      change (find (x :: x2 :: p) (Dir m (put_entry x child' es)))
        with (match get_entry x (put_entry x child' es) with
              | Some c => find (x2 :: p) c | None => None end).
      rewrite get_put_same. eauto.
    + destruct create; [|discriminate].
      destruct (alter_at now true act (x2 :: p) (Dir now [])) as [child'|] eqn:Hc;
        inversion Ha; subst.
      change (find (x :: x2 :: p) (Dir now (put_entry x child' es)))
        with (match get_entry x (put_entry x child' es) with
              | Some c => find (x2 :: p) c | None => None end).
      rewrite get_put_same. eauto.
Qed.

End AlterAt.

(** ** Sizes *)

Lemma dir_size_walk (m : Z) (es : list (string * node)) :
  dir_size (Dir m es) = walk_size es.
Proof.
  induction es as [|[k c] es IH]; [reflexivity|].
  change (dir_size (Dir m ((k, c) :: es)))
    with (match c with
          | Dir _ _ => dir_size c + dir_size (Dir m es)
          | File _ d => byte_length d + dir_size (Dir m es)
          | Dangling => 0
          end).
  rewrite IH. destruct c; reflexivity.
Qed.

Lemma byte_length_nonneg (s : string) : 0 <= byte_length s.
Proof. unfold byte_length. lia. Qed.

Lemma dir_size_nonneg (n : node) : 0 <= dir_size n.
Proof.
  induction n as [m c | m es IH |] using node_ind; try (cbn; lia).
  rewrite dir_size_walk. induction es as [|[k c] es IHes]; [cbn; lia|].
  apply Forall_cons in IH as [Hc Hes]. specialize (IHes Hes). cbn in Hc.
  cbn [walk_size]. destruct c; cbn [weight]; try lia.
  pose proof (byte_length_nonneg content). lia.
Qed.

Lemma weight_nonneg (n : node) : 0 <= weight n.
Proof.
  destruct n; cbn [weight]; [apply byte_length_nonneg|apply dir_size_nonneg|lia].
Qed.

Lemma walk_size_nonneg (es : list (string * node)) : 0 <= walk_size es.
Proof. rewrite <- (dir_size_walk 0). apply dir_size_nonneg. Qed.

Lemma size_at_nonneg (q : list string) (n : node) : 0 <= size_at q n.
Proof. unfold size_at. destruct (find q n); [apply dir_size_nonneg|lia]. Qed.

Lemma size_at_file (q : list string) (m : Z) (c : string) : size_at q (File m c) = 0.
Proof. destruct q; reflexivity. Qed.

Lemma size_at_empty_dir (q : list string) (m : Z) : size_at q (Dir m []) = 0.
Proof. destruct q; reflexivity. Qed.

Lemma walk_size_put (x : string) (r : node) (k : Z) (es : list (string * node)) :
  0 <= k ->
  match get_entry x es with
  | Some Dangling => False
  | Some n0 => weight r <= weight n0 + k
  | None => weight r <= k
  end ->
  walk_size (put_entry x r es) <= walk_size es + k.
Proof.
  intros Hk. induction es as [|[k0 n0] es IH]; cbn [get_entry put_entry].
  - intros H. cbn [walk_size]. pose proof (weight_nonneg r).
    destruct r; cbn [weight] in *; lia.
  - destruct (String.eqb_spec k0 x) as [->|Hne].
    + intros H. pose proof (walk_size_nonneg es). pose proof (weight_nonneg n0).
      destruct n0; [| |contradiction]; destruct r; cbn [walk_size weight] in *; lia.
    + intros H. specialize (IH H). destruct n0; cbn [walk_size]; lia.
Qed.

Section Growth.

Context (now : Z) (act : option node -> leaf_result) (k : Z).
Hypothesis k_nonneg : 0 <= k.
Hypothesis act_adds : adds_at_most k act.

Lemma dir_size_alter (p : list string) :
  forall n n', alter_at now true act p n = Some n' -> dir_size n' <= dir_size n + k.
Proof.
  induction p as [|x p IH]; intros n n' Ha; [discriminate|].
  destruct n as [| m es |]; try discriminate.
  destruct p as [|x2 p].
  - rewrite alter_at_last in Ha. pose proof (act_adds (get_entry x es)) as Hact.
    destruct (act (get_entry x es)) as [r| |]; [|contradiction|discriminate].
    injection Ha as <-. rewrite !dir_size_walk. apply walk_size_put; [assumption|].
    destruct (get_entry x es) as [[| |]|]; tauto.
  - rewrite alter_at_inner in Ha.
    destruct (get_entry x es) as [child|] eqn:Hg.
    + destruct (alter_at now true act (x2 :: p) child) as [child'|] eqn:Hc;
        [|discriminate].
      injection Ha as <-. rewrite !dir_size_walk.
      apply walk_size_put; [assumption|]. rewrite Hg.
      pose proof (IH _ _ Hc) as Hle.
      destruct (alter_at_dir _ _ _ _ _ _ Hc) as (? & ? & ? & ? & ? & ? & _ & -> & ->).
      exact Hle.
    + destruct (alter_at now true act (x2 :: p) (Dir now [])) as [child'|] eqn:Hc;
        [|discriminate].
      injection Ha as <-. rewrite !dir_size_walk.
      apply walk_size_put; [assumption|]. rewrite Hg.
      pose proof (IH _ _ Hc) as Hle.
      destruct (alter_at_dir _ _ _ _ _ _ Hc) as (? & ? & ? & ? & ? & ? & _ & _ & ->).
      exact Hle.
Qed.

(** No directory total grows by more than [k]. *)
Lemma size_at_alter (q : list string) :
  forall p n n', alter_at now true act p n = Some n' ->
  size_at q n' <= size_at q n + k.
Proof.
  induction q as [|y q IH]; intros p n n' Ha.
  - apply (dir_size_alter p _ _ Ha).
  - destruct p as [|x p]; [discriminate|].
    destruct n as [| m es |]; try discriminate.
    unfold size_at. cbn [find].
    destruct (String.eqb_spec x y) as [<-|Hne].
    + destruct p as [|x2 p].
      * rewrite alter_at_last in Ha. pose proof (act_adds (get_entry x es)) as Hact.
        destruct (act (get_entry x es)) as [r| |]; [|contradiction|discriminate].
        injection Ha as <-. cbn [find]. rewrite get_put_same.
        destruct (get_entry x es) as [n0|].
        -- destruct n0; [| |contradiction]; destruct Hact as [_ Hq]; apply (Hq q).
        -- destruct Hact as [_ Hq]. apply (Hq q).
      * rewrite alter_at_inner in Ha.
        destruct (get_entry x es) as [child|].
        -- destruct (alter_at now true act (x2 :: p) child) as [child'|] eqn:Hc;
             [|discriminate].
           injection Ha as <-. cbn [find]. rewrite get_put_same.
           apply (IH _ _ _ Hc).
        -- destruct (alter_at now true act (x2 :: p) (Dir now [])) as [child'|] eqn:Hc;
             [|discriminate].
           injection Ha as <-. cbn [find]. rewrite get_put_same.
           pose proof (IH _ _ _ Hc) as Hle. rewrite size_at_empty_dir in Hle. exact Hle.
    + assert (Hsame : find (y :: q) n' = find (y :: q) (Dir m es)).
      { apply (alter_at_frame now true act (x :: p)); [|exact Ha].
        cbn [diverge]. destruct (String.eqb_spec x y); [congruence|reflexivity]. }
      cbn [find] in Hsame.
      destruct (alter_at_dir _ _ _ _ _ _ Ha) as (? & ? & ? & ? & m' & es' & _ & _ & ->).
      cbn [find]. cbn [find] in Hsame. rewrite Hsame.
      destruct (get_entry y es) as [c|]; [|lia].
      destruct (find q c); lia.
Qed.

End Growth.

Lemma write_adds (now : Z) (data : string) :
  adds_at_most (byte_length data)
    (fun found => match found with
                  | None | Some (File _ _) => Leave (File now data)
                  | Some _ => Fail
                  end).
Proof.
  intros [[m c|m es|]|]; cbn [weight]; auto.
  - split; [pose proof (byte_length_nonneg c); lia|].
    intros q. rewrite !size_at_file. pose proof (byte_length_nonneg data). lia.
  - split; [lia|]. intros q. rewrite size_at_file. apply byte_length_nonneg.
Qed.

Lemma mkdir_adds (now : Z) :
  adds_at_most 0
    (fun found => match found with
                  | None => Leave (Dir now [])
                  | Some (Dir m es) => Leave (Dir m es)
                  | Some _ => Fail
                  end).
Proof.
  intros [[m c|m es|]|]; cbn [weight]; auto.
  - split; [lia|]. intros q. lia.
  - split; [cbn; lia|]. intros q. rewrite size_at_empty_dir. lia.
Qed.

Lemma size_at_write (now : Z) (p : list string) (data : string) (fs fs' : node)
    (q : list string) :
  fs_write now p data fs = Some fs' ->
  size_at q fs' <= size_at q fs + byte_length data.
Proof.
  intros H. eapply size_at_alter; [apply byte_length_nonneg|apply write_adds|exact H].
Qed.

Lemma size_at_mkdir (now : Z) (p : list string) (fs fs' : node) (q : list string) :
  fs_mkdir_p now p fs = Some fs' -> size_at q fs' <= size_at q fs.
Proof.
  unfold fs_mkdir_p. destruct p as [|x p]; [intros [= <-]; lia|].
  intros H. pose proof (size_at_alter now _ 0 (Z.le_refl 0) (mkdir_adds now) q _ _ _ H).
  lia.
Qed.

(** ** Locations that diverge *)

Lemma diverge_sym (p q : list string) : diverge p q = diverge q p.
Proof.
  revert q; induction p as [|x p IH]; intros [|y q]; cbn [diverge]; try reflexivity.
  rewrite (String.eqb_sym y x). destruct (String.eqb x y); [apply IH|reflexivity].
Qed.

Lemma diverge_app_l (p q r : list string) :
  diverge p q = true -> diverge (p ++ r) q = true.
Proof.
  revert q; induction p as [|x p IH]; intros [|y q]; cbn [diverge app]; try discriminate.
  destruct (String.eqb x y); [apply IH|reflexivity].
Qed.

Lemma diverge_common (c p q : list string) : diverge (c ++ p) (c ++ q) = diverge p q.
Proof.
  induction c as [|x c IH]; [reflexivity|].
  cbn [app diverge]. rewrite String.eqb_refl. exact IH.
Qed.

(** ** Tasks *)

Lemma for_of_cons {A} (x : A) (rest : list A) (body : A -> Task unit) (fs : node) :
  for_of (x :: rest) body fs =
  match body x fs with
  | Returned _ fs' => for_of rest body fs'
  | Thrown fs' => Thrown fs'
  end.
Proof. reflexivity. Qed.

Lemma writing_state (op : node -> option node) (fs : node) :
  state_of (writing op fs) = match op fs with Some fs' => fs' | None => fs end.
Proof. unfold writing. destruct (op fs); reflexivity. Qed.

(** ** Saving the files of an upload *)

Lemma upload_size_cons (v : FormValue) (files : list FormValue) :
  upload_size (v :: files) =
  match v with FormFile _ c => byte_length c | FormString _ => 0 end + upload_size files.
Proof.
  unfold upload_size. cbn [fold_left].
  set (f := fun total v0 => match v0 with
                            | FormFile _ c => total + byte_length c
                            | FormString _ => total
                            end).
  assert (Hshift : forall l a, fold_left f l a = a + fold_left f l 0).
  { induction l as [|w l IH]; intros a; cbn [fold_left]; [lia|].
    rewrite (IH (f a w)), (IH (f 0 w)). unfold f. destruct w; lia. }
  rewrite Hshift. destruct v; unfold f; cbn beta iota; lia.
Qed.

Lemma upload_size_nonneg (files : list FormValue) : 0 <= upload_size files.
Proof.
  induction files as [|v files IH]; [cbn; lia|].
  rewrite upload_size_cons. destruct v; [lia|]. pose proof (byte_length_nonneg content). lia.
Qed.

Section Saving.

Context (host : Host) (now : Z) (shareDir : path).

Lemma save_file_size (v : FormValue) (fs : node) (q : list string) :
  size_at q (state_of (save_file host now shareDir v fs)) <=
  size_at q fs + match v with FormFile _ c => byte_length c | FormString _ => 0 end.
Proof.
  destruct v as [s|name c]; cbn [save_file]; [cbn; lia|].
  rewrite writing_state.
  destruct (fs_write now _ c fs) as [fs'|] eqn:Hw.
  - apply (size_at_write _ _ _ _ _ q Hw).
  - pose proof (byte_length_nonneg c). lia.
Qed.

Lemma save_files_size (files : list FormValue) :
  forall fs q,
  size_at q (state_of (for_of files (save_file host now shareDir) fs)) <=
  size_at q fs + upload_size files.
Proof.
  induction files as [|v files IH]; intros fs q.
  - cbn. lia.
  - rewrite for_of_cons, upload_size_cons.
    pose proof (save_file_size v fs q) as Hv.
    destruct (save_file host now shareDir v fs) as [[] fs'|fs']; cbn [state_of] in *.
    + pose proof (IH fs' q). lia.
    + pose proof (upload_size_nonneg files). lia.
Qed.

(** A file whose name has no [".."] segment is saved below the share
    directory: what diverges from that directory is left as it is. *)
Lemma save_file_frame (v : FormValue) (fs : node) (q : list string) :
  match file_name v with Some name => has_dotdot name = false | None => True end ->
  diverge (locate host shareDir) q = true ->
  find q (state_of (save_file host now shareDir v fs)) = find q fs.
Proof.
  destruct v as [s|name c]; cbn [save_file file_name]; [reflexivity|].
  intros Hname Hd. rewrite writing_state.
  destruct (fs_write now _ c fs) as [fs'|] eqn:Hw; [|reflexivity].
  unfold fs_write in Hw. eapply alter_at_frame; [|exact Hw].
  rewrite (locate_join_name host shareDir name Hname).
  apply diverge_app_l, Hd.
Qed.

Lemma save_files_frame (files : list FormValue) :
  forall fs q, names_stay_below files ->
  diverge (locate host shareDir) q = true ->
  find q (state_of (for_of files (save_file host now shareDir) fs)) = find q fs.
Proof.
  induction files as [|v files IH]; intros fs q Hnames Hd; [reflexivity|].
  apply Forall_cons in Hnames as [Hv Hrest].
  rewrite for_of_cons.
  pose proof (save_file_frame v fs q Hv Hd) as Hstep.
  destruct (save_file host now shareDir v fs) as [[] fs'|fs']; cbn [state_of] in *.
  - rewrite (IH fs' q Hrest Hd). exact Hstep.
  - exact Hstep.
Qed.

End Saving.

(** ** Effects of tasks *)

Section Respects.

Context (R : node -> node -> Prop).
Hypothesis R_refl : forall fs, R fs fs.
Hypothesis R_trans : forall a b c, R a b -> R b c -> R a c.

Lemma respects_ret {A} (a : A) : respects R (ret a).
Proof. intros fs. apply R_refl. Qed.

Lemma respects_getting {A} (f : node -> A) : respects R (getting f).
Proof. intros fs. apply R_refl. Qed.

Lemma respects_reading {A} (op : node -> option A) : respects R (reading op).
Proof. intros fs. unfold reading. destruct (op fs); apply R_refl. Qed.

Lemma respects_writing (op : node -> option node) :
  (forall fs fs', op fs = Some fs' -> R fs fs') -> respects R (writing op).
Proof.
  intros H fs. rewrite writing_state. destruct (op fs) eqn:E; [apply H, E|apply R_refl].
Qed.

Lemma respects_bind {A B} (t : Task A) (k : A -> Task B) :
  respects R t -> (forall a, respects R (k a)) -> respects R (bind t k).
Proof.
  intros Ht Hk fs. unfold bind. specialize (Ht fs).
  destruct (t fs) as [a fs'|fs']; cbn [state_of] in *; [|exact Ht].
  eapply R_trans; [exact Ht|apply Hk].
Qed.

Lemma respects_try_catch {A} (t handler : Task A) :
  respects R t -> respects R handler -> respects R (try_catch t handler).
Proof.
  intros Ht Hh fs. unfold try_catch. specialize (Ht fs).
  destruct (t fs) as [a fs'|fs']; cbn [state_of] in *; [exact Ht|].
  eapply R_trans; [exact Ht|apply Hh].
Qed.

Lemma respects_for_of {A} (xs : list A) (body : A -> Task unit) :
  (forall x, In x xs -> respects R (body x)) -> respects R (for_of xs body).
Proof.
  induction xs as [|x xs IH]; intros Hbody; [apply respects_ret|].
  cbn [for_of]. apply respects_bind; [apply Hbody; left; reflexivity|].
  intros _. apply IH. intros y Hy. apply Hbody. right. exact Hy.
Qed.

End Respects.

Section Grows.

Context (q : list string).

Lemma grows_ret {A} (a : A) : grows_at_most q 0 (ret a).
Proof. intros fs. cbn. lia. Qed.

Lemma grows_bind {A B} (k1 k2 : Z) (t : Task A) (k : A -> Task B) :
  0 <= k2 -> grows_at_most q k1 t -> (forall a, grows_at_most q k2 (k a)) ->
  grows_at_most q (k1 + k2) (bind t k).
Proof.
  intros Hk2 Ht Hk fs. unfold bind. specialize (Ht fs).
  destruct (t fs) as [a fs'|fs']; cbn [state_of] in *; [|lia].
  specialize (Hk a fs'). lia.
Qed.

Lemma grows_writing (k : Z) (op : node -> option node) :
  0 <= k -> (forall fs fs', op fs = Some fs' -> size_at q fs' <= size_at q fs + k) ->
  grows_at_most q k (writing op).
Proof.
  intros Hk H fs. rewrite writing_state. destruct (op fs) eqn:E; [apply H, E|lia].
Qed.

End Grows.

(** ** Uploads *)

Lemma getDirSize_size_at (host : Host) (p : path) (fs : node) :
  getDirSize host p fs = size_at (locate host p) fs.
Proof. reflexivity. Qed.

Section Uploads.

Context (host : Host) (cfg : Config).

Lemma locate_bucket_dir (bucket : string) :
  plain_segment bucket = true ->
  locate host (bucket_dir cfg bucket) =
  locate host (parse_path (data_dir cfg)) ++ ["uploads"; bucket].
Proof.
  intros Hb. unfold bucket_dir.
  change ["uploads"; bucket] with (["uploads"] ++ [bucket]) at 1.
  rewrite <- join_join, (locate_join_plain host _ bucket Hb).
  rewrite (locate_join_plain host _ "uploads" eq_refl), <- app_assoc. reflexivity.
Qed.

Lemma locate_share_dir (bucket shareId : string) :
  plain_segment bucket = true -> plain_segment shareId = true ->
  locate host (join (bucket_dir cfg bucket) [shareId]) =
  locate host (parse_path (data_dir cfg)) ++ ["uploads"; bucket; shareId].
Proof.
  intros Hb Hs. rewrite (locate_join_plain host _ shareId Hs), (locate_bucket_dir _ Hb).
  rewrite <- app_assoc. reflexivity.
Qed.

(** The three ways a request is turned away, and what an accepted
    request runs. *)
Lemma handleUpload_unauthorized (req : UploadRequest) (shareId : string) (now : Z) (fs : node) :
  authorized cfg (up_password req) = false ->
  handleUpload host cfg req shareId now fs = Returned (text_response 401 "Unauthorized") fs.
Proof. intros H. unfold handleUpload. rewrite H. reflexivity. Qed.

Lemma handleUpload_no_files (req : UploadRequest) (shareId : string) (now : Z) (fs : node) :
  authorized cfg (up_password req) = true -> up_files req = [] ->
  handleUpload host cfg req shareId now fs = Returned (text_response 400 "No files provided") fs.
Proof. intros H Hf. unfold handleUpload. rewrite H, Hf. reflexivity. Qed.

Lemma handleUpload_over_quota (req : UploadRequest) (shareId : string) (now : Z) (fs : node) :
  let used := getDirSize host
                (bucket_dir cfg (hashPassword host (default EmptyString (up_password req)))) fs in
  authorized cfg (up_password req) = true -> up_files req <> [] ->
  used + upload_size (up_files req) > max_bytes cfg ->
  handleUpload host cfg req shareId now fs =
  Returned (text_response 413
              ("Quota exceeded. " +:+ toString10 ((max_bytes cfg - used) / (1024 * 1024))
               +:+ "MB available.")) fs.
Proof.
  intros used H Hf Hover. unfold handleUpload. rewrite H. cbn [negb].
  destruct (up_files req) as [|v files] eqn:Hfiles; [congruence|].
  cbn [length Nat.eqb]. unfold bind, getting. fold used. unfold max_bytes in *.
  destruct (Z.gtb_spec (used + upload_size (v :: files))
              (max_bucket_size_mb cfg * 1024 * 1024)); [reflexivity|lia].
Qed.

(** The part of [handleUpload] that runs once the request is accepted. *)
Lemma handleUpload_accepted (req : UploadRequest) (shareId : string) (now : Z) (fs : node) :
  let bucket := hashPassword host (default EmptyString (up_password req)) in
  let shareDir := share_dir_of host cfg req shareId in
  authorized cfg (up_password req) = true -> up_files req <> [] ->
  getDirSize host (bucket_dir cfg bucket) fs + upload_size (up_files req) <= max_bytes cfg ->
  handleUpload host cfg req shareId now fs =
  (let* _ := writing (fs_mkdir_p now (locate host shareDir)) in
   let* _ := for_of (up_files req) (save_file host now shareDir) in
   let* _ := if strictly_equals (up_burn req) "true"
             then writing (fs_write now (locate host (join shareDir [".burn"])) EmptyString)
             else ret tt in
   ret {| status := 200; headers := [];
          body := JsonUrl ("/d/" +:+ bucket +:+ "/" +:+ shareId) |}) fs.
Proof.
  intros bucket shareDir H Hf Hfit. unfold handleUpload. rewrite H. cbn [negb].
  destruct (up_files req) as [|v files] eqn:Hfiles; [congruence|].
  cbn [length Nat.eqb]. unfold bind at 1. unfold getting. fold bucket. unfold max_bytes in *.
  destruct (Z.gtb_spec (getDirSize host (bucket_dir cfg bucket) fs + upload_size (v :: files))
              (max_bucket_size_mb cfg * 1024 * 1024)); [lia|reflexivity].
Qed.

(** Whatever the request, the tree changes only when it is accepted. *)
Lemma handleUpload_cases (req : UploadRequest) (shareId : string) (now : Z) (fs : node) :
  let bucket := hashPassword host (default EmptyString (up_password req)) in
  state_of (handleUpload host cfg req shareId now fs) = fs \/
  (authorized cfg (up_password req) = true /\ up_files req <> [] /\
   getDirSize host (bucket_dir cfg bucket) fs + upload_size (up_files req) <= max_bytes cfg).
Proof.
  intros bucket.
  destruct (authorized cfg (up_password req)) eqn:Ha;
    [|left; rewrite handleUpload_unauthorized; auto].
  destruct (up_files req) as [|v files] eqn:Hfiles;
    [left; rewrite handleUpload_no_files; auto|].
  destruct (Z_le_gt_dec (getDirSize host (bucket_dir cfg bucket) fs + upload_size (v :: files))
              (max_bytes cfg)) as [Hfit|Hover].
  - right. repeat split; [discriminate|exact Hfit].
  - left. rewrite handleUpload_over_quota; rewrite ?Hfiles; auto; discriminate.
Qed.

(** An upload whose file names have no [".."] segment leaves everything
    that diverges from its share directory as it was. *)
Lemma handleUpload_frame (req : UploadRequest) (shareId : string) (now : Z) (fs : node)
    (q : list string) :
  names_stay_below (up_files req) ->
  diverge (locate host (share_dir_of host cfg req shareId)) q = true ->
  find q (state_of (handleUpload host cfg req shareId now fs)) = find q fs.
Proof.
  intros Hnames Hd.
  destruct (handleUpload_cases req shareId now fs) as [->|(Ha & Hf & Hfit)]; [reflexivity|].
  rewrite (handleUpload_accepted req shareId now fs Ha Hf Hfit).
  set (R := fun a b : node => find q b = find q a).
  assert (Hrefl : forall a, R a a) by reflexivity.
  assert (Htrans : forall a b c, R a b -> R b c -> R a c)
    by (unfold R; intros a b c H1 H2; congruence).
  clear Hfit. revert fs. apply (respects_bind R Htrans).
  - apply (respects_writing R Hrefl). intros a b Hm. unfold R, fs_mkdir_p in *.
    destruct (locate host (share_dir_of host cfg req shareId)) eqn:Hl;
      [discriminate Hd|]. eapply alter_at_frame; eauto.
  - intros _. apply (respects_bind R Htrans).
    + intros a. apply save_files_frame; assumption.
    + intros _. apply (respects_bind R Htrans); [|intros; apply (respects_ret R Hrefl)].
      destruct (strictly_equals (up_burn req) "true"); [|apply (respects_ret R Hrefl)].
      apply (respects_writing R Hrefl). intros a b Hw. unfold R, fs_write in *.
      eapply alter_at_frame; [|exact Hw].
      rewrite (locate_join_plain host _ ".burn" eq_refl). apply diverge_app_l, Hd.
Qed.

(** No directory total grows by more than the size of the upload. *)
Lemma handleUpload_grows (req : UploadRequest) (shareId : string) (now : Z) (q : list string) :
  grows_at_most q (upload_size (up_files req)) (handleUpload host cfg req shareId now).
Proof.
  intros fs. pose proof (upload_size_nonneg (up_files req)) as Hnn.
  destruct (handleUpload_cases req shareId now fs) as [->|(Ha & Hf & Hfit)]; [lia|].
  rewrite (handleUpload_accepted req shareId now fs Ha Hf Hfit).
  replace (upload_size (up_files req)) with (0 + (upload_size (up_files req) + (0 + 0))) by lia.
  revert fs Hfit. intros fs _. revert fs.
  apply grows_bind; [lia| |intros _].
  - apply grows_writing; [lia|]. intros a b Hm.
    pose proof (size_at_mkdir _ _ _ _ q Hm). lia.
  - apply grows_bind; [lia| |intros _].
    + intros fs. apply save_files_size.
    + apply grows_bind; [lia| |intros _; apply grows_ret].
      destruct (strictly_equals (up_burn req) "true"); [|apply grows_ret].
      apply grows_writing; [lia|]. intros a b Hw.
      pose proof (size_at_write _ _ _ _ _ q Hw) as Hle.
      change (byte_length EmptyString) with 0 in Hle. lia.
Qed.

(** An upload leaves its own bucket within the quota, or leaves the
    tree as it was. *)
Lemma handleUpload_own_bucket (req : UploadRequest) (shareId : string) (now : Z) (fs : node) :
  let bucket := hashPassword host (default EmptyString (up_password req)) in
  let fs' := state_of (handleUpload host cfg req shareId now fs) in
  fs' = fs \/ getDirSize host (bucket_dir cfg bucket) fs' <= max_bytes cfg.
Proof.
  intros bucket fs'.
  destruct (handleUpload_cases req shareId now fs) as [H|(Ha & Hf & Hfit)]; [left; exact H|].
  right. pose proof (handleUpload_grows req shareId now
                       (locate host (bucket_dir cfg bucket)) fs) as Hg.
  fold bucket in Hfit. rewrite getDirSize_size_at in *. subst fs'. lia.
Qed.

(** Uploads whose share identifier is a plain name and whose file names
    have no [".."] segment keep every bucket within the quota. *)
Lemma handleUpload_within_quota (req : UploadRequest) (shareId : string) (now : Z) (fs : node) :
  plain_segment shareId = true -> names_stay_below (up_files req) ->
  within_quota host cfg fs ->
  within_quota host cfg (state_of (handleUpload host cfg req shareId now fs)).
Proof.
  intros Hs Hnames Hinv b Hb.
  set (bucket := hashPassword host (default EmptyString (up_password req))).
  destruct (String.eqb_spec bucket b) as [<-|Hne].
  - destruct (handleUpload_own_bucket req shareId now fs) as [->|Hle]; [apply Hinv, Hb|exact Hle].
  - rewrite getDirSize_size_at. unfold size_at.
    rewrite handleUpload_frame; [apply (Hinv b Hb)|exact Hnames|].
    unfold share_dir_of. fold bucket.
    rewrite (locate_share_dir bucket shareId (hashPassword_plain host _) Hs).
    rewrite (locate_bucket_dir _ Hb).
    rewrite diverge_common. cbn [diverge]. rewrite String.eqb_refl.
    destruct (String.eqb_spec bucket b); [congruence|reflexivity].
Qed.

End Uploads.

Lemma handleUpload_ok_accepted (host : Host) (cfg : Config) (req : UploadRequest)
    (shareId : string) (now : Z) (fs fs' : node) (resp : Response) :
  handleUpload host cfg req shareId now fs = Returned resp fs' -> status resp = 200 ->
  authorized cfg (up_password req) = true /\ up_files req <> [] /\
  getDirSize host (bucket_dir cfg (hashPassword host (default EmptyString (up_password req)))) fs
    + upload_size (up_files req) <= max_bytes cfg.
Proof.
  intros Hrun Hok.
  destruct (authorized cfg (up_password req)) eqn:Ha.
  2:{ rewrite handleUpload_unauthorized in Hrun by assumption.
      injection Hrun as <- _. discriminate Hok. }
  destruct (up_files req) as [|v files] eqn:Hfiles.
  { rewrite handleUpload_no_files in Hrun by assumption.
    injection Hrun as <- _. discriminate Hok. }
  rewrite <- Hfiles in *.
  split; [reflexivity|]. split; [rewrite Hfiles; discriminate|].
  match goal with |- ?a <= ?b => destruct (Z_le_gt_dec a b) as [Hfit|Hover] end; [exact Hfit|].
  rewrite handleUpload_over_quota in Hrun; [|assumption|rewrite Hfiles; discriminate|assumption].
  injection Hrun as <- _. discriminate Hok.
Qed.

Lemma within_quota_empty_tree : within_quota demo_host demo_cfg empty_tree.
Proof.
  intros b Hb. rewrite getDirSize_size_at, (locate_bucket_dir _ _ _ Hb).
  cbv. discriminate.
Qed.

(** ** The quota query *)

Lemma weight_byte_sum (n : node) : examinable n = true -> weight n = byte_sum n.
Proof.
  induction n as [m c | m es IH |] using node_ind; [reflexivity| |discriminate].
  cbn [weight]. rewrite dir_size_walk.
  induction es as [|[k c] es IHes]; [reflexivity|].
  apply Forall_cons in IH as [Hc Hes]. cbn [snd] in Hc.
  change (examinable (Dir m ((k, c) :: es)))
    with (examinable c && examinable (Dir m es)).
  change (byte_sum (Dir m ((k, c) :: es))) with (byte_sum c + byte_sum (Dir m es)).
  intros H. apply andb_true_iff in H as [H1 H2].
  rewrite <- (IHes Hes H2), <- (Hc H1).
  destruct c; [reflexivity|reflexivity|discriminate H1].
Qed.

Lemma size_at_directory_bytes (p : list string) (fs : node) :
  (forall n, find p fs = Some n -> examinable n = true) ->
  size_at p fs = directory_bytes p fs.
Proof.
  intros H. unfold size_at, directory_bytes.
  destruct (find p fs) as [[m c|m es|]|] eqn:Hf; try reflexivity.
  apply (weight_byte_sum (Dir m es)). apply H. reflexivity.
Qed.

Lemma handleQuota_admitted (host : Host) (cfg : Config) (req : QuotaRequest) (now : Z)
    (rl : gmap string RateEntry) (fs : node) :
  (isRateLimited (getClientIp req) now rl).1 = false ->
  authorized cfg (q_password req) = true ->
  let used := getDirSize host
                (bucket_dir cfg (hashPassword host (default EmptyString (q_password req)))) fs in
  (handleQuota host cfg req now rl fs).1 =
  {| status := 200; headers := [("Access-Control-Allow-Origin", "*")];
     body := JsonQuota used (max_bytes cfg) (max_bytes cfg - used) |}.
Proof.
  intros Hrl Ha used. unfold handleQuota.
  destruct (isRateLimited (getClientIp req) now rl) as [limited rl'].
  cbn [fst] in Hrl. subst limited. rewrite Ha. reflexivity.
Qed.

(** ** What stays and what goes *)

Lemma find_app (p q : list string) :
  forall n, find (p ++ q) n = match find p n with Some c => find q c | None => None end.
Proof.
  induction p as [|x p IH]; intros n; [reflexivity|].
  cbn [app find]. destruct n as [| m es |]; try reflexivity.
  destruct (get_entry x es); [apply IH|reflexivity].
Qed.

Lemma find_last (p : list string) (x : string) (n c : node) :
  find (p ++ [x]) n = Some c ->
  exists m es, find p n = Some (Dir m es) /\ get_entry x es = Some c.
Proof.
  rewrite find_app. destruct (find p n) as [[| m es |]|]; try discriminate.
  cbn [find]. destruct (get_entry x es) as [c'|] eqn:Hg; [|discriminate].
  intros [= <-]. eauto.
Qed.

Section Keeps.

Context (now : Z) (create : bool) (act : option node -> leaf_result).
Hypothesis act_no_remove : forall found, act found <> Remove.
Hypothesis act_keeps : forall c r, act (Some c) = Leave r ->
  forall q, is_Some (find q c) -> is_Some (find q r).

(** An action that removes nothing leaves every entry in place. *)
Lemma alter_at_keeps (q : list string) :
  forall p n n', alter_at now create act p n = Some n' ->
  is_Some (find q n) -> is_Some (find q n').
Proof.
  induction q as [|y q IH]; intros p n n' Ha Hq; [eexists; reflexivity|].
  destruct p as [|x p]; [discriminate|].
  destruct n as [| m es |]; try discriminate.
  destruct (String.eqb_spec x y) as [<-|Hne].
  - cbn [find] in Hq. destruct (get_entry x es) as [c|] eqn:Hg; [|destruct Hq; discriminate].
    destruct p as [|x2 p].
    + rewrite alter_at_last, Hg in Ha.
      destruct (act (Some c)) as [r| |] eqn:Hact; [|destruct (act_no_remove _ Hact)|discriminate].
      injection Ha as <-. cbn [find]. rewrite get_put_same. eapply act_keeps; eauto.
    + rewrite alter_at_inner, Hg in Ha.
      destruct (alter_at now create act (x2 :: p) c) as [c'|] eqn:Hc; [|discriminate].
      injection Ha as <-. cbn [find]. rewrite get_put_same. eapply IH; eauto.
  - rewrite (alter_at_frame now create act (x :: p) (y :: q) (Dir m es) n'); [exact Hq| |exact Ha].
    cbn [diverge]. destruct (String.eqb_spec x y); [congruence|reflexivity].
Qed.

End Keeps.

Lemma write_keeps (now : Z) (p : list string) (data : string) (fs fs' : node)
    (q : list string) :
  fs_write now p data fs = Some fs' -> is_Some (find q fs) -> is_Some (find q fs').
Proof.
  apply alter_at_keeps.
  - intros [[| |]|]; discriminate.
  - intros [| |] r; try discriminate. intros [= <-] [|y q'] [v Hv]; [eexists; reflexivity|].
    discriminate Hv.
Qed.

Lemma write_found (now : Z) (p : list string) (data : string) (fs fs' : node) :
  fs_write now p data fs = Some fs' -> find p fs' = Some (File now data).
Proof.
  unfold fs_write.
  apply (alter_at_result now true _ (fun o => o = Some (File now data))).
  - intros [[| |]|] r; try discriminate; intros [= <-]; reflexivity.
  - intros [[| |]|]; discriminate.
Qed.

Section Absent.

Context (now : Z) (act : option node -> leaf_result).
Hypothesis act_no_leave : forall found r, act found <> Leave r.

(** An action that only removes brings nothing into being. *)
Lemma alter_at_absent (q : list string) :
  forall p n n', alter_at now false act p n = Some n' ->
  find q n = None -> find q n' = None.
Proof.
  induction q as [|y q IH]; intros p n n' Ha Hq; [discriminate|].
  destruct p as [|x p]; [discriminate|].
  destruct n as [| m es |]; try discriminate.
  destruct (String.eqb_spec x y) as [<-|Hne].
  - cbn [find] in Hq. destruct p as [|x2 p].
    + rewrite alter_at_last in Ha.
      destruct (act (get_entry x es)) as [r| |] eqn:Hact;
        [destruct (act_no_leave _ _ Hact)| |discriminate].
      injection Ha as <-. cbn [find]. rewrite get_del_same. reflexivity.
    + rewrite alter_at_inner in Ha.
      destruct (get_entry x es) as [c|] eqn:Hg; [|discriminate].
      destruct (alter_at now false act (x2 :: p) c) as [c'|] eqn:Hc; [|discriminate].
      injection Ha as <-. cbn [find]. rewrite get_put_same. eapply IH; eauto.
  - rewrite (alter_at_frame now false act (x :: p) (y :: q) (Dir m es) n'); [exact Hq| |exact Ha].
    cbn [diverge]. destruct (String.eqb_spec x y); [congruence|reflexivity].
Qed.

End Absent.

Lemma rm_recursive_gone (now : Z) (p : list string) (fs fs' : node) :
  fs_rm_recursive now p fs = Some fs' -> find p fs' = None.
Proof.
  unfold fs_rm_recursive.
  apply (alter_at_result now false _ (fun o => o = None)).
  - intros [?|] r; discriminate.
  - reflexivity.
Qed.

Lemma rm_recursive_absent (now : Z) (p q : list string) (fs fs' : node) :
  fs_rm_recursive now p fs = Some fs' -> find q fs = None -> find q fs' = None.
Proof. apply alter_at_absent. intros [?|] r; discriminate. Qed.

(** Whatever is at a location below the root can be removed. *)
Lemma rm_recursive_succeeds (now : Z) (p : list string) :
  forall fs, p <> [] -> is_Some (find p fs) -> is_Some (fs_rm_recursive now p fs).
Proof.
  unfold fs_rm_recursive.
  induction p as [|x p IH]; intros fs Hne Hf; [congruence|].
  destruct fs as [| m es |]; try (destruct Hf; discriminate).
  cbn [find] in Hf. destruct (get_entry x es) as [c|] eqn:Hg; [|destruct Hf; discriminate].
  destruct p as [|x2 p].
  - rewrite alter_at_last, Hg. eexists; reflexivity.
  - rewrite alter_at_inner, Hg.
    destruct (IH c ltac:(discriminate) Hf) as [c' ->]. eexists; reflexivity.
Qed.

(** ** Tasks that returned *)

Lemma bind_returned {A B} (t : Task A) (k : A -> Task B) (fs fs' : node) (b : B) :
  bind t k fs = Returned b fs' ->
  exists a mid, t fs = Returned a mid /\ k a mid = Returned b fs'.
Proof.
  unfold bind. destruct (t fs) as [a mid|mid]; [eauto|discriminate].
Qed.

Lemma writing_returned (op : node -> option node) (fs fs' : node) (u : unit) :
  writing op fs = Returned u fs' -> op fs = Some fs'.
Proof. unfold writing. destruct (op fs); [intros [= _ <-]; reflexivity|discriminate]. Qed.

(** ** Downloads *)

Lemma get_entry_in (es : list (string * node)) (k : string) (n : node) :
  NoDup (map fst es) -> In (k, n) es -> get_entry k es = Some n.
Proof.
  induction es as [|[k0 n0] es IH]; intros Hnd Hin; [destruct Hin|].
  cbn [map fst] in Hnd. apply NoDup_cons in Hnd as [Hfresh Hnd].
  cbn [get_entry]. destruct Hin as [[= -> ->]|Hin].
  - rewrite String.eqb_refl. reflexivity.
  - destruct (String.eqb_spec k0 k) as [->|_]; [|apply IH; assumption].
    exfalso. apply Hfresh. apply list_elem_of_In.
    change k with (fst (k, n)). apply in_map, Hin.
Qed.

Lemma filter_map_fst (f : string -> bool) (es : list (string * node)) :
  List.filter f (map fst es) = map fst (List.filter (fun e => f e.1) es).
Proof.
  induction es as [|[k n] es IH]; [reflexivity|].
  cbn [map List.filter fst]. destruct (f k); cbn [map fst]; rewrite IH; reflexivity.
Qed.

Section Downloads.

Context (host : Host) (cfg : Config).

Lemma handleDownload_link (bucket shareId : string) (now : Z) (fs : node) :
  plain_segment bucket = true -> plain_segment shareId = true ->
  handleDownload host cfg ("/d/" +:+ bucket +:+ "/" +:+ shareId) now fs =
  download_share host (join (bucket_dir cfg bucket) [shareId]) shareId now fs.
Proof.
  intros Hb Hs. unfold handleDownload. rewrite (split_link bucket shareId Hb Hs).
  unfold bucket_dir. rewrite join_join. reflexivity.
Qed.

Lemma download_share_missing (shareDir : path) (shareId : string) (now : Z) (fs : node) :
  find (locate host shareDir) fs = None ->
  download_share host shareDir shareId now fs = (not_found, []).
Proof. intros H. unfold download_share, fs_readdir. rewrite H. reflexivity. Qed.

(** What is read for a listed name is the entry of that name. *)
Lemma read_listed (shareDir : path) (fs : node) (m : Z) (es : list (string * node))
    (name : string) :
  find (locate host shareDir) fs = Some (Dir m es) ->
  plain_segment name = true ->
  fs_read (locate host (join shareDir [name])) fs =
  match get_entry name es with
  | Some (File _ c) => Some c
  | _ => None
  end.
Proof.
  intros Hdir Hname. unfold fs_read.
  rewrite (locate_join_plain host shareDir name Hname), find_app, Hdir.
  cbn [find]. destruct (get_entry name es); reflexivity.
Qed.

(** A share with a listed entry other than the marker is served, and
    the burn timer is set exactly when the marker is a file. *)
Lemma download_share_served (shareDir : path) (shareId : string) (now : Z) (fs : node)
    (m : Z) (es : list (string * node)) (name : string) :
  find (locate host shareDir) fs = Some (Dir m es) ->
  In name (map fst es) -> name <> ".burn" ->
  let answer := download_share host shareDir shareId now fs in
  status answer.1 = 200 /\
  answer.2 = if fs_exists (locate host (join shareDir [".burn"])) fs
             then [{| due := now + 1000; target := shareDir |}] else [].
Proof.
  intros Hdir Hin Hne. unfold download_share, fs_readdir. rewrite Hdir.
  set (files := List.filter (fun f => negb (String.eqb f ".burn")) (map fst es)).
  assert (Hfiles : In name files).
  { apply filter_In. split; [exact Hin|].
    destruct (String.eqb_spec name ".burn"); [congruence|reflexivity]. }
  destruct files as [|f1 files']; [destruct Hfiles|].
  cbn [length Nat.eqb fst snd]. split; [|reflexivity].
  destruct files' as [|f2 files'']; [|reflexivity].
  destruct (truthy f1); reflexivity.
Qed.

End Downloads.

(** ** Burn timers *)

Section Timers.

Context (host : Host).

Lemma fire_absent (now : Z) (t : Timer) (fs : node) (q : list string) :
  find q fs = None -> find q (fire host now t fs) = None.
Proof.
  intros Hq. unfold fire.
  destruct (fs_rm_recursive now (locate host (target t)) fs) eqn:Hrm; [|exact Hq].
  eapply rm_recursive_absent; eauto.
Qed.

Lemma fire_gone (now : Z) (t : Timer) (fs : node) :
  locate host (target t) <> [] ->
  find (locate host (target t)) (fire host now t fs) = None.
Proof.
  intros Hne. unfold fire.
  destruct (fs_rm_recursive now (locate host (target t)) fs) eqn:Hrm.
  - eapply rm_recursive_gone; eauto.
  - destruct (find (locate host (target t)) fs) eqn:Hf; [|reflexivity].
    destruct (rm_recursive_succeeds now _ fs Hne) as [fs' Hfs']; [rewrite Hf; eauto|].
    congruence.
Qed.

Lemma fire_all_absent (now : Z) (ts : list Timer) :
  forall fs q, find q fs = None ->
  find q (fold_left (fun fs t => fire host now t fs) ts fs) = None.
Proof.
  induction ts as [|t ts IH]; intros fs q Hq; [exact Hq|].
  cbn [fold_left]. apply IH, fire_absent, Hq.
Qed.

Lemma fire_all_gone (now : Z) (ts : list Timer) (t : Timer) :
  forall fs, In t ts -> locate host (target t) <> [] ->
  find (locate host (target t)) (fold_left (fun fs t => fire host now t fs) ts fs) = None.
Proof.
  induction ts as [|t0 ts IH]; intros fs Hin Hne; [destruct Hin|].
  cbn [fold_left]. destruct Hin as [->|Hin].
  - apply fire_all_absent, fire_gone, Hne.
  - apply IH; assumption.
Qed.

(** Once a timer is due, the event loop has removed its target. *)
Lemma run_timers_gone (now : Z) (timers : list Timer) (t : Timer) (fs : node) :
  In t timers -> due t <= now -> locate host (target t) <> [] ->
  find (locate host (target t)) (run_timers host now timers fs).2 = None.
Proof.
  intros Hin Hdue Hne. unfold run_timers. cbn [snd].
  apply fire_all_gone; [|exact Hne].
  apply filter_In. split; [exact Hin|]. apply Z.leb_le, Hdue.
Qed.

End Timers.

(** ** Shares as uploads leave them *)

Section SavedShares.

Context (host : Host) (now : Z) (shareDir : path).

Lemma save_files_keep (files : list FormValue) (fs : node) (q : list string) :
  is_Some (find q fs) ->
  is_Some (find q (state_of (for_of files (save_file host now shareDir) fs))).
Proof.
  revert fs.
  apply (respects_for_of (fun a b => is_Some (find q a) -> is_Some (find q b)));
    [auto|auto|].
  intros v _. destruct v as [s|name c]; cbn [save_file]; [intros fs; auto|].
  apply respects_writing; [auto|]. intros a b Hw. apply (write_keeps _ _ _ _ _ q Hw).
Qed.

(** A file with a plain name is listed in the share once the files
    have been saved. *)
Lemma saved_listed (files : list FormValue) :
  forall fs fs' u name c,
  for_of files (save_file host now shareDir) fs = Returned u fs' ->
  In (FormFile name c) files -> plain_segment name = true ->
  is_Some (find (locate host shareDir ++ [name]) fs').
Proof.
  induction files as [|v files IH]; intros fs fs' u name c Hrun Hin Hname; [destruct Hin|].
  rewrite for_of_cons in Hrun.
  destruct (save_file host now shareDir v fs) as [[] mid|mid] eqn:Hv; [|discriminate].
  destruct Hin as [->|Hin]; [|eapply IH; eauto].
  cbn [save_file] in Hv. apply writing_returned in Hv. apply write_found in Hv.
  rewrite (locate_join_plain host shareDir name Hname) in Hv.
  pose proof (save_files_keep files mid (locate host shareDir ++ [name])) as Hkeep.
  rewrite Hrun in Hkeep. apply Hkeep. rewrite Hv. eexists; reflexivity.
Qed.

End SavedShares.

(** ** The sweep *)

Section Sweep.

Context (host : Host) (now ttlMs : Z) (bucketPath : path).

#[local] Abbreviation bp := (locate host bucketPath).

Lemma sweep_share_spec (s : string) (fs : node) :
  plain_segment s = true ->
  exists fs',
    sweep_share host now ttlMs bucketPath s fs = Returned tt fs' /\
    find (bp ++ [s]) fs' = swept now ttlMs fs (bp ++ [s]) /\
    forall q, diverge (bp ++ [s]) q = true -> find q fs' = find q fs.
Proof.
  intros Hs. unfold sweep_share, try_catch, bind, reading, swept.
  rewrite (locate_join_plain host bucketPath s Hs).
  destruct (fs_stat (bp ++ [s]) fs) as [st|] eqn:Hst; [|exists fs; auto].
  destruct (now - st_mtimeMs st >? ttlMs); [|exists fs; auto].
  assert (Hthere : is_Some (find (bp ++ [s]) fs)).
  { unfold fs_stat in Hst. destruct (find (bp ++ [s]) fs); [eauto|discriminate]. }
  destruct (rm_recursive_succeeds now (bp ++ [s]) fs) as [fs' Hrm];
    [intros H; apply app_eq_nil in H as [_ H]; discriminate H|exact Hthere|].
  exists fs'. unfold writing. rewrite Hrm. cbn [ret]. split; [reflexivity|]. split.
  - apply (rm_recursive_gone _ _ _ _ Hrm).
  - intros q Hd. unfold fs_rm_recursive in Hrm. eapply alter_at_frame; eauto.
Qed.

Lemma swept_same (fs fs' : node) (q : list string) :
  find q fs' = find q fs -> swept now ttlMs fs' q = swept now ttlMs fs q.
Proof. intros H. unfold swept, fs_stat. rewrite H. reflexivity. Qed.

(** The loop over the shares of a bucket runs to its end whatever the
    shares are, and treats each share on its own. *)
Lemma sweep_shares_spec (shares : list string) :
  forall fs, NoDup shares -> Forall (fun s => plain_segment s = true) shares ->
  exists fs',
    for_of shares (sweep_share host now ttlMs bucketPath) fs = Returned tt fs' /\
    (forall s, In s shares -> find (bp ++ [s]) fs' = swept now ttlMs fs (bp ++ [s])) /\
    (forall q, (forall s, In s shares -> diverge (bp ++ [s]) q = true) ->
               find q fs' = find q fs).
Proof.
  induction shares as [|s shares IH]; intros fs Hnd Hplain.
  - exists fs. split; [reflexivity|]. split; [intros s []|reflexivity].
  - apply NoDup_cons in Hnd as [Hfresh Hnd]. apply Forall_cons in Hplain as [Hs Hplain].
    destruct (sweep_share_spec s fs Hs) as (fs1 & Hstep & Hat & Hframe1).
    destruct (IH fs1 Hnd Hplain) as (fs' & Hrest & Hall & Hframe).
    exists fs'. rewrite for_of_cons, Hstep. split; [exact Hrest|].
    assert (Hother : forall s', In s' shares -> diverge (bp ++ [s']) (bp ++ [s]) = true).
    { intros s' Hin. rewrite diverge_common. cbn [diverge].
      destruct (String.eqb_spec s' s) as [->|]; [|reflexivity].
      exfalso. apply Hfresh, list_elem_of_In, Hin. }
    split.
    + intros s0 [<-|Hin].
      * rewrite (Hframe _ Hother). exact Hat.
      * rewrite (Hall s0 Hin). apply swept_same, Hframe1.
        rewrite diverge_sym. apply Hother, Hin.
    + intros q Hq. rewrite Hframe; [|intros s' Hin; apply Hq; right; exact Hin].
      apply Hframe1, Hq. left. reflexivity.
Qed.

End Sweep.

(** [rm(p)] without options never removes a directory. *)
Lemma fs_rm_directory (now : Z) (p : list string) :
  forall fs m es, find p fs = Some (Dir m es) -> fs_rm now p fs = None.
Proof.
  unfold fs_rm. induction p as [|x p IH]; intros fs m es Hf; [reflexivity|].
  destruct fs as [| m0 es0 |]; try reflexivity.
  cbn [find] in Hf. destruct (get_entry x es0) as [c|] eqn:Hg; [|discriminate].
  destruct p as [|x2 p].
  - cbn [find] in Hf. injection Hf as ->. rewrite alter_at_last, Hg. reflexivity.
  - rewrite alter_at_inner, Hg. rewrite (IH c m es Hf). reflexivity.
Qed.

Lemma cleanup_returns (host : Host) (cfg : Config) (now : Z) (fs : node) :
  exists fs', cleanupExpiredShares host cfg now fs = Returned tt fs'.
Proof.
  unfold cleanupExpiredShares, try_catch.
  destruct (bind _ _ fs) as [[] fs'|fs']; eexists; reflexivity.
Qed.

(** A bucket that the loop over its shares leaves empty is not removed:
    [rm] without [recursive] is rejected on the directory, and the
    rejection ends the loop over the buckets. *)
Lemma sweep_bucket_emptied (host : Host) (now ttlMs : Z) (uploadsDir : path)
    (bucket : string) (rest shares : list string) (fs fs1 : node) (m : Z) :
  let bucketPath := join uploadsDir [bucket] in
  fs_readdir (locate host bucketPath) fs = Some shares ->
  for_of shares (sweep_share host now ttlMs bucketPath) fs = Returned tt fs1 ->
  find (locate host bucketPath) fs1 = Some (Dir m []) ->
  for_of (bucket :: rest) (sweep_bucket host now ttlMs uploadsDir) fs = Thrown fs1.
Proof.
  intros bucketPath Hlist Hloop Hempty. rewrite for_of_cons. unfold sweep_bucket.
  fold bucketPath. unfold bind, reading. rewrite Hlist, Hloop.
  unfold fs_readdir. rewrite Hempty. cbn [map length Nat.eqb].
  unfold writing. rewrite (fs_rm_directory now _ fs1 m [] Hempty). reflexivity.
Qed.

(** * The claims *)

(** C1 (as the code has it).  File names are joined to the share
    directory as they are; nothing is sanitized and no name is refused.
    When no file name of the request has a [".."] segment, every file is
    written at or below the share directory
    [<data_dir>/uploads/<bucket>/<share>] and whatever lies beside that
    directory is left as it was. *)
Theorem upload_stays_in_share (host : Host) (cfg : Config) (req : UploadRequest)
    (shareId : string) (now : Z) (fs : node) :
  names_stay_below (up_files req) ->
  let shareDir := share_dir_of host cfg req shareId in
  (forall name c, In (FormFile name c) (up_files req) ->
     exists rest, locate host (join shareDir [name]) = locate host shareDir ++ rest) /\
  (forall q, diverge (locate host shareDir) q = true ->
     find q (state_of (handleUpload host cfg req shareId now fs)) = find q fs).
Proof.
  intros Hnames shareDir. split.
  - intros name c Hin. unfold names_stay_below in Hnames.
    rewrite List.Forall_forall in Hnames. specialize (Hnames _ Hin). cbn in Hnames.
    eexists. apply locate_join_name, Hnames.
  - intros q Hd. apply handleUpload_frame; assumption.
Qed.

(** An instance: an upload of two files by ["other"] leaves the bucket
    of ["pw"] as it was. *)
Lemma upload_stays_in_share_witness :
  let req := upload_of "other" [FormFile "a.txt" "hello"; FormFile "sub/b.txt" "hi"] None in
  names_stay_below (up_files req) /\
  find ["srv"; "data"; "uploads"; "2bcdef012345"]
    (state_of (handleUpload demo_host demo_cfg req "share003" 50 two_files_tree))
  = Some (Dir 30 [("share004",
                   Dir 30 [("a.txt", File 30 "hello"); ("b.bin", File 30 "world")])]).
Proof.
  intros req.
  assert (H : names_stay_below (up_files req)) by (repeat constructor).
  split; [exact H|].
  destruct (upload_stays_in_share demo_host demo_cfg req "share003" 50 two_files_tree H)
    as [_ Hframe].
  rewrite (Hframe ["srv"; "data"; "uploads"; "2bcdef012345"]); [|vm_compute; reflexivity].
  vm_compute. reflexivity.
Defined.

(** C1, the claim as stated fails: an upload with a file named
    ["../escaped.txt"] is answered with status 200 and the file is
    written next to the share directory, in the bucket directory. *)
Lemma upload_escapes_share :
  let req := upload_of "pw" [FormFile "../escaped.txt" "evil"] None in
  locate demo_host (share_dir_of demo_host demo_cfg req "share001")
    = ["srv"; "data"; "uploads"; "2bcdef012345"; "share001"] /\
  result_of (handleUpload demo_host demo_cfg req "share001" 0 empty_tree)
  = Some {| status := 200; headers := []; body := JsonUrl "/d/2bcdef012345/share001" |} /\
  find ["srv"; "data"; "uploads"; "2bcdef012345"; "escaped.txt"]
    (state_of (handleUpload demo_host demo_cfg req "share001" 0 empty_tree))
  = Some (File 0 "evil") /\
  find ["srv"; "data"; "uploads"; "2bcdef012345"; "escaped.txt"] empty_tree = None.
Proof.
  cbv zeta. split; [vm_compute; reflexivity|].
  split; [vm_compute; reflexivity|].
  split; vm_compute; reflexivity.
Qed.

(** C2 (as the code has it).  Starting from a tree in which every
    bucket is within the quota, every run of uploads whose share
    identifiers are plain names and whose file names have no [".."]
    segment leaves every bucket within the quota; whatever the file
    names, a successful upload leaves its own bucket within the quota;
    and an upload that does not fit is answered with status 413 and
    leaves the tree exactly as it was. *)
Theorem uploads_keep_quota (host : Host) (cfg : Config) (evs : list UploadEvent) (fs : node) :
  within_quota host cfg fs ->
  Forall (fun ev => plain_segment (ev_shareId ev) = true /\
                    names_stay_below (up_files (ev_request ev))) evs ->
  within_quota host cfg (run_uploads host cfg evs fs) /\
  (forall req shareId now fs0 fs1 resp,
     handleUpload host cfg req shareId now fs0 = Returned resp fs1 -> status resp = 200 ->
     getDirSize host
       (bucket_dir cfg (hashPassword host (default EmptyString (up_password req)))) fs1
     <= max_bytes cfg) /\
  (forall req shareId now fs0,
     authorized cfg (up_password req) = true -> up_files req <> [] ->
     getDirSize host
       (bucket_dir cfg (hashPassword host (default EmptyString (up_password req)))) fs0
     + upload_size (up_files req) > max_bytes cfg ->
     exists msg,
       handleUpload host cfg req shareId now fs0 = Returned (text_response 413 msg) fs0).
Proof.
  intros Hinv Hevs. split; [|split].
  - revert fs Hinv. induction Hevs as [|ev evs [Hs Hn] _ IH]; intros fs Hinv; [exact Hinv|].
    cbn [run_uploads fold_left]. apply IH.
    apply handleUpload_within_quota; assumption.
  - intros req shareId now fs0 fs1 resp Hrun Hok.
    destruct (handleUpload_ok_accepted _ _ _ _ _ _ _ _ Hrun Hok) as (_ & _ & Hfit).
    pose proof (handleUpload_grows host cfg req shareId now
                  (locate host (bucket_dir cfg
                     (hashPassword host (default EmptyString (up_password req))))) fs0) as Hg.
    rewrite Hrun in Hg. cbn [state_of] in Hg.
    rewrite !getDirSize_size_at in *. lia.
  - intros req shareId now fs0 Ha Hf Hover. eexists.
    apply (handleUpload_over_quota host cfg req shareId now fs0 Ha Hf Hover).
Qed.

(** An instance: one upload of two small files onto an empty disk. *)
Lemma uploads_keep_quota_witness :
  within_quota demo_host demo_cfg empty_tree /\
  Forall (fun ev => plain_segment (ev_shareId ev) = true /\
                    names_stay_below (up_files (ev_request ev))) [small_upload] /\
  within_quota demo_host demo_cfg (run_uploads demo_host demo_cfg [small_upload] empty_tree).
Proof.
  assert (H : Forall (fun ev => plain_segment (ev_shareId ev) = true /\
                                names_stay_below (up_files (ev_request ev))) [small_upload]).
  { constructor; [|constructor]. split; [reflexivity|].
    repeat constructor. }
  split; [exact within_quota_empty_tree|]. split; [exact H|].
  apply (uploads_keep_quota demo_host demo_cfg [small_upload] empty_tree
           within_quota_empty_tree H).
Defined.

(** C2, the claim as stated fails: the bucket of ["other"] is filled to
    its quota of 1 MB by an upload of its own; an upload by ["pw"] of
    one byte, named ["../../5bcdef012345/share001/extra"], is accepted
    and lands in the bucket of ["other"], which then holds 1048577
    bytes. *)
Lemma quota_broken_across_buckets :
  within_quota demo_host demo_cfg empty_tree /\
  result_of (handleUpload demo_host demo_cfg (ev_request fill_other) "share001" 0 empty_tree)
  = Some {| status := 200; headers := []; body := JsonUrl "/d/5bcdef012345/share001" |} /\
  result_of (handleUpload demo_host demo_cfg (ev_request climb_into_other) "share002" 10
               (run_uploads demo_host demo_cfg [fill_other] empty_tree))
  = Some {| status := 200; headers := []; body := JsonUrl "/d/2bcdef012345/share002" |} /\
  getDirSize demo_host (bucket_dir demo_cfg "5bcdef012345")
    (run_uploads demo_host demo_cfg [fill_other] empty_tree) = 1048576 /\
  getDirSize demo_host (bucket_dir demo_cfg "5bcdef012345")
    (run_uploads demo_host demo_cfg [fill_other; climb_into_other] empty_tree) = 1048577 /\
  max_bytes demo_cfg = 1048576.
Proof.
  split; [exact within_quota_empty_tree|].
  split; [vm_compute; reflexivity|].
  split; [vm_compute; reflexivity|].
  split; [vm_compute; reflexivity|].
  split; vm_compute; reflexivity.
Qed.

(** C3 (as the code has it).  A share uploaded with [burn = "true"]
    that holds a file with a plain name is served by its first download,
    which sets a timer one second ahead; every download made once that
    timer has run ([1000] ms after the first download, or later) is
    answered with 404 Not Found, the directory of the share being gone. *)
Theorem burn_after_timer (host : Host) (cfg : Config) (req : UploadRequest)
    (shareId : string) (now : Z) (fs fs1 : node) (resp : Response) (name c : string) :
  plain_segment shareId = true ->
  up_burn req = Some (FormString "true") ->
  In (FormFile name c) (up_files req) -> plain_segment name = true -> name <> ".burn" ->
  handleUpload host cfg req shareId now fs = Returned resp fs1 -> status resp = 200 ->
  let link :=
    "/d/" +:+ hashPassword host (default EmptyString (up_password req)) +:+ "/" +:+ shareId in
  body resp = JsonUrl link /\
  forall t1,
    let first := handleDownload host cfg link t1 fs1 in
    status first.1 = 200 /\
    first.2 = [{| due := t1 + 1000; target := share_dir_of host cfg req shareId |}] /\
    forall t2 pending, t1 + 1000 <= t2 ->
      let later := run_timers host t2 (pending ++ first.2) fs1 in
      forall t3, handleDownload host cfg link t3 later.2 = (not_found, []).
Proof.
  intros Hs Hburn Hin Hname Hnb Hrun Hok link.
  set (bucket := hashPassword host (default EmptyString (up_password req))) in *.
  pose proof (hashPassword_plain host (default EmptyString (up_password req))) as Hb.
  fold bucket in Hb.
  destruct (handleUpload_ok_accepted _ _ _ _ _ _ _ _ Hrun Hok) as (Ha & Hf & Hfit).
  rewrite (handleUpload_accepted host cfg req shareId now fs Ha Hf Hfit) in Hrun.
  fold bucket in Hrun.
  set (shareDir := share_dir_of host cfg req shareId) in *.
  apply bind_returned in Hrun as ([] & fs_a & _ & Hrun).
  apply bind_returned in Hrun as ([] & fs_b & Hsave & Hrun).
  apply bind_returned in Hrun as ([] & fs_c & Hmark & Hrun).
  injection Hrun as <- <-.
  unfold strictly_equals in Hmark. rewrite Hburn in Hmark.
  change (String.eqb "true" "true") with true in Hmark. cbv iota in Hmark.
  apply writing_returned in Hmark.
  assert (Hmarker : fs_exists (locate host (join shareDir [".burn"])) fs_c = true).
  { unfold fs_exists. rewrite (write_found _ _ _ _ _ Hmark). reflexivity. }
  assert (Hlisted : is_Some (find (locate host shareDir ++ [name]) fs_c)).
  { apply (write_keeps _ _ _ _ _ _ Hmark).
    eapply saved_listed; eauto. }
  destruct Hlisted as [entry Hentry].
  apply find_last in Hentry as (m & es & Hdir & Hget).
  apply get_entry_listed in Hget.
  split; [reflexivity|]. intros t1 first.
  assert (Hfirst : first = download_share host shareDir shareId t1 fs_c).
  { unfold first, link. rewrite (handleDownload_link host cfg bucket shareId t1 fs_c Hb Hs).
    reflexivity. }
  destruct (download_share_served host shareDir shareId t1 fs_c m es name Hdir Hget Hnb)
    as [Hstatus Htimer].
  rewrite Hmarker in Htimer. rewrite <- Hfirst in Hstatus, Htimer.
  split; [exact Hstatus|]. split; [exact Htimer|].
  intros t2 pending Hdue later t3. unfold link.
  rewrite (handleDownload_link host cfg bucket shareId t3 _ Hb Hs).
  apply download_share_missing. fold shareDir. unfold later. rewrite Htimer.
  apply (run_timers_gone host t2 _ {| due := t1 + 1000; target := shareDir |} fs_c).
  - apply in_or_app. right. left. reflexivity.
  - exact Hdue.
  - cbn [target]. unfold shareDir, share_dir_of. fold bucket.
    rewrite (locate_share_dir host cfg bucket shareId Hb Hs).
    intros Hnil. apply app_eq_nil in Hnil as [_ Hnil]. discriminate Hnil.
Qed.

(** An instance: a burn share downloaded at 100 ms, the timers run at
    1100 ms, a second download at 1500 ms. *)
Lemma burn_after_timer_witness :
  In (FormFile "a.txt" "hello") (up_files burn_request) /\
  result_of (handleUpload demo_host demo_cfg burn_request "share006" 0 empty_tree)
    = Some {| status := 200; headers := []; body := JsonUrl "/d/2bcdef012345/share006" |} /\
  status (handleDownload demo_host demo_cfg "/d/2bcdef012345/share006" 100 burn_tree).1 = 200 /\
  handleDownload demo_host demo_cfg "/d/2bcdef012345/share006" 1500
    (run_timers demo_host 1100
       (handleDownload demo_host demo_cfg "/d/2bcdef012345/share006" 100 burn_tree).2
       burn_tree).2
  = (not_found, []).
Proof.
  assert (Hin : In (FormFile "a.txt" "hello") (up_files burn_request))
    by (left; reflexivity).
  assert (Hrun : handleUpload demo_host demo_cfg burn_request "share006" 0 empty_tree
                 = Returned {| status := 200; headers := [];
                               body := JsonUrl "/d/2bcdef012345/share006" |} burn_tree)
    by (vm_compute; reflexivity).
  assert (Hs : plain_segment "share006" = true) by (vm_compute; reflexivity).
  assert (Hn : plain_segment "a.txt" = true) by (vm_compute; reflexivity).
  split; [exact Hin|]. split; [rewrite Hrun; reflexivity|].
  destruct (burn_after_timer demo_host demo_cfg burn_request "share006" 0 empty_tree
              burn_tree _ "a.txt" "hello" Hs eq_refl Hin Hn ltac:(discriminate)
              Hrun eq_refl) as [_ Hdown].
  destruct (Hdown 100) as (Hstatus & _ & Hlater).
  split; [exact Hstatus|].
  apply (Hlater 1100 [] ltac:(lia) 1500).
Defined.

(** C3, the claim as stated fails: half a second after the first
    download of a burn share its timer has not run, and a second
    download is served like the first. *)
Lemma burn_share_served_twice :
  up_burn burn_request = Some (FormString "true") /\
  (handleDownload demo_host demo_cfg "/d/2bcdef012345/share006" 100 burn_tree)
  = ({| status := 200;
        headers := [("Content-Disposition",
                     "attachment; filename=" +:+ dquote +:+ "a.txt" +:+ dquote);
                    ("Content-Type", "text/plain;charset=utf-8")];
        body := FileBody (Some "hello") |},
     [{| due := 1100; target := share_dir_of demo_host demo_cfg burn_request "share006" |}]) /\
  let later :=
    run_timers demo_host 600
      (handleDownload demo_host demo_cfg "/d/2bcdef012345/share006" 100 burn_tree).2
      burn_tree in
  later.2 = burn_tree /\
  (handleDownload demo_host demo_cfg "/d/2bcdef012345/share006" 600 later.2).1
  = {| status := 200;
       headers := [("Content-Disposition",
                    "attachment; filename=" +:+ dquote +:+ "a.txt" +:+ dquote);
                   ("Content-Type", "text/plain;charset=utf-8")];
       body := FileBody (Some "hello") |}.
Proof.
  split; [reflexivity|]. split; [vm_compute; reflexivity|].
  cbv zeta. split; vm_compute; reflexivity.
Qed.

(** C4 (as the code has it).  For a share whose directory lists,
    besides an entry named [".burn"], the regular files [files] and
    nothing else: when there is more than one, the download
    is answered with a zip archive whose members are exactly those
    files, in listing order, under their names and with their bytes;
    when there is exactly one, the answer is the bytes of that file
    itself, with the content type of the file (or
    [application/octet-stream] when it has none), not an archive. *)
Theorem download_serves_share (host : Host) (cfg : Config) (bucket shareId : string)
    (now : Z) (fs : node) (m : Z) (es : list (string * node))
    (files : list (string * Z * string)) :
  plain_segment bucket = true -> plain_segment shareId = true ->
  find (locate host (join (bucket_dir cfg bucket) [shareId])) fs = Some (Dir m es) ->
  NoDup (map fst es) -> Forall (fun e => plain_segment e.1 = true) es ->
  List.filter (fun e => negb (String.eqb e.1 ".burn")) es
    = map (fun f => (f.1.1, File f.1.2 f.2)) files ->
  let answer := (handleDownload host cfg ("/d/" +:+ bucket +:+ "/" +:+ shareId) now fs).1 in
  ((1 < length files)%nat ->
   answer = {| status := 200;
               headers := [("Content-Disposition",
                            "attachment; filename=" +:+ dquote +:+ shareId +:+ ".zip" +:+ dquote);
                           ("Content-Type", "application/zip")];
               body := ZipBody (map (fun f => (f.1.1, Some f.2)) files) |}) /\
  (forall name mt c, files = [(name, mt, c)] ->
   answer = {| status := 200;
               headers := [("Content-Disposition",
                            "attachment; filename=" +:+ dquote
                            +:+ encodeURIComponent host name +:+ dquote);
                           ("Content-Type",
                            if truthy (file_type host name) then file_type host name
                            else "application/octet-stream")];
               body := FileBody (Some c) |}).
Proof.
  intros Hb Hs Hdir Hnd Hplain Hfiles answer. subst answer.
  rewrite (handleDownload_link host cfg bucket shareId now fs Hb Hs).
  set (shareDir := join (bucket_dir cfg bucket) [shareId]) in *.
  assert (Hread : forall f, In f files ->
            plain_segment f.1.1 = true /\
            fs_read (locate host (join shareDir [f.1.1])) fs = Some f.2).
  { intros f Hin.
    assert (Hes : In (f.1.1, File f.1.2 f.2) es).
    { eapply (proj1 (filter_In _ _ _)). rewrite Hfiles.
      apply (in_map (fun f => (f.1.1, File f.1.2 f.2))), Hin. }
    rewrite List.Forall_forall in Hplain. pose proof (Hplain _ Hes) as Hname. cbn in Hname.
    split; [exact Hname|].
    rewrite (read_listed host shareDir fs m es _ Hdir Hname), (get_entry_in _ _ _ Hnd Hes).
    reflexivity. }
  unfold download_share, fs_readdir. rewrite Hdir.
  rewrite filter_map_fst, Hfiles, !map_map. cbn [fst].
  assert (Hbody : map (fun f : string * Z * string =>
                         (f.1.1, fs_read (locate host (join shareDir [f.1.1])) fs)) files
                  = map (fun f => (f.1.1, Some f.2)) files).
  { apply map_ext_in. intros f Hin. rewrite (proj2 (Hread f Hin)). reflexivity. }
  rewrite Hbody. clear Hbody.
  split.
  - intros Hlen. destruct files as [|f1 [|f2 files']]; cbn [length] in Hlen; try lia.
    reflexivity.
  - intros name mt c ->. cbn [map length Nat.eqb fst snd].
    destruct (Hread (name, mt, c) (or_introl eq_refl)) as [Hname Hc]. cbn [fst snd] in *.
    rewrite (plain_truthy name Hname), Hc. reflexivity.
Qed.

(** An instance: a share of two files and a share of one. *)
Lemma download_serves_share_witness :
  find (locate demo_host (join (bucket_dir demo_cfg "2bcdef012345") ["share004"])) two_files_tree
    = Some (Dir 30 [("a.txt", File 30 "hello"); ("b.bin", File 30 "world")]) /\
  body (handleDownload demo_host demo_cfg "/d/2bcdef012345/share004" 50 two_files_tree).1
    = ZipBody [("a.txt", Some "hello"); ("b.bin", Some "world")] /\
  find (locate demo_host (join (bucket_dir demo_cfg "2bcdef012345") ["share005"])) one_file_tree
    = Some (Dir 40 [("a.txt", File 40 "hello")]) /\
  (handleDownload demo_host demo_cfg "/d/2bcdef012345/share005" 50 one_file_tree).1
    = {| status := 200;
         headers := [("Content-Disposition",
                      "attachment; filename=" +:+ dquote +:+ "a.txt" +:+ dquote);
                     ("Content-Type", "text/plain;charset=utf-8")];
         body := FileBody (Some "hello") |}.
Proof.
  assert (H2 : find (locate demo_host (join (bucket_dir demo_cfg "2bcdef012345") ["share004"]))
                 two_files_tree
               = Some (Dir 30 [("a.txt", File 30 "hello"); ("b.bin", File 30 "world")]))
    by (vm_compute; reflexivity).
  assert (H1 : find (locate demo_host (join (bucket_dir demo_cfg "2bcdef012345") ["share005"]))
                 one_file_tree
               = Some (Dir 40 [("a.txt", File 40 "hello")]))
    by (vm_compute; reflexivity).
  split; [exact H2|]. split; [|split; [exact H1|]].
  - destruct (download_serves_share demo_host demo_cfg "2bcdef012345" "share004" 50
                two_files_tree 30 _ [("a.txt", 30, "hello"); ("b.bin", 30, "world")]
                eq_refl eq_refl H2) as [Hzip _].
    + apply NoDup_cons_2; [|apply NoDup_singleton].
      rewrite list_elem_of_In. cbn. intros [H|[]]. discriminate H.
    + repeat constructor.
    + reflexivity.
    + change "/d/2bcdef012345/share004" with ("/d/" +:+ "2bcdef012345" +:+ "/" +:+ "share004").
      rewrite Hzip; [reflexivity|cbn; lia].
  - destruct (download_serves_share demo_host demo_cfg "2bcdef012345" "share005" 50
                one_file_tree 40 _ [("a.txt", 40, "hello")] eq_refl eq_refl H1) as [_ Hone].
    + apply NoDup_singleton.
    + repeat constructor.
    + reflexivity.
    + change "/d/2bcdef012345/share005" with ("/d/" +:+ "2bcdef012345" +:+ "/" +:+ "share005").
      rewrite (Hone "a.txt" 40 "hello" eq_refl). reflexivity.
Defined.

(** C4, the claim as stated fails.  A share of two uploaded files, one
    of them named [".burn"], is answered with the bytes of the other
    file alone (and a burn timer is set); a share of two files uploaded
    as ["x/a"] and ["x/b"] lists the single directory ["x"], and the
    answer is neither an archive nor the bytes of a file. *)
Lemma download_misses_files :
  result_of (handleUpload demo_host demo_cfg dot_burn_upload "share007" 60 empty_tree)
  = Some {| status := 200; headers := []; body := JsonUrl "/d/2bcdef012345/share007" |} /\
  find ["srv"; "data"; "uploads"; "2bcdef012345"; "share007"] dot_burn_tree
  = Some (Dir 60 [(".burn", File 60 "zz"); ("a.txt", File 60 "hello")]) /\
  handleDownload demo_host demo_cfg "/d/2bcdef012345/share007" 80 dot_burn_tree
  = ({| status := 200;
        headers := [("Content-Disposition",
                     "attachment; filename=" +:+ dquote +:+ "a.txt" +:+ dquote);
                    ("Content-Type", "text/plain;charset=utf-8")];
        body := FileBody (Some "hello") |},
     [{| due := 1080; target := share_dir_of demo_host demo_cfg dot_burn_upload "share007" |}]) /\
  result_of (handleUpload demo_host demo_cfg nested_upload "share008" 70 empty_tree)
  = Some {| status := 200; headers := []; body := JsonUrl "/d/2bcdef012345/share008" |} /\
  find ["srv"; "data"; "uploads"; "2bcdef012345"; "share008"] nested_tree
  = Some (Dir 70 [("x", Dir 70 [("a", File 70 "one"); ("b", File 70 "two")])]) /\
  (handleDownload demo_host demo_cfg "/d/2bcdef012345/share008" 80 nested_tree).1
  = {| status := 200;
       headers := [("Content-Disposition",
                    "attachment; filename=" +:+ dquote +:+ "x" +:+ dquote);
                   ("Content-Type", "application/octet-stream")];
       body := FileBody None |}.
Proof.
  split; [vm_compute; reflexivity|].
  split; [vm_compute; reflexivity|].
  split; [vm_compute; reflexivity|].
  split; [vm_compute; reflexivity|].
  split; vm_compute; reflexivity.
Qed.

(** C5, the code at an input where it misses the claim.  Two buckets
    hold one share each, both older than the time to live.  The sweep
    deletes the share of the first bucket and then calls [rm] without
    [recursive] on the emptied bucket directory; that call is rejected,
    the outer [catch] swallows the rejection and the sweep is over: the
    empty bucket is still there, and so is the expired share of the
    second bucket. *)
Theorem sweep_stops_at_emptied_bucket :
  let fs' := state_of (cleanupExpiredShares demo_host demo_cfg sweep_time stale_tree) in
  share_ttl_days demo_cfg * 24 * HOUR_MS = 604800000 /\
  fs_stat ["srv"; "data"; "uploads"; "aaaaaaaaaaaa"; "share00a"] stale_tree
    = Some {| st_mtimeMs := 0; st_size := 0; st_isDirectory := true |} /\
  fs_stat ["srv"; "data"; "uploads"; "bbbbbbbbbbbb"; "share00b"] stale_tree
    = Some {| st_mtimeMs := 0; st_size := 0; st_isDirectory := true |} /\
  find ["srv"; "data"; "uploads"; "aaaaaaaaaaaa"; "share00a"] fs' = None /\
  find ["srv"; "data"; "uploads"; "aaaaaaaaaaaa"] fs' = Some (Dir sweep_time []) /\
  find ["srv"; "data"; "uploads"; "bbbbbbbbbbbb"; "share00b"] fs' = Some (old_share "b.txt").
Proof.
  cbv zeta. split; [reflexivity|].
  split; [reflexivity|]. split; [reflexivity|].
  split; [vm_compute; reflexivity|]. split; vm_compute; reflexivity.
Qed.

(** C6.  With a window of 60 seconds and a limit of 30: the first
    request of a client, or its first request after its window has
    elapsed ([now > resetAt]), opens a window and is allowed; of the
    requests of that client that follow within the window, whatever
    other clients do in between, request number [i] (counting the one
    that opened the window) is refused exactly when [i > 30], and a
    refused quota request is answered with status 429. *)
Theorem rate_limit_window (ip : string) (t0 : Z) (reqs : list (string * Z))
    (m : gmap string RateEntry) :
  match m !! ip with Some e => t0 > resetAt e | None => True end ->
  Forall (fun r => r.1 = ip -> r.2 <= t0 + 60 * 1000) reqs ->
  RATE_LIMIT_WINDOW = 60 * 1000 /\ RATE_LIMIT_MAX = 30 /\
  (isRateLimited ip t0 m).1 = false /\
  (isRateLimited ip t0 m).2 !! ip = Some {| count := 1; resetAt := t0 + RATE_LIMIT_WINDOW |} /\
  verdicts_of ip ((ip, t0) :: reqs) m =
    map (fun i => 30 <? Z.of_nat i)
        (seq 1 (S (length (List.filter (fun r => String.eqb r.1 ip) reqs)))) /\
  (forall host cfg req now rl fs,
     (isRateLimited (getClientIp req) now rl).1 = true ->
     (handleQuota host cfg req now rl fs).1 = text_response 429 "Too many requests").
Proof.
  intros Hfresh Hall.
  assert (Hfirst : isRateLimited ip t0 m =
            (false, <[ip := {| count := 1; resetAt := t0 + RATE_LIMIT_WINDOW |}]> m)).
  { unfold isRateLimited. destruct (m !! ip) as [e|]; [|reflexivity].
    destruct (Z.gtb_spec t0 (resetAt e)); [reflexivity|lia]. }
  split; [reflexivity|]. split; [reflexivity|].
  rewrite Hfirst. cbn [fst snd].
  split; [reflexivity|]. split; [apply lookup_insert_eq|]. split.
  - cbn [verdicts_of]. rewrite Hfirst, String.eqb_refl.
    cbn [seq map]. f_equal.
    rewrite (verdicts_in_window ip reqs _ 1 (t0 + RATE_LIMIT_WINDOW));
      [|apply lookup_insert_eq|exact Hall].
    rewrite <- (seq_shift _ 1), map_map. apply map_ext. intros i.
    unfold RATE_LIMIT_MAX. f_equal. lia.
  - intros host cfg req now rl fs Hlim. unfold handleQuota.
    destruct (isRateLimited (getClientIp req) now rl) as [limited rl'].
    cbn in Hlim. subst limited. reflexivity.
Qed.

(** An instance: three requests of one client within its window, with a
    request of another client in between. *)
Lemma rate_limit_window_witness :
  match no_clients !! "10.0.0.1" with
  | Some e => 0 > resetAt e
  | None => True
  end /\
  Forall (fun r : string * Z => r.1 = "10.0.0.1" -> r.2 <= 0 + 60 * 1000)
    [("10.0.0.1", 5); ("10.0.0.2", 7); ("10.0.0.1", 60000)] /\
  verdicts_of "10.0.0.1"
    [("10.0.0.1", 0); ("10.0.0.1", 5); ("10.0.0.2", 7); ("10.0.0.1", 60000)] no_clients
  = [false; false; false].
Proof.
  assert (H1 : match no_clients !! "10.0.0.1" with
               | Some e => 0 > resetAt e
               | None => True
               end) by (unfold no_clients; rewrite lookup_empty; exact I).
  assert (H2 : Forall (fun r : string * Z => r.1 = "10.0.0.1" -> r.2 <= 0 + 60 * 1000)
                 [("10.0.0.1", 5); ("10.0.0.2", 7); ("10.0.0.1", 60000)]).
  { repeat constructor; cbn; intros; try lia; discriminate. }
  split; [exact H1|]. split; [exact H2|].
  destruct (rate_limit_window "10.0.0.1" 0 _ no_clients H1 H2) as (_ & _ & _ & _ & Hv & _).
  rewrite Hv. reflexivity.
Defined.

(** C7, the code at an input where it misses the claim.  The first
    bucket cannot be read: [readdir] on it throws outside the inner
    [try], the outer [catch] swallows the rejection and the sweep is
    over.  The tree is left as it was, and the share of the second
    bucket, older than the time to live, is not deleted; a share that
    cannot be examined is skipped by the inner [try], a bucket is not. *)
Theorem sweep_stops_at_unreadable_bucket :
  let fs' :=
    state_of (cleanupExpiredShares demo_host demo_cfg sweep_time unreadable_bucket_tree) in
  fs_readdir ["srv"; "data"; "uploads"; "aaaaaaaaaaaa"] unreadable_bucket_tree = None /\
  fs_stat ["srv"; "data"; "uploads"; "bbbbbbbbbbbb"; "share00b"] unreadable_bucket_tree
    = Some {| st_mtimeMs := 0; st_size := 0; st_isDirectory := true |} /\
  sweep_time - 0 > share_ttl_days demo_cfg * 24 * HOUR_MS /\
  fs' = unreadable_bucket_tree /\
  find ["srv"; "data"; "uploads"; "bbbbbbbbbbbb"; "share00b"] fs' = Some (old_share "b.txt").
Proof.
  cbv zeta. split; [reflexivity|]. split; [reflexivity|]. split; [reflexivity|].
  split; vm_compute; reflexivity.
Qed.

(** What the sweep does tolerate.  The sweep is called once when the
    process starts and then every hour.  Within a bucket the loop over
    the shares always runs to its end: a share that cannot be examined
    is left as it is, and every other share is deleted exactly when it
    is older than the time to live, whatever the other shares are.  A
    bucket whose directory cannot be listed ends the sweep: the buckets
    after it are not visited.  No error leaves [cleanupExpiredShares]. *)
Theorem sweep_skips_unreadable_shares (host : Host) (cfg : Config) (now : Z)
    (bucket : string) (shares : list string) (fs : node) :
  let ttlMs := share_ttl_days cfg * 24 * HOUR_MS in
  let bucketPath := join (uploads_dir cfg) [bucket] in
  NoDup shares -> Forall (fun s => plain_segment s = true) shares ->
  (forall t0 horizon,
     HOUR_MS = 3600000 /\
     In t0 (flat_map (runs_of horizon t0) startup) /\
     forall k, (k < horizon)%nat ->
       In (t0 + Z.of_nat (S k) * HOUR_MS) (flat_map (runs_of horizon t0) startup)) /\
  (exists fs',
     for_of shares (sweep_share host now ttlMs bucketPath) fs = Returned tt fs' /\
     forall s, In s shares ->
       find (locate host bucketPath ++ [s]) fs' =
       match fs_stat (locate host bucketPath ++ [s]) fs with
       | Some st => if now - st_mtimeMs st >? ttlMs then None
                    else find (locate host bucketPath ++ [s]) fs
       | None => find (locate host bucketPath ++ [s]) fs
       end) /\
  (forall rest,
     fs_readdir (locate host bucketPath) fs = None ->
     for_of (bucket :: rest) (sweep_bucket host now ttlMs (uploads_dir cfg)) fs = Thrown fs) /\
  (exists fs', cleanupExpiredShares host cfg now fs = Returned tt fs').
Proof.
  intros ttlMs bucketPath Hnd Hplain. split; [|split; [|split]].
  - intros t0 horizon. split; [reflexivity|]. unfold startup. cbn [flat_map runs_of].
    rewrite app_nil_r. split.
    + apply in_or_app. right. left. reflexivity.
    + intros k Hk. apply in_or_app. left.
      apply (in_map (fun k => t0 + Z.of_nat (S k) * HOUR_MS)), in_seq. lia.
  - destruct (sweep_shares_spec host now ttlMs bucketPath shares fs Hnd Hplain)
      as (fs' & Hrun & Hall & _).
    exists fs'. split; [exact Hrun|]. exact Hall.
  - intros rest Hlist. rewrite for_of_cons. unfold sweep_bucket at 1.
    fold bucketPath. unfold bind at 1. unfold reading at 1. rewrite Hlist. reflexivity.
  - apply cleanup_returns.
Qed.

(** An instance: a bucket with a share that cannot be examined, an old
    share and a recent one. *)
Lemma sweep_skips_unreadable_shares_example :
  let bp := ["srv"; "data"; "uploads"; "aaaaaaaaaaaa"] in
  let fs' := state_of (cleanupExpiredShares demo_host demo_cfg sweep_time mixed_bucket_tree) in
  NoDup ["share001"; "share002"; "share003"] /\
  find (bp ++ ["share001"]) fs' = Some Dangling /\
  find (bp ++ ["share002"]) fs' = None /\
  find (bp ++ ["share003"]) fs'
    = Some (Dir 601200001 [("b.txt", File 601200001 "world")]).
Proof.
  intros bp fs'.
  assert (Hnd : NoDup ["share001"; "share002"; "share003"]).
  { repeat (apply NoDup_cons_2; [rewrite list_elem_of_In; cbn; intuition discriminate|]).
    apply NoDup_nil_2. }
  assert (Hplain : Forall (fun s => plain_segment s = true)
                     ["share001"; "share002"; "share003"]) by (repeat constructor).
  split; [exact Hnd|].
  destruct (sweep_skips_unreadable_shares demo_host demo_cfg sweep_time "aaaaaaaaaaaa"
              _ mixed_bucket_tree Hnd Hplain) as (_ & (fs1 & Hrun & Hall) & _ & _).
  assert (Hfs : fs' = fs1).
  { assert (Hstate : fs1 = state_of (for_of ["share001"; "share002"; "share003"]
                       (sweep_share demo_host sweep_time
                          (share_ttl_days demo_cfg * 24 * HOUR_MS)
                          (join (uploads_dir demo_cfg) ["aaaaaaaaaaaa"])) mixed_bucket_tree))
      by (rewrite Hrun; reflexivity).
    rewrite Hstate. vm_compute. reflexivity. }
  rewrite Hfs.
  change (locate demo_host (join (uploads_dir demo_cfg) ["aaaaaaaaaaaa"])) with bp in Hall.
  split; [|split].
  - rewrite (Hall "share001"); [reflexivity|left; reflexivity].
  - rewrite (Hall "share002"); [reflexivity|right; left; reflexivity].
  - rewrite (Hall "share003"); [reflexivity|right; right; left; reflexivity].
Defined.

(** C8 (as the code has it).  An upload that does not fit is answered
    with status 413 before anything is written (the tree is the one the
    request found), and the message carries the room that is left as a
    whole number of mebibytes, rounded down:
    [floor((max_bytes - used_bytes) / 1048576)].  With a quota of 10 MB
    and 9 MB in use, an upload of 2 MB is told that 1MB is available. *)
Theorem quota_rejection_reports_megabytes (host : Host) (cfg : Config) (req : UploadRequest)
    (shareId : string) (now : Z) (fs : node) :
  let used := getDirSize host
                (bucket_dir cfg (hashPassword host (default EmptyString (up_password req)))) fs in
  authorized cfg (up_password req) = true -> up_files req <> [] ->
  used + upload_size (up_files req) > max_bytes cfg ->
  handleUpload host cfg req shareId now fs =
    Returned (text_response 413
                ("Quota exceeded. " +:+ toString10 ((max_bytes cfg - used) / 1048576)
                 +:+ "MB available.")) fs /\
  (max_bucket_size_mb cfg = 10 -> used = 9 * 1048576 ->
   handleUpload host cfg req shareId now fs =
     Returned (text_response 413 "Quota exceeded. 1MB available.") fs).
Proof.
  intros used Ha Hf Hover.
  pose proof (handleUpload_over_quota host cfg req shareId now fs Ha Hf Hover) as Hrun.
  fold used in Hrun. split; [exact Hrun|].
  intros Hmax Hused. rewrite Hrun. unfold max_bytes. rewrite Hmax, Hused. reflexivity.
Qed.

(** An instance: one byte against a quota of zero. *)
Lemma quota_rejection_reports_megabytes_witness :
  let req := upload_of "pw" [FormFile "a" "x"] None in
  authorized zero_quota_cfg (up_password req) = true /\
  up_files req <> [] /\
  handleUpload demo_host zero_quota_cfg req "share001" 0 empty_tree
  = Returned (text_response 413 "Quota exceeded. 0MB available.") empty_tree.
Proof.
  intros req.
  assert (Ha : authorized zero_quota_cfg (up_password req) = true) by reflexivity.
  assert (Hf : up_files req <> []) by discriminate.
  split; [exact Ha|]. split; [exact Hf|].
  destruct (quota_rejection_reports_megabytes demo_host zero_quota_cfg req "share001" 0
              empty_tree Ha Hf) as [Hrun _]; [vm_compute; reflexivity|].
  rewrite Hrun. reflexivity.
Defined.

(** C8, the claim as stated fails: with a quota of 1 MB and one byte
    in use, an upload of 1 MB is refused with the message that 0MB is
    available, although 1048575 more bytes would fit. *)
Lemma quota_message_loses_bytes :
  handleUpload demo_host demo_cfg
    (upload_of "pw" [FormFile "big.bin" (blob 1048576)] None) "share002" 10 one_byte_tree
  = Returned (text_response 413 "Quota exceeded. 0MB available.") one_byte_tree /\
  max_bytes demo_cfg - getDirSize demo_host (bucket_dir demo_cfg "2bcdef012345") one_byte_tree
  = 1048575.
Proof.
  split; vm_compute; reflexivity.
Qed.

(** C9 (as the code has it).  The bucket id is a function of the
    password alone; for a 64-bit hash it has between 1 and 12
    characters, and exactly 12 when, and only when, the hash is at least
    [16^11]. *)
Theorem hashPassword_length (host : Host) (password : string) :
  0 <= Bun_hash host password < 2 ^ 64 ->
  (forall password', password' = password ->
     hashPassword host password' = hashPassword host password) /\
  (1 <= String.length (hashPassword host password) <= 12)%nat /\
  (String.length (hashPassword host password) = 12%nat <->
   16 ^ 11 <= Bun_hash host password).
Proof.
  intros [Hlo Hhi]. split; [intros ? ->; reflexivity|].
  unfold hashPassword. rewrite slice_0_length. unfold toString16.
  destruct (Z.ltb_spec (Bun_hash host password) 0) as [Hneg|_]; [lia|].
  destruct (hex_digits_length _ (Bun_hash host password) EmptyString
              (conj Hlo (log2_fuel _ Hlo))) as (d & Hd & Hlen & Hup & Hlow).
  rewrite Hlen. cbn [String.length]. rewrite Nat.add_0_l.
  split; [lia|]. split.
  - intros Hmin. assert (Hd12 : (12 <= d)%nat) by lia.
    destruct Hlow as [->|Hlow]; [lia|].
    eapply Z.le_trans; [|exact Hlow]. apply Z.pow_le_mono_r; lia.
  - intros Hbig. destruct (Nat.le_gt_cases 12 d) as [|Hsmall]; [lia|].
    assert (16 ^ Z.of_nat d <= 16 ^ 11) by (apply Z.pow_le_mono_r; lia). lia.
Qed.

(** An instance: the bucket of the password ["pw"] on the example host. *)
Lemma hashPassword_length_witness :
  0 <= Bun_hash demo_host "pw" < 2 ^ 64 /\
  String.length (hashPassword demo_host "pw") = 12%nat.
Proof.
  assert (H : 0 <= Bun_hash demo_host "pw" < 2 ^ 64) by (split; [apply Z.leb_le|apply Z.ltb_lt]; vm_compute; reflexivity).
  split; [exact H|].
  destruct (hashPassword_length demo_host "pw" H) as (_ & _ & Hlen).
  apply Hlen. apply Z.leb_le. vm_compute. reflexivity.
Defined.

(** C9, the claim as stated fails: two passwords whose 64-bit hashes
    are 16 and 256 get bucket ids of two and of three characters. *)
Lemma hashPassword_length_varies :
  (forall s, 0 <= Bun_hash short_hash_host s < 2 ^ 64) /\
  hashPassword short_hash_host "a" = "10" /\
  hashPassword short_hash_host "ab" = "100" /\
  String.length (hashPassword short_hash_host "a")
    <> String.length (hashPassword short_hash_host "ab").
Proof.
  split; [intros s; apply Z.mod_pos_bound; lia|].
  split; [reflexivity|]. split; [reflexivity|]. discriminate.
Qed.

(** C10 (as the code has it).  A quota request that passes the throttle
    and carries an allow-listed password is answered with
    [{used, max, available}] where [used + available = max] exactly, so
    that [available] is negative exactly when the usage exceeds the
    maximum; and when every entry of the bucket's directory can be
    examined, [used] is the recursive byte sum of that directory,
    markers of zero bytes included. *)
Theorem quota_query_balance (host : Host) (cfg : Config) (req : QuotaRequest) (now : Z)
    (rl : gmap string RateEntry) (fs : node) :
  (isRateLimited (getClientIp req) now rl).1 = false ->
  authorized cfg (q_password req) = true ->
  let bucketDir :=
    bucket_dir cfg (hashPassword host (default EmptyString (q_password req))) in
  exists used available,
    (handleQuota host cfg req now rl fs).1 =
      {| status := 200; headers := [("Access-Control-Allow-Origin", "*")];
         body := JsonQuota used (max_bucket_size_mb cfg * 1024 * 1024) available |} /\
    used = getDirSize host bucketDir fs /\
    used + available = max_bucket_size_mb cfg * 1024 * 1024 /\
    (available < 0 <-> used > max_bucket_size_mb cfg * 1024 * 1024) /\
    ((forall n, find (locate host bucketDir) fs = Some n -> examinable n = true) ->
     used = directory_bytes (locate host bucketDir) fs).
Proof.
  intros Hrl Ha bucketDir.
  exists (getDirSize host bucketDir fs), (max_bytes cfg - getDirSize host bucketDir fs).
  split; [apply handleQuota_admitted; assumption|].
  split; [reflexivity|]. unfold max_bytes. split; [lia|]. split; [lia|].
  intros Hex. rewrite getDirSize_size_at. apply size_at_directory_bytes, Hex.
Qed.

(** An instance: the first quota request of a client, one byte in use. *)
Lemma quota_query_balance_witness :
  (isRateLimited (getClientIp quota_request) 0 no_clients).1 = false /\
  authorized demo_cfg (q_password quota_request) = true /\
  (handleQuota demo_host demo_cfg quota_request 0 no_clients one_byte_tree).1 =
    {| status := 200; headers := [("Access-Control-Allow-Origin", "*")];
       body := JsonQuota 1 1048576 1048575 |}.
Proof.
  assert (H1 : (isRateLimited (getClientIp quota_request) 0 no_clients).1 = false)
    by (vm_compute; reflexivity).
  assert (H2 : authorized demo_cfg (q_password quota_request) = true) by reflexivity.
  split; [exact H1|]. split; [exact H2|].
  destruct (quota_query_balance demo_host demo_cfg quota_request 0 no_clients one_byte_tree
              H1 H2) as (used & available & Hresp & Hused & Hsum & _).
  assert (Hav : available = max_bucket_size_mb demo_cfg * 1024 * 1024 - used) by lia.
  rewrite Hresp, Hav, Hused. vm_compute. reflexivity.
Defined.

(** C10, the claim as stated fails: the thirty-first quota request of
    a client within one minute, allow-listed password and all, is
    answered with status 429 and no [{used, max, available}]. *)
Lemma quota_query_throttled :
  authorized demo_cfg (q_password quota_request) = true /\
  getClientIp quota_request = "10.0.0.1" /\
  (handleQuota demo_host demo_cfg quota_request 0 (after_requests 29) one_byte_tree).1 =
    {| status := 200; headers := [("Access-Control-Allow-Origin", "*")];
       body := JsonQuota 1 1048576 1048575 |} /\
  (handleQuota demo_host demo_cfg quota_request 0 (after_requests 30) one_byte_tree).1 =
    text_response 429 "Too many requests".
Proof.
  split; [reflexivity|]. split; [reflexivity|].
  split; vm_compute; reflexivity.
Qed.

(** * Further properties of the server and of the upload form *)

(** ** The throttle table *)

(** X1.  A request of one client touches no entry of another client,
    the table never forgets a client (it is never pruned: its clients
    afterwards are the ones it had and the one that asked), and the
    window of the client that asked is open afterwards. *)
Theorem isRateLimited_table (ip : string) (now : Z) (m : gmap string RateEntry) :
  let m' := (isRateLimited ip now m).2 in
  (forall other, other <> ip -> m' !! other = m !! other) /\
  dom m' = {[ip]} ∪ dom m /\
  exists e, m' !! ip = Some e /\ now <= resetAt e.
Proof.
  cbv zeta. split; [intros other Hne; apply isRateLimited_other; congruence|].
  unfold isRateLimited.
  destruct (m !! ip) as [e|] eqn:Hm; [destruct (Z.gtb_spec now (resetAt e))|];
    cbn [snd]; (split; [apply dom_insert_L|]);
    eexists; (split; [apply lookup_insert_eq|]); cbn [resetAt]; unfold RATE_LIMIT_WINDOW; lia.
Qed.

(** ** Directory totals *)

Lemma byte_sum_walk (m : Z) (k : string) (c : node) (es : list (string * node)) :
  byte_sum (Dir m ((k, c) :: es)) = byte_sum c + byte_sum (Dir m es).
Proof. reflexivity. Qed.

Lemma byte_sum_nonneg (n : node) : 0 <= byte_sum n.
Proof.
  induction n as [m c | m es IH |] using node_ind; [apply byte_length_nonneg| |cbn; lia].
  induction es as [|[k c] es IHes]; [cbn; lia|].
  apply Forall_cons in IH as [Hc Hes]. cbn [snd] in Hc.
  rewrite byte_sum_walk. specialize (IHes Hes). lia.
Qed.

Lemma weight_le_byte_sum (n : node) : weight n <= byte_sum n.
Proof.
  induction n as [m c | m es IH |] using node_ind; [cbn; lia| |cbn; lia].
  cbn [weight]. rewrite dir_size_walk.
  induction es as [|[k c] es IHes]; [cbn; lia|].
  apply Forall_cons in IH as [Hc Hes]. cbn [snd] in Hc. specialize (IHes Hes).
  rewrite byte_sum_walk.
  pose proof (byte_sum_nonneg c). pose proof (byte_sum_nonneg (Dir m es)).
  destruct c; cbn [walk_size]; lia.
Qed.

(** X2.  [getDirSize] never reports a negative total and never more
    than the recursive byte sum of the directory; where there is no
    directory it reports zero. *)
Theorem getDirSize_bounds (host : Host) (dirPath : path) (fs : node) :
  0 <= getDirSize host dirPath fs <= directory_bytes (locate host dirPath) fs /\
  (fs_readdir (locate host dirPath) fs = None -> getDirSize host dirPath fs = 0).
Proof.
  rewrite getDirSize_size_at. unfold size_at, directory_bytes, fs_readdir.
  destruct (find (locate host dirPath) fs) as [[m c|m es|]|];
    try (split; [cbn [dir_size]; lia|reflexivity]).
  split; [|discriminate].
  split; [apply dir_size_nonneg|apply (weight_le_byte_sum (Dir m es))].
Qed.

(** ** Uploads that are turned away *)

(** What an accepted request returns, when it returns. *)
Lemma handleUpload_accepted_answer (host : Host) (cfg : Config) (req : UploadRequest)
    (shareId : string) (now : Z) (fs fs' : node) (resp : Response) :
  authorized cfg (up_password req) = true -> up_files req <> [] ->
  getDirSize host (bucket_dir cfg (hashPassword host (default EmptyString (up_password req)))) fs
    + upload_size (up_files req) <= max_bytes cfg ->
  handleUpload host cfg req shareId now fs = Returned resp fs' ->
  resp = {| status := 200; headers := [];
            body := JsonUrl ("/d/" +:+ hashPassword host (default EmptyString (up_password req))
                             +:+ "/" +:+ shareId) |}.
Proof.
  intros Ha Hf Hfit Hrun.
  rewrite (handleUpload_accepted host cfg req shareId now fs Ha Hf Hfit) in Hrun.
  apply bind_returned in Hrun as (? & fs1 & _ & Hrun).
  apply bind_returned in Hrun as (? & fs2 & _ & Hrun).
  apply bind_returned in Hrun as (? & fs3 & _ & Hrun).
  injection Hrun as <- _. reflexivity.
Qed.

(** X3.  An upload that is answered with anything but 200 has written
    nothing: the tree is the one the request found, and the answer is
    401 (no allow-listed password), 400 (no file in the form) or 413
    (the bucket would pass its quota). *)
Theorem rejected_upload_writes_nothing (host : Host) (cfg : Config) (req : UploadRequest)
    (shareId : string) (now : Z) (fs fs' : node) (resp : Response) :
  handleUpload host cfg req shareId now fs = Returned resp fs' ->
  status resp <> 200 ->
  fs' = fs /\ (status resp = 401 \/ status resp = 400 \/ status resp = 413).
Proof.
  intros Hrun Hno.
  destruct (authorized cfg (up_password req)) eqn:Ha.
  2:{ rewrite handleUpload_unauthorized in Hrun by assumption.
      injection Hrun as <- <-. auto. }
  destruct (up_files req) as [|v files] eqn:Hfiles.
  { rewrite handleUpload_no_files in Hrun by assumption.
    injection Hrun as <- <-. auto. }
  assert (Hsome : up_files req <> []) by (rewrite Hfiles; discriminate).
  destruct (Z_le_gt_dec
              (getDirSize host
                 (bucket_dir cfg (hashPassword host (default EmptyString (up_password req)))) fs
               + upload_size (up_files req)) (max_bytes cfg)) as [Hfit|Hover].
  - rewrite (handleUpload_accepted_answer host cfg req shareId now fs fs' resp
               Ha Hsome Hfit Hrun) in Hno.
    cbn [status] in Hno. congruence.
  - rewrite handleUpload_over_quota in Hrun by assumption.
    injection Hrun as <- <-. auto.
Qed.

(** An instance: a request with a password that is not on the list. *)
Lemma rejected_upload_writes_nothing_witness :
  let req := upload_of "guess" [FormFile "a.txt" "hello"] None in
  result_of (handleUpload demo_host demo_cfg req "share009" 5 one_byte_tree)
    = Some (text_response 401 "Unauthorized") /\
  state_of (handleUpload demo_host demo_cfg req "share009" 5 one_byte_tree) = one_byte_tree.
Proof.
  intros req.
  assert (Hrun : handleUpload demo_host demo_cfg req "share009" 5 one_byte_tree
                 = Returned (text_response 401 "Unauthorized") one_byte_tree)
    by (vm_compute; reflexivity).
  assert (Hno : status (text_response 401 "Unauthorized") <> 200) by discriminate.
  destruct (rejected_upload_writes_nothing demo_host demo_cfg req "share009" 5
              one_byte_tree one_byte_tree _ Hrun Hno) as [Hsame _].
  rewrite Hrun. split; [reflexivity|exact Hsame].
Defined.

(** X4.  Whatever the requests of a run of uploads and their file
    names are, no directory of the tree (a bucket, a share, any other
    directory) has its total raised by more than the sizes of the
    uploads of the run. *)
Theorem uploads_raise_no_total_beyond_their_size (host : Host) (cfg : Config)
    (evs : list UploadEvent) (fs : node) (dirPath : path) :
  getDirSize host dirPath (run_uploads host cfg evs fs)
  <= getDirSize host dirPath fs + uploaded_bytes evs.
Proof.
  rewrite !getDirSize_size_at. unfold run_uploads. revert fs.
  induction evs as [|ev evs IH]; intros fs; [cbn; lia|].
  cbn [fold_left uploaded_bytes fold_right].
  pose proof (handleUpload_grows host cfg (ev_request ev) (ev_shareId ev) (ev_now ev)
                (locate host dirPath) fs) as Hstep.
  specialize (IH (state_of (handleUpload host cfg (ev_request ev) (ev_shareId ev) (ev_now ev) fs))).
  fold (uploaded_bytes evs). lia.
Qed.

(** ** Bucket directories *)

Lemma locate_uploads_dir (host : Host) (cfg : Config) :
  locate host (uploads_dir cfg) = locate host (parse_path (data_dir cfg)) ++ ["uploads"].
Proof. unfold uploads_dir. apply (locate_join_plain host _ "uploads" eq_refl). Qed.

(** X5.  The bucket of a password is never empty and is made of the
    characters [0-9a-f] and [-] only, so that, whatever the password
    is, the bucket directory is an entry of the uploads directory. *)
Theorem bucket_is_entry_of_uploads (host : Host) (cfg : Config) (password : string) :
  let bucket := hashPassword host password in
  bucket <> EmptyString /\ all_chars hexish bucket = true /\
  locate host (bucket_dir cfg bucket) = locate host (uploads_dir cfg) ++ [bucket].
Proof.
  intros bucket. pose proof (hashPassword_plain host password) as Hplain. fold bucket in Hplain.
  split; [apply (plain_segment_inv bucket Hplain)|].
  split; [apply substring_0_all_chars, toString16_hexish|].
  rewrite (locate_bucket_dir host cfg bucket Hplain), locate_uploads_dir, <- app_assoc.
  reflexivity.
Qed.

(** ** Downloads *)

(** X6.  A download is answered with 200, 400 or 404; it sets a timer
    only together with a 200, never more than one, and that timer is
    due exactly 1000 ms after the request. *)
Theorem download_answers_and_timers (host : Host) (cfg : Config) (pathname : string)
    (now : Z) (fs : node) :
  let answer := handleDownload host cfg pathname now fs in
  (status answer.1 = 200 /\
   (answer.2 = [] \/ exists shareDir, answer.2 = [{| due := now + 1000; target := shareDir |}]))
  \/ ((status answer.1 = 400 \/ status answer.1 = 404) /\ answer.2 = []).
Proof.
  cbv zeta. unfold handleDownload.
  destruct (List.filter truthy (split_slash pathname)) as [|p0 [|bucket [|shareId rest]]];
    try (right; split; [left; reflexivity|reflexivity]).
  unfold download_share.
  destruct (fs_readdir _ fs) as [allFiles|]; [|right; split; [right; reflexivity|reflexivity]].
  destruct (List.filter _ allFiles) as [|f1 files];
    [right; split; [right; reflexivity|reflexivity]|].
  cbn [length Nat.eqb fst snd]. left. split.
  - destruct files; [destruct (truthy f1)|]; reflexivity.
  - destruct (fs_exists _ fs); [right; eexists; reflexivity|left; reflexivity].
Qed.

Lemma filter_app_bool {A} (f : A -> bool) (xs ys : list A) :
  List.filter f (xs ++ ys) = List.filter f xs ++ List.filter f ys.
Proof.
  induction xs as [|x xs IH]; [reflexivity|].
  cbn [app List.filter]. destruct (f x); cbn [app]; rewrite IH; reflexivity.
Qed.

(** X7.  Whatever follows the share in the path of a download is not
    looked at: [/d/<bucket>/<share>/<anything>] is answered as
    [/d/<bucket>/<share>]. *)
Theorem download_ignores_what_follows_the_share (host : Host) (cfg : Config)
    (bucket shareId extra : string) (now : Z) (fs : node) :
  plain_segment bucket = true -> plain_segment shareId = true ->
  handleDownload host cfg ("/d/" +:+ bucket +:+ "/" +:+ shareId +:+ "/" +:+ extra) now fs
  = handleDownload host cfg ("/d/" +:+ bucket +:+ "/" +:+ shareId) now fs.
Proof.
  intros Hb Hs.
  assert (Hparts : exists rest,
            List.filter truthy
              (split_slash ("/d/" +:+ bucket +:+ "/" +:+ shareId +:+ "/" +:+ extra))
            = "d" :: bucket :: shareId :: rest).
  { unfold split_slash.
    change ("/d/" +:+ bucket +:+ "/" +:+ shareId +:+ "/" +:+ extra)
      with (EmptyString +:+ String slash ("d" +:+ String slash
              (bucket +:+ String slash (shareId +:+ String slash extra)))).
    rewrite !split_on_app.
    change (split_on slash "d") with ["d"].
    change (split_on slash EmptyString) with [EmptyString].
    fold split_slash. rewrite (plain_split _ Hb), (plain_split _ Hs).
    cbn [app List.filter].
    change (truthy EmptyString) with false. change (truthy "d") with true. cbv iota.
    rewrite (plain_truthy _ Hb), (plain_truthy _ Hs). eexists. reflexivity. }
  destruct Hparts as [rest Hparts].
  unfold handleDownload. rewrite Hparts, (split_link bucket shareId Hb Hs). reflexivity.
Qed.

(** An instance: the link of a share with a file name appended. *)
Lemma download_ignores_what_follows_the_share_witness :
  body (handleDownload demo_host demo_cfg "/d/2bcdef012345/share005/a.txt" 50 one_file_tree).1
  = FileBody (Some "hello").
Proof.
  change "/d/2bcdef012345/share005/a.txt"
    with ("/d/" +:+ "2bcdef012345" +:+ "/" +:+ "share005" +:+ "/" +:+ "a.txt").
  rewrite (download_ignores_what_follows_the_share demo_host demo_cfg
             "2bcdef012345" "share005" "a.txt" 50 one_file_tree eq_refl eq_refl).
  vm_compute. reflexivity.
Defined.

(** ** Burn timers *)

Lemma fire_frame (host : Host) (now : Z) (t : Timer) (fs : node) (q : list string) :
  diverge (locate host (target t)) q = true -> find q (fire host now t fs) = find q fs.
Proof.
  intros Hd. unfold fire.
  destruct (fs_rm_recursive now (locate host (target t)) fs) as [fs'|] eqn:Hrm; [|reflexivity].
  unfold fs_rm_recursive in Hrm. eapply alter_at_frame; eauto.
Qed.

(** X8.  The timers that are due only remove: what diverges from the
    share directories of all of them is left as it was, and nothing
    that was absent comes into being.  The timers that are not due yet
    stay pending. *)
Theorem timers_only_remove_their_shares (host : Host) (now : Z) (timers : list Timer)
    (fs : node) (q : list string) :
  (forall t, In t timers -> due t <= now -> diverge (locate host (target t)) q = true) ->
  find q (run_timers host now timers fs).2 = find q fs /\
  (forall p, find p fs = None -> find p (run_timers host now timers fs).2 = None) /\
  (forall t, In t timers -> now < due t -> In t (run_timers host now timers fs).1).
Proof.
  intros Hd. unfold run_timers. cbn [fst snd]. split; [|split].
  - assert (Hdue : forall t, In t (List.filter (fun t => due t <=? now) timers) ->
                             diverge (locate host (target t)) q = true).
    { intros t Hin. apply filter_In in Hin as [Hin Hle]. apply Hd; [exact Hin|].
      apply Z.leb_le, Hle. }
    clear Hd. revert fs.
    induction (List.filter (fun t => due t <=? now) timers) as [|t ts IH]; intros fs;
      [reflexivity|].
    cbn [fold_left]. rewrite IH by (intros t' Hin; apply Hdue; right; exact Hin).
    apply fire_frame, Hdue. left. reflexivity.
  - intros p Hp. apply fire_all_absent, Hp.
  - intros t Hin Hlt. apply filter_In. split; [exact Hin|]. apply Z.ltb_lt, Hlt.
Qed.

(** An instance: the timer of a burned share leaves the other share of
    the bucket in place. *)
Lemma timers_only_remove_their_shares_witness :
  let fs := state_of (handleUpload demo_host demo_cfg burn_request "share006" 0 one_byte_tree) in
  let timers := (handleDownload demo_host demo_cfg "/d/2bcdef012345/share006" 10 fs).2 in
  timers = [{| due := 1010; target := share_dir_of demo_host demo_cfg burn_request "share006" |}] /\
  find ["srv"; "data"; "uploads"; "2bcdef012345"; "share001"]
    (run_timers demo_host 1010 timers fs).2 = Some (Dir 0 [("a", File 0 "x")]) /\
  find ["srv"; "data"; "uploads"; "2bcdef012345"; "share006"]
    (run_timers demo_host 1010 timers fs).2 = None.
Proof.
  intros fs timers.
  assert (Htimers : timers = [{| due := 1010;
                                 target := share_dir_of demo_host demo_cfg burn_request "share006" |}])
    by (vm_compute; reflexivity).
  split; [exact Htimers|].
  assert (Hd : forall t, In t timers -> due t <= 1010 ->
             diverge (locate demo_host (target t))
               ["srv"; "data"; "uploads"; "2bcdef012345"; "share001"] = true).
  { rewrite Htimers. intros t [<-|[]] _. vm_compute. reflexivity. }
  destruct (timers_only_remove_their_shares demo_host 1010 timers fs _ Hd) as (Hsame & _ & _).
  split; [rewrite Hsame; vm_compute; reflexivity|].
  vm_compute. reflexivity.
Defined.

(** ** A change seen from the directory it happens in *)

Lemma get_entry_app (x : string) (es es' : list (string * node)) :
  get_entry x (es ++ es') =
  match get_entry x es with Some n => Some n | None => get_entry x es' end.
Proof.
  induction es as [|[k n] es IH]; [reflexivity|].
  cbn [app get_entry]. destruct (String.eqb k x); [reflexivity|exact IH].
Qed.

Lemma put_entry_fresh (x : string) (r : node) (es : list (string * node)) :
  get_entry x es = None -> put_entry x r es = es ++ [(x, r)].
Proof.
  induction es as [|[k n] es IH]; [reflexivity|].
  cbn [get_entry put_entry app]. destruct (String.eqb k x); [discriminate|].
  intros H. rewrite (IH H). reflexivity.
Qed.

Lemma get_entry_unlisted (x : string) (es : list (string * node)) :
  ~ In x (map fst es) -> get_entry x es = None.
Proof.
  intros H. destruct (get_entry x es) as [n|] eqn:Hg; [|reflexivity].
  destruct H. eapply get_entry_listed, Hg.
Qed.

Section Focus.

Context (now : Z) (create : bool) (act : option node -> leaf_result).

(** A change below a directory that exists is a change of that
    directory, put back in its place. *)
Lemma alter_at_focus (p : list string) :
  forall q n n' d, q <> [] -> find p n = Some d ->
  alter_at now create act (p ++ q) n = Some n' ->
  exists d', alter_at now create act q d = Some d' /\ find p n' = Some d'.
Proof.
  induction p as [|x p IH]; intros q n n' d Hq Hf Ha.
  - cbn in Hf. injection Hf as <-. exists n'. split; [exact Ha|reflexivity].
  - destruct n as [| m es |]; try discriminate. cbn [find] in Hf.
    destruct (get_entry x es) as [c|] eqn:Hg; [|discriminate].
    cbn [app] in Ha.
    destruct (p ++ q) as [|y r] eqn:Hpq; [apply app_eq_nil in Hpq as [_ ?]; congruence|].
    rewrite alter_at_inner, Hg in Ha.
    destruct (alter_at now create act (y :: r) c) as [c'|] eqn:Hc; [|discriminate].
    injection Ha as <-. rewrite <- Hpq in Hc.
    destruct (IH q c c' d Hq Hf Hc) as (d' & Hd' & Hfind).
    exists d'. split; [exact Hd'|]. cbn [find]. rewrite get_put_same. exact Hfind.
Qed.

End Focus.

Section Fresh.

Context (now : Z) (act : option node -> leaf_result).
Hypothesis act_no_remove : forall found, act found <> Remove.

(** Where nothing was, a creating change leaves what its action makes
    of nothing. *)
Lemma alter_at_fresh (p : list string) :
  forall n n', find p n = None -> alter_at now true act p n = Some n' ->
  exists r, act None = Leave r /\ find p n' = Some r.
Proof.
  induction p as [|x p IH]; intros n n' Hf Ha; [discriminate|].
  destruct n as [| m es |]; try discriminate.
  destruct p as [|y p].
  - cbn [find] in Hf. rewrite alter_at_last in Ha.
    destruct (get_entry x es) as [c|] eqn:Hg; [discriminate|].
    destruct (act None) as [r| |] eqn:Hact; [|destruct (act_no_remove _ Hact)|discriminate].
    injection Ha as <-. exists r. split; [reflexivity|].
    cbn [find]. rewrite get_put_same. reflexivity.
  - rewrite alter_at_inner in Ha.
    change (find (x :: y :: p) (Dir m es))
      with (match get_entry x es with Some c => find (y :: p) c | None => None end) in Hf.
    destruct (get_entry x es) as [c|] eqn:Hg.
    + destruct (alter_at now true act (y :: p) c) as [c'|] eqn:Hc; [|discriminate].
      injection Ha as <-. destruct (IH c c' Hf Hc) as (r & Hr & Hfind).
      exists r. split; [exact Hr|].
      change (find (x :: y :: p) (Dir m (put_entry x c' es)))
        with (match get_entry x (put_entry x c' es) with
              | Some c => find (y :: p) c | None => None end).
      rewrite get_put_same. exact Hfind.
    + destruct (alter_at now true act (y :: p) (Dir now [])) as [c'|] eqn:Hc; [|discriminate].
      injection Ha as <-. destruct (IH (Dir now []) c' eq_refl Hc) as (r & Hr & Hfind).
      exists r. split; [exact Hr|].
      change (find (x :: y :: p) (Dir now (put_entry x c' es)))
        with (match get_entry x (put_entry x c' es) with
              | Some c => find (y :: p) c | None => None end).
      rewrite get_put_same. exact Hfind.
Qed.

End Fresh.

(** Writing a file under a new name in a directory that exists adds the
    file at the end of the listing. *)
Lemma write_new_entry (now : Z) (dir : list string) (name data : string) (fs fs' : node)
    (m : Z) (es : list (string * node)) :
  find dir fs = Some (Dir m es) -> get_entry name es = None ->
  fs_write now (dir ++ [name]) data fs = Some fs' ->
  find dir fs' = Some (Dir now (es ++ [(name, File now data)])).
Proof.
  intros Hdir Hnew Hw. unfold fs_write in Hw.
  destruct (alter_at_focus now true _ dir [name] fs fs' _ ltac:(discriminate) Hdir Hw)
    as (d' & Hd' & Hfind).
  rewrite alter_at_last, Hnew in Hd'. injection Hd' as <-.
  rewrite Hfind, (put_entry_fresh _ _ _ Hnew). reflexivity.
Qed.

Lemma mkdir_new (now : Z) (p : list string) (fs fs' : node) :
  find p fs = None -> fs_mkdir_p now p fs = Some fs' -> find p fs' = Some (Dir now []).
Proof.
  intros Hf Hm. unfold fs_mkdir_p in Hm.
  destruct p as [|x p]; [discriminate|].
  match type of Hm with
  | alter_at _ _ ?act _ _ = _ => pose proof (alter_at_fresh now act) as Hfresh
  end.
  destruct (Hfresh ltac:(intros [[| |]|]; discriminate) (x :: p) fs fs' Hf Hm)
    as (r & Hr & Hfind).
  injection Hr as <-. exact Hfind.
Qed.

(** ** The share an upload leaves *)

Section SavedListing.

Context (host : Host) (now : Z) (shareDir : path).

Lemma save_files_listing (files : list (string * string)) :
  forall fs fs' u es,
  find (locate host shareDir) fs = Some (Dir now es) ->
  Forall (fun f => plain_segment f.1 = true) files ->
  NoDup (map fst files) ->
  (forall f, In f files -> get_entry f.1 es = None) ->
  for_of (map (fun f => FormFile f.1 f.2) files) (save_file host now shareDir) fs
    = Returned u fs' ->
  find (locate host shareDir) fs' =
  Some (Dir now (es ++ map (fun f => (f.1, File now f.2)) files)).
Proof.
  induction files as [|[name c] files IH]; intros fs fs' u es Hdir Hplain Hnd Hnew Hrun.
  - cbn in Hrun. injection Hrun as _ <-. cbn [map]. rewrite app_nil_r. exact Hdir.
  - cbn [map fst snd] in *. rewrite for_of_cons in Hrun.
    destruct (save_file host now shareDir (FormFile name c) fs) as [[] mid|mid] eqn:Hv;
      [|discriminate].
    apply Forall_cons in Hplain as [Hname Hplain]. cbn [fst] in Hname.
    apply NoDup_cons in Hnd as [Hfresh Hnd].
    cbn [save_file] in Hv. apply writing_returned in Hv.
    rewrite (locate_join_plain host shareDir name Hname) in Hv.
    pose proof (write_new_entry now _ name c fs mid now es Hdir
                  (Hnew (name, c) (or_introl eq_refl)) Hv) as Hmid.
    rewrite (IH mid fs' u _ Hmid Hplain Hnd); [|  |exact Hrun].
    + rewrite <- app_assoc. reflexivity.
    + intros f Hin. rewrite get_entry_app, (Hnew f (or_intror Hin)).
      cbn [get_entry]. destruct (String.eqb_spec name f.1) as [Heq|_]; [|reflexivity].
      exfalso. apply Hfresh. rewrite list_elem_of_In, Heq. apply in_map, Hin.
Qed.

End SavedListing.

Lemma saved_entries_names (now : Z) (files : list (string * string)) (burn : bool) :
  map fst (saved_entries now files burn) = map fst files ++ (if burn then [".burn"] else []).
Proof.
  unfold saved_entries. rewrite map_app, map_map. cbn [fst].
  destruct burn; reflexivity.
Qed.

Lemma get_saved_entry (now : Z) (files : list (string * string)) (burn : bool)
    (f : string * string) :
  NoDup (map fst files) -> Forall (fun f => f.1 <> ".burn") files -> In f files ->
  get_entry f.1 (saved_entries now files burn) = Some (File now f.2).
Proof.
  intros Hnd Hnames Hin. apply get_entry_in.
  - rewrite saved_entries_names. destruct burn; [|rewrite app_nil_r; exact Hnd].
    apply NoDup_app. split; [exact Hnd|]. split; [|apply NoDup_singleton].
    intros x Hx Hb. apply list_elem_of_In in Hx, Hb. destruct Hb as [<-|[]].
    apply in_map_iff in Hx as (g & Hg & Hgin).
    rewrite List.Forall_forall in Hnames. apply (Hnames g Hgin Hg).
  - unfold saved_entries. apply in_or_app. left.
    apply (in_map (fun f => (f.1, File now f.2))), Hin.
Qed.

Lemma get_saved_marker (now : Z) (files : list (string * string)) (burn : bool) :
  Forall (fun f => f.1 <> ".burn") files ->
  get_entry ".burn" (saved_entries now files burn) =
  if burn then Some (File now EmptyString) else None.
Proof.
  intros Hnames. unfold saved_entries. rewrite get_entry_app.
  rewrite get_entry_unlisted.
  - destruct burn; reflexivity.
  - rewrite map_map. cbn [fst]. intros Hin. apply in_map_iff in Hin as (g & Hg & Hgin).
    rewrite List.Forall_forall in Hnames. apply (Hnames g Hgin Hg).
Qed.

Section RoundTrip.

Context (host : Host) (cfg : Config).

(** The share directory after an upload into a place where nothing was:
    the files in the order of the form, then the marker if the form
    asked for one. *)
Lemma handleUpload_listing (req : UploadRequest) (files : list (string * string))
    (shareId : string) (now : Z) (fs fs' : node) (resp : Response) :
  up_files req = map (fun f => FormFile f.1 f.2) files ->
  Forall (fun f => plain_segment f.1 = true /\ f.1 <> ".burn") files ->
  NoDup (map fst files) ->
  find (locate host (share_dir_of host cfg req shareId)) fs = None ->
  handleUpload host cfg req shareId now fs = Returned resp fs' -> status resp = 200 ->
  find (locate host (share_dir_of host cfg req shareId)) fs' =
  Some (Dir now (saved_entries now files (strictly_equals (up_burn req) "true"))).
Proof.
  intros Hfiles Hnames Hnd Hfree Hrun Hok.
  destruct (handleUpload_ok_accepted host cfg req shareId now fs fs' resp Hrun Hok)
    as (Ha & Hf & Hfit).
  rewrite (handleUpload_accepted host cfg req shareId now fs Ha Hf Hfit) in Hrun.
  set (shareDir := share_dir_of host cfg req shareId) in *.
  apply bind_returned in Hrun as (? & fs1 & Hmk & Hrun).
  apply bind_returned in Hrun as (? & fs2 & Hsave & Hrun).
  apply bind_returned in Hrun as (? & fs3 & Hburn & Hrun).
  injection Hrun as _ <-.
  apply writing_returned in Hmk. apply (mkdir_new _ _ _ _ Hfree) in Hmk.
  assert (Hplain : Forall (fun f : string * string => plain_segment f.1 = true) files).
  { eapply List.Forall_impl; [|exact Hnames]. intros f [H _]. exact H. }
  assert (Hnb : Forall (fun f : string * string => f.1 <> ".burn") files).
  { eapply List.Forall_impl; [|exact Hnames]. intros f [_ H]. exact H. }
  rewrite Hfiles in Hsave.
  pose proof (save_files_listing host now shareDir files fs1 fs2 _ [] Hmk Hplain Hnd
                ltac:(reflexivity) Hsave) as Hdir.
  cbn [app] in Hdir. unfold saved_entries.
  destruct (strictly_equals (up_burn req) "true").
  - apply writing_returned in Hburn.
    rewrite (locate_join_plain host shareDir ".burn" eq_refl) in Hburn.
    apply (write_new_entry now _ ".burn" EmptyString fs2 fs3 now _ Hdir); [|exact Hburn].
    apply get_entry_unlisted. rewrite map_map. cbn [fst]. intros Hin.
    apply in_map_iff in Hin as (g & Hg & Hgin).
    rewrite List.Forall_forall in Hnb. apply (Hnb g Hgin Hg).
  - injection Hburn as _ <-. rewrite app_nil_r. exact Hdir.
Qed.

(** What a download answers for a share directory that holds what an
    upload left. *)
Lemma download_share_saved (shareDir : path) (shareId : string) (files : list (string * string))
    (burn : bool) (m now now' : Z) (fs : node) :
  files <> [] ->
  Forall (fun f => plain_segment f.1 = true /\ f.1 <> ".burn") files ->
  NoDup (map fst files) ->
  find (locate host shareDir) fs = Some (Dir m (saved_entries now files burn)) ->
  let answer := download_share host shareDir shareId now' fs in
  status answer.1 = 200 /\
  body answer.1 = match files with
                  | [f] => FileBody (Some f.2)
                  | _ => ZipBody (map (fun f => (f.1, Some f.2)) files)
                  end /\
  answer.2 = if burn then [{| due := now' + 1000; target := shareDir |}] else [].
Proof.
  intros Hsome Hnames Hnd Hdir.
  assert (Hplain : Forall (fun f : string * string => plain_segment f.1 = true) files).
  { eapply List.Forall_impl; [|exact Hnames]. intros f [H _]. exact H. }
  assert (Hnb : Forall (fun f : string * string => f.1 <> ".burn") files).
  { eapply List.Forall_impl; [|exact Hnames]. intros f [_ H]. exact H. }
  assert (Hread : forall f, In f files ->
            fs_read (locate host (join shareDir [f.1])) fs = Some f.2).
  { intros f Hin. rewrite List.Forall_forall in Hplain.
    rewrite (read_listed host shareDir fs m _ f.1 Hdir (Hplain f Hin)).
    rewrite (get_saved_entry now files burn f Hnd Hnb Hin). reflexivity. }
  assert (Hlist : List.filter (fun f => negb (String.eqb f ".burn"))
                    (map fst (saved_entries now files burn)) = map fst files).
  { rewrite saved_entries_names, filter_app_bool.
    replace (List.filter _ (if burn then [".burn"] else [])) with (@nil string)
      by (destruct burn; reflexivity).
    rewrite app_nil_r. clear -Hnb.
    induction files as [|f files IH]; [reflexivity|].
    apply Forall_cons in Hnb as [Hf Hrest]. cbn [map List.filter].
    destruct (String.eqb_spec f.1 ".burn"); [congruence|].
    cbn [negb]. rewrite (IH Hrest). reflexivity. }
  assert (Hmark : fs_exists (locate host (join shareDir [".burn"])) fs = burn).
  { unfold fs_exists. rewrite (locate_join_plain host shareDir ".burn" eq_refl), find_app, Hdir.
    cbn [find]. rewrite (get_saved_marker now files burn Hnb). destruct burn; reflexivity. }
  assert (Hzip : map (fun filename =>
                        (filename, fs_read (locate host (join shareDir [filename])) fs))
                   (map fst files)
                 = map (fun f => (f.1, Some f.2)) files).
  { rewrite map_map. apply map_ext_in. intros f Hin. cbn [fst]. rewrite (Hread f Hin).
    reflexivity. }
  cbv zeta. unfold download_share, fs_readdir. rewrite Hdir, Hlist, Hmark, Hzip.
  destruct files as [|f1 [|f2 files]]; [congruence| |].
  - cbn [map length Nat.eqb fst snd].
    apply Forall_cons in Hplain as [Hf1 _]. rewrite (plain_truthy _ Hf1).
    cbn [status body]. rewrite (Hread f1 (or_introl eq_refl)). auto.
  - cbn [map length Nat.eqb fst snd status body]. auto.
Qed.

End RoundTrip.



(** ** What the sweep leaves alone *)

Lemma del_entry_keys (x : string) (es : list (string * node)) :
  incl (map fst (del_entry x es)) (map fst es).
Proof.
  induction es as [|[k n] es IH]; [intros y []|].
  cbn [del_entry]. destruct (String.eqb k x); cbn [map fst].
  - apply incl_tl, IH.
  - apply incl_cons; [left; reflexivity|apply incl_tl, IH].
Qed.

Lemma put_entry_keys (x : string) (c c' : node) (es : list (string * node)) :
  get_entry x es = Some c -> map fst (put_entry x c' es) = map fst es.
Proof.
  induction es as [|[k n] es IH]; [discriminate|].
  cbn [get_entry put_entry]. destruct (String.eqb k x); cbn [map fst]; [reflexivity|].
  intros H. rewrite (IH H). reflexivity.
Qed.

Section Shrinks.

Context (now : Z) (act : option node -> leaf_result).
Hypothesis act_no_leave : forall found r, act found <> Leave r.

(** After a change that only removes, every directory lists names it
    listed before. *)
Lemma alter_at_listing (q : list string) :
  forall p n n' m' es', alter_at now false act p n = Some n' ->
  find q n' = Some (Dir m' es') ->
  exists m es, find q n = Some (Dir m es) /\ incl (map fst es') (map fst es).
Proof.
  induction q as [|y q IH]; intros p n n' m' es' Ha Hq.
  - cbn [find] in Hq. injection Hq as ->.
    destruct p as [|x p]; [discriminate|].
    destruct n as [| m es |]; try discriminate.
    exists m, es. split; [reflexivity|].
    destruct p as [|x2 p].
    + rewrite alter_at_last in Ha.
      destruct (act (get_entry x es)) as [r| |] eqn:Hact;
        [destruct (act_no_leave _ _ Hact)| |discriminate].
      injection Ha as _ <-. apply del_entry_keys.
    + rewrite alter_at_inner in Ha.
      destruct (get_entry x es) as [c|] eqn:Hg; [|discriminate].
      destruct (alter_at now false act (x2 :: p) c) as [c'|]; [|discriminate].
      injection Ha as _ <-. rewrite (put_entry_keys x c c' es Hg). apply incl_refl.
  - destruct p as [|x p]; [discriminate|].
    destruct n as [| m es |]; try discriminate.
    destruct (String.eqb_spec x y) as [<-|Hne].
    + destruct p as [|x2 p].
      * rewrite alter_at_last in Ha.
        destruct (act (get_entry x es)) as [r| |] eqn:Hact;
          [destruct (act_no_leave _ _ Hact)| |discriminate].
        injection Ha as <-. cbn [find] in Hq. rewrite get_del_same in Hq. discriminate.
      * rewrite alter_at_inner in Ha.
        destruct (get_entry x es) as [c|] eqn:Hg; [|discriminate].
        destruct (alter_at now false act (x2 :: p) c) as [c'|] eqn:Hc; [|discriminate].
        injection Ha as <-. cbn [find] in Hq. rewrite get_put_same in Hq.
        cbn [find]. rewrite Hg. eapply IH; eauto.
    + rewrite (alter_at_frame now false act (x :: p) (y :: q) (Dir m es) n') in Hq;
        [|cbn [diverge]; destruct (String.eqb_spec x y); [congruence|reflexivity]|exact Ha].
      exists m', es'. split; [exact Hq|apply incl_refl].
Qed.

End Shrinks.

Lemma rm_recursive_listed_plain (now : Z) (p d : list string) (fs fs' : node) :
  fs_rm_recursive now p fs = Some fs' -> listed_plain d fs -> listed_plain d fs'.
Proof.
  intros Hrm Hd names Hlist. unfold fs_readdir in Hlist.
  destruct (find d fs') as [[| m' es' |]|] eqn:Hf; try discriminate.
  injection Hlist as <-.
  unfold fs_rm_recursive in Hrm.
  match type of Hrm with
  | alter_at _ _ ?act _ _ = _ => pose proof (alter_at_listing now act) as Hshrinks
  end.
  destruct (Hshrinks ltac:(intros [?|] r; discriminate) d p fs fs' m' es' Hrm Hf)
    as (m & es & Hfs & Hincl).
  specialize (Hd (map fst es)). unfold fs_readdir in Hd. rewrite Hfs in Hd.
  specialize (Hd eq_refl). rewrite List.Forall_forall in *.
  intros x Hx. apply Hd, Hincl, Hx.
Qed.

Lemma rm_recursive_well_named (now : Z) (p uploads : list string) (fs fs' : node) :
  fs_rm_recursive now p fs = Some fs' -> well_named uploads fs -> well_named uploads fs'.
Proof.
  intros Hrm [Hu Hb]. split.
  - eapply rm_recursive_listed_plain; eauto.
  - intros b Hplain. eapply rm_recursive_listed_plain; eauto.
Qed.

Lemma diverge_or_same (b s b' s' : string) (c : list string) :
  diverge (c ++ [b'; s']) (c ++ [b; s]) = true \/ (b' = b /\ s' = s).
Proof.
  rewrite diverge_common. cbn [diverge].
  destruct (String.eqb_spec b' b) as [->|]; [|left; reflexivity].
  destruct (String.eqb_spec s' s) as [->|]; [right; split; reflexivity|left; reflexivity].
Qed.

Section SweepKeeps.

Context (host : Host) (cfg : Config) (now : Z).

#[local] Abbreviation ttl := (share_ttl_days cfg * 24 * HOUR_MS).
#[local] Abbreviation up := (locate host (uploads_dir cfg)).

(** The location [q] is one the sweep at [fs0] has no reason to touch:
    every share directory diverges from it, or is [q] itself and is not
    older than the time to live. *)
Context (fs0 : node) (q : list string).
Hypothesis q_safe : forall b s,
  plain_segment b = true -> plain_segment s = true ->
  diverge (up ++ [b; s]) q = true \/
  (up ++ [b; s] = q /\
   forall st, fs_stat q fs0 = Some st -> now - st_mtimeMs st <= ttl).

#[local] Abbreviation sweep_keeps := (kept_by_sweep up q fs0).

Lemma sweep_share_keeps (b s : string) (fs : node) :
  plain_segment b = true -> plain_segment s = true -> sweep_keeps fs ->
  sweep_keeps (state_of (sweep_share host now ttl (join (uploads_dir cfg) [b]) s fs)).
Proof.
  intros Hb Hs [Hwn Hq]. unfold sweep_share, try_catch, bind, reading.
  rewrite (locate_join_plain host _ s Hs), (locate_join_plain host _ b Hb), <- app_assoc.
  cbn [app].
  destruct (fs_stat (up ++ [b; s]) fs) as [st|] eqn:Hst; [|split; assumption].
  destruct (Z.gtb_spec (now - st_mtimeMs st) ttl) as [Hold|_]; [|split; assumption].
  unfold writing.
  destruct (fs_rm_recursive now (up ++ [b; s]) fs) as [fs'|] eqn:Hrm; [|split; assumption].
  cbn [ret state_of]. split; [eapply rm_recursive_well_named; eauto|].
  rewrite <- Hq. destruct (q_safe b s Hb Hs) as [Hd|[Heq Hyoung]].
  - unfold fs_rm_recursive in Hrm. eapply alter_at_frame; eauto.
  - exfalso. rewrite Heq in Hst. unfold fs_stat in Hst, Hyoung. rewrite Hq in Hst.
    specialize (Hyoung st Hst). lia.
Qed.

Lemma sweep_bucket_keeps (b : string) (fs : node) :
  plain_segment b = true -> sweep_keeps fs ->
  sweep_keeps (state_of (sweep_bucket host now ttl (uploads_dir cfg) b fs)).
Proof.
  intros Hb Hkeep. unfold sweep_bucket. unfold bind at 1. unfold reading at 1.
  destruct (fs_readdir (locate host (join (uploads_dir cfg) [b])) fs) as [shares|] eqn:Hlist;
    [|exact Hkeep].
  assert (Hplain : Forall (fun s => plain_segment s = true) shares).
  { destruct Hkeep as [[_ Hwn] _]. apply (Hwn b Hb).
    rewrite <- (locate_join_plain host _ b Hb). exact Hlist. }
  assert (Hloop : sweep_keeps
            (state_of (for_of shares (sweep_share host now ttl (join (uploads_dir cfg) [b])) fs))).
  { clear Hlist. revert fs Hkeep.
    apply (respects_for_of (fun a c => sweep_keeps a -> sweep_keeps c)); [auto|auto|].
    intros s Hin fs Hkeep. rewrite List.Forall_forall in Hplain.
    apply sweep_share_keeps; auto. }
  unfold bind at 1.
  destruct (for_of shares _ fs) as [[] fs1|fs1]; cbn [state_of] in Hloop; [|exact Hloop].
  unfold bind, reading, fs_readdir.
  destruct (find (locate host (join (uploads_dir cfg) [b])) fs1) as [[| m es |]|] eqn:Hf;
    try exact Hloop.
  destruct es as [|e es]; cbn [map length Nat.eqb]; [|exact Hloop].
  unfold writing. rewrite (fs_rm_directory now _ fs1 m [] Hf). exact Hloop.
Qed.

Lemma cleanup_keeps (fs : node) :
  sweep_keeps fs -> sweep_keeps (state_of (cleanupExpiredShares host cfg now fs)).
Proof.
  intros Hkeep. unfold cleanupExpiredShares, try_catch.
  assert (Hrun : sweep_keeps
            (state_of ((let* buckets := reading (fs_readdir up) in
                        for_of buckets (sweep_bucket host now ttl (uploads_dir cfg))) fs))).
  { unfold bind, reading.
    destruct (fs_readdir up fs) as [buckets|] eqn:Hlist; [|exact Hkeep].
    assert (Hplain : Forall (fun s => plain_segment s = true) buckets).
    { destruct Hkeep as [[Hwn _] _]. apply Hwn, Hlist. }
    clear Hlist. revert fs Hkeep.
    apply (respects_for_of (fun a c => sweep_keeps a -> sweep_keeps c)); [auto|auto|].
    intros b Hin fs Hkeep. rewrite List.Forall_forall in Hplain.
    apply sweep_bucket_keeps; auto. }
  destruct (bind _ _ fs) as [[] fs'|fs']; exact Hrun.
Qed.

End SweepKeeps.

(** X10.  The sweep never deletes a share that is not older than the
    time to live.  In a tree whose bucket and share names are names a
    directory can hold, a share directory that cannot be examined, or
    whose last modification is at most [share_ttl_days] old, is after
    the sweep exactly what it was, with everything it holds, whatever
    else the sweep deletes and wherever it stops. *)
Theorem sweep_spares_young_shares (host : Host) (cfg : Config) (now : Z) (fs : node)
    (bucket shareId : string) :
  let sharePath := locate host (uploads_dir cfg) ++ [bucket; shareId] in
  well_named (locate host (uploads_dir cfg)) fs ->
  plain_segment bucket = true -> plain_segment shareId = true ->
  (forall st, fs_stat sharePath fs = Some st ->
     now - st_mtimeMs st <= share_ttl_days cfg * 24 * HOUR_MS) ->
  find sharePath (state_of (cleanupExpiredShares host cfg now fs)) = find sharePath fs.
Proof.
  intros sharePath Hwn Hb Hs Hyoung.
  apply (cleanup_keeps host cfg now fs sharePath); [|split; [exact Hwn|reflexivity]].
  intros b s _ _. destruct (diverge_or_same bucket shareId b s (locate host (uploads_dir cfg)))
    as [Hd|[-> ->]]; [left; exact Hd|right; split; [reflexivity|exact Hyoung]].
Qed.

Lemma get_entry_member (k : string) (es : list (string * node)) (n : node) :
  get_entry k es = Some n -> In (k, n) es.
Proof.
  induction es as [|[k0 n0] es IH]; cbn [get_entry]; [discriminate|].
  destruct (String.eqb_spec k0 k) as [->|]; [intros [= ->]; left; reflexivity|right; auto].
Qed.

(** A way to see that a tree is well named: by its uploads directory. *)
Lemma well_named_at (uploads : list string) (fs : node) (m : Z)
    (buckets : list (string * node)) :
  find uploads fs = Some (Dir m buckets) ->
  Forall (fun e => plain_segment e.1 = true /\
                   match e.2 with
                   | Dir _ shares => forallb plain_segment (map fst shares) = true
                   | _ => True
                   end) buckets ->
  well_named uploads fs.
Proof.
  intros Hup Hall. rewrite List.Forall_forall in Hall. split.
  - intros names H. unfold fs_readdir in H. rewrite Hup in H. injection H as <-.
    apply List.Forall_forall. intros x Hx. apply in_map_iff in Hx as (e & <- & He).
    apply (Hall e He).
  - intros b _ names H. unfold fs_readdir in H. rewrite find_app, Hup in H. cbn [find] in H.
    destruct (get_entry b buckets) as [[| m' shares |]|] eqn:Hg; try discriminate.
    injection H as <-. apply get_entry_member in Hg.
    destruct (Hall _ Hg) as [_ Hshares]. cbn [snd] in Hshares.
    apply List.Forall_forall. intros x Hx.
    rewrite forallb_forall in Hshares. apply Hshares, Hx.
Qed.

Lemma mixed_bucket_tree_well_named :
  well_named (locate demo_host (uploads_dir demo_cfg)) mixed_bucket_tree.
Proof.
  eapply well_named_at; [vm_compute; reflexivity|].
  repeat constructor.
Qed.

(** An instance: the share modified one hour before the sweep stays,
    next to an old share that goes. *)
Lemma sweep_spares_young_shares_witness :
  let fs' := state_of (cleanupExpiredShares demo_host demo_cfg sweep_time mixed_bucket_tree) in
  find ["srv"; "data"; "uploads"; "aaaaaaaaaaaa"; "share003"] fs'
    = Some (Dir 601200001 [("b.txt", File 601200001 "world")]) /\
  find ["srv"; "data"; "uploads"; "aaaaaaaaaaaa"; "share002"] fs' = None.
Proof.
  intros fs'. split; [|vm_compute; reflexivity].
  assert (Hyoung : forall st,
            fs_stat (locate demo_host (uploads_dir demo_cfg) ++ ["aaaaaaaaaaaa"; "share003"])
              mixed_bucket_tree = Some st ->
            sweep_time - st_mtimeMs st <= share_ttl_days demo_cfg * 24 * HOUR_MS).
  { intros st H. vm_compute in H. injection H as <-. vm_compute. discriminate. }
  pose proof (sweep_spares_young_shares demo_host demo_cfg sweep_time mixed_bucket_tree
                "aaaaaaaaaaaa" "share003" mixed_bucket_tree_well_named eq_refl eq_refl Hyoung)
    as Hkept.
  change (locate demo_host (uploads_dir demo_cfg) ++ ["aaaaaaaaaaaa"; "share003"])
    with ["srv"; "data"; "uploads"; "aaaaaaaaaaaa"; "share003"] in Hkept.
  unfold fs'. rewrite Hkept. reflexivity.
Defined.

(** X11.  The sweep stays inside the uploads directory.  In a tree
    whose bucket and share names are names a directory can hold,
    whatever lies beside the uploads directory (the configuration, the
    files of the front end, anything else on the disk) is after the
    sweep exactly what it was. *)
Theorem sweep_stays_in_uploads (host : Host) (cfg : Config) (now : Z) (fs : node)
    (q : list string) :
  well_named (locate host (uploads_dir cfg)) fs ->
  diverge (locate host (uploads_dir cfg)) q = true ->
  find q (state_of (cleanupExpiredShares host cfg now fs)) = find q fs.
Proof.
  intros Hwn Hd.
  apply (cleanup_keeps host cfg now fs q); [|split; [exact Hwn|reflexivity]].
  intros b s _ _. left. apply diverge_app_l, Hd.
Qed.

Lemma site_tree_well_named : well_named (locate demo_host (uploads_dir demo_cfg)) site_tree.
Proof.
  eapply well_named_at; [vm_compute; reflexivity|].
  repeat constructor.
Qed.

(** An instance: the sweep deletes the old share of [site_tree] and
    leaves the files of the front end in place. *)
Lemma sweep_stays_in_uploads_witness :
  let fs' := state_of (cleanupExpiredShares demo_host demo_cfg sweep_time site_tree) in
  find ["srv"; "dist"] fs' = find ["srv"; "dist"] site_tree /\
  find ["srv"; "data"; "uploads"; "aaaaaaaaaaaa"; "share00a"] fs' = None.
Proof.
  intros fs'. split; [|vm_compute; reflexivity].
  apply (sweep_stays_in_uploads demo_host demo_cfg sweep_time site_tree ["srv"; "dist"]
           site_tree_well_named).
  vm_compute. reflexivity.
Defined.

(** ** The total of a bucket after an upload *)

Lemma put_entry_last (x : string) (c c' : node) (es : list (string * node)) :
  get_entry x es = None -> put_entry x c' (es ++ [(x, c)]) = es ++ [(x, c')].
Proof.
  induction es as [|[k n] es IH]; cbn [get_entry put_entry app].
  - rewrite String.eqb_refl. reflexivity.
  - destruct (String.eqb k x); [discriminate|]. intros H. rewrite (IH H). reflexivity.
Qed.

Lemma examinable_entries (m : Z) (es : list (string * node)) :
  examinable (Dir m es) = true -> Forall (fun e => e.2 <> Dangling) es.
Proof.
  induction es as [|[k c] es IH]; [constructor|].
  change (examinable (Dir m ((k, c) :: es))) with (examinable c && examinable (Dir m es)).
  intros H. apply andb_true_iff in H as [Hc Hes].
  constructor; [cbn [snd]; intros ->; discriminate Hc|apply IH, Hes].
Qed.

Lemma walk_size_app (es es' : list (string * node)) :
  Forall (fun e => e.2 <> Dangling) es ->
  walk_size (es ++ es') = walk_size es + walk_size es'.
Proof.
  induction es as [|[k c] es IH]; intros H; [cbn [app walk_size]; lia|].
  apply Forall_cons in H as [Hc Hes]. cbn [snd] in Hc. specialize (IH Hes).
  destruct c; cbn [app walk_size]; [lia|lia|congruence].
Qed.

Lemma walk_size_saved (now : Z) (files : list (string * string)) (burn : bool) :
  walk_size (saved_entries now files burn)
  = upload_size (map (fun f => FormFile f.1 f.2) files).
Proof.
  unfold saved_entries. induction files as [|[name c] files IH].
  - destruct burn; reflexivity.
  - cbn [map app fst snd]. rewrite upload_size_cons. cbn [walk_size weight].
    rewrite IH. reflexivity.
Qed.

Section FreshFocus.

Context (now : Z) (act : option node -> leaf_result).

(** A creating change below a place where nothing was makes a
    directory there and goes on inside it. *)
Lemma alter_at_fresh_focus (p : list string) :
  forall q n n', p <> [] -> q <> [] -> find p n = None ->
  alter_at now true act (p ++ q) n = Some n' ->
  exists d', alter_at now true act q (Dir now []) = Some d' /\ find p n' = Some d'.
Proof.
  induction p as [|x p IH]; intros q n n' Hp Hq Hf Ha; [congruence|].
  destruct n as [| m es |]; try discriminate.
  cbn [app] in Ha.
  destruct (p ++ q) as [|y r] eqn:Hpq; [apply app_eq_nil in Hpq as [_ ?]; congruence|].
  rewrite alter_at_inner in Ha.
  destruct p as [|x2 p].
  - cbn [app] in Hpq. subst q. cbn [find] in Hf.
    destruct (get_entry x es) as [c|] eqn:Hg; [discriminate|].
    destruct (alter_at now true act (y :: r) (Dir now [])) as [c'|] eqn:Hc; [|discriminate].
    injection Ha as <-. exists c'. split; [reflexivity|].
    cbn [find]. rewrite get_put_same. reflexivity.
  - change (find (x :: x2 :: p) (Dir m es))
      with (match get_entry x es with Some c => find (x2 :: p) c | None => None end) in Hf.
    rewrite <- Hpq in Ha.
    destruct (get_entry x es) as [c|] eqn:Hg.
    + destruct (alter_at now true act ((x2 :: p) ++ q) c) as [c'|] eqn:Hc; [|discriminate].
      injection Ha as <-.
      destruct (IH q c c' ltac:(discriminate) Hq Hf Hc) as (d' & Hd' & Hfind).
      exists d'. split; [exact Hd'|].
      change (find (x :: x2 :: p) (Dir m (put_entry x c' es)))
        with (match get_entry x (put_entry x c' es) with
              | Some c => find (x2 :: p) c | None => None end).
      rewrite get_put_same. exact Hfind.
    + destruct (alter_at now true act ((x2 :: p) ++ q) (Dir now [])) as [c'|] eqn:Hc;
        [|discriminate].
      injection Ha as <-.
      destruct (IH q (Dir now []) c' ltac:(discriminate) Hq eq_refl Hc) as (d' & Hd' & Hfind).
      exists d'. split; [exact Hd'|].
      change (find (x :: x2 :: p) (Dir now (put_entry x c' es)))
        with (match get_entry x (put_entry x c' es) with
              | Some c => find (x2 :: p) c | None => None end).
      rewrite get_put_same. exact Hfind.
Qed.

End FreshFocus.

Lemma mkdir_below (now : Z) (p : list string) (x : string) (fs : node) :
  fs_mkdir_p now (p ++ [x]) fs =
  alter_at now true
    (fun found => match found with
                  | None => Leave (Dir now [])
                  | Some (Dir m es) => Leave (Dir m es)
                  | Some _ => Fail
                  end) (p ++ [x]) fs.
Proof.
  unfold fs_mkdir_p.
  destruct (p ++ [x]) eqn:E; [apply app_eq_nil in E as [_ ?]; discriminate|reflexivity].
Qed.

Section BucketListing.

Context (host : Host) (now : Z) (shareDir : path) (bucketAt : list string) (shareId : string).
Context (es : list (string * node)).
Hypothesis share_at : locate host shareDir = bucketAt ++ [shareId].
Hypothesis share_new : get_entry shareId es = None.

(** A file written into the share changes, of the listing of the
    bucket, the entry of the share only. *)
Lemma write_under_share (name data : string) (fs fs' : node) :
  (exists m c, find bucketAt fs = Some (Dir m (es ++ [(shareId, c)]))) ->
  fs_write now (bucketAt ++ [shareId; name]) data fs = Some fs' ->
  exists m c, find bucketAt fs' = Some (Dir m (es ++ [(shareId, c)])).
Proof.
  intros (m & c & Hdir) Hw. unfold fs_write in Hw.
  destruct (alter_at_focus now true _ bucketAt [shareId; name] fs fs' _
              ltac:(discriminate) Hdir Hw) as (d' & Hd' & Hfind).
  rewrite alter_at_inner, get_entry_app, share_new in Hd'.
  cbn [get_entry] in Hd'. rewrite String.eqb_refl in Hd'.
  destruct (alter_at now true _ [name] c) as [c'|]; [|discriminate].
  injection Hd' as <-. rewrite (put_entry_last _ _ _ _ share_new) in Hfind. eauto.
Qed.

Lemma save_files_under_share (files : list (string * string)) :
  forall fs fs' u,
  Forall (fun f => plain_segment f.1 = true) files ->
  (exists m c, find bucketAt fs = Some (Dir m (es ++ [(shareId, c)]))) ->
  for_of (map (fun f => FormFile f.1 f.2) files) (save_file host now shareDir) fs
    = Returned u fs' ->
  exists m c, find bucketAt fs' = Some (Dir m (es ++ [(shareId, c)])).
Proof.
  induction files as [|[name c] files IH]; intros fs fs' u Hplain Hdir Hrun.
  - cbn in Hrun. injection Hrun as _ <-. exact Hdir.
  - cbn [map fst snd] in Hrun. rewrite for_of_cons in Hrun.
    destruct (save_file host now shareDir (FormFile name c) fs) as [[] mid|mid] eqn:Hv;
      [|discriminate].
    apply Forall_cons in Hplain as [Hname Hplain]. cbn [fst] in Hname.
    cbn [save_file] in Hv. apply writing_returned in Hv.
    rewrite (locate_join_plain host shareDir name Hname), share_at, <- app_assoc in Hv.
    apply (IH mid fs' u Hplain); [|exact Hrun].
    apply (write_under_share name c fs mid Hdir Hv).
Qed.

End BucketListing.

(** X12.  Quota accounting is exact.  When an upload of files with
    distinct plain names (none of them [.burn]) into a share directory
    that did not exist is answered with 200, and every entry of the
    bucket could be examined, the total [getDirSize] reports for the
    bucket afterwards (the [used] of the quota query) is the total
    before plus the size of the upload. *)
Theorem upload_adds_its_size_to_the_bucket (host : Host) (cfg : Config) (req : UploadRequest)
    (files : list (string * string)) (shareId : string) (now : Z) (fs fs' : node)
    (resp : Response) :
  let bucketDir := bucket_dir cfg (hashPassword host (default EmptyString (up_password req))) in
  up_files req = map (fun f => FormFile f.1 f.2) files ->
  plain_segment shareId = true ->
  Forall (fun f => plain_segment f.1 = true /\ f.1 <> ".burn") files ->
  NoDup (map fst files) ->
  find (locate host (share_dir_of host cfg req shareId)) fs = None ->
  (forall n, find (locate host bucketDir) fs = Some n -> examinable n = true) ->
  handleUpload host cfg req shareId now fs = Returned resp fs' -> status resp = 200 ->
  getDirSize host bucketDir fs' = getDirSize host bucketDir fs + upload_size (up_files req).
Proof.
  intros bucketDir Hfiles Hs Hnames Hnd Hfree Hexam Hrun Hok.
  pose proof (handleUpload_listing host cfg req files shareId now fs fs' resp
                Hfiles Hnames Hnd Hfree Hrun Hok) as Hshare.
  destruct (handleUpload_ok_accepted host cfg req shareId now fs fs' resp Hrun Hok)
    as (Ha & Hf & Hfit).
  rewrite (handleUpload_accepted host cfg req shareId now fs Ha Hf Hfit) in Hrun.
  assert (Hat : locate host (share_dir_of host cfg req shareId)
                = locate host bucketDir ++ [shareId])
    by apply (locate_join_plain host _ shareId Hs).
  set (shareDir := share_dir_of host cfg req shareId) in *.
  set (B := locate host bucketDir) in *.
  apply bind_returned in Hrun as (? & fs1 & Hmk & Hrun).
  apply bind_returned in Hrun as (? & fs2 & Hsave & Hrun).
  apply bind_returned in Hrun as (? & fs3 & Hburn & Hrun).
  injection Hrun as _ <-.
  apply writing_returned in Hmk. rewrite Hat in Hmk, Hfree, Hshare.
  assert (Hplain : Forall (fun f : string * string => plain_segment f.1 = true) files).
  { eapply List.Forall_impl; [|exact Hnames]. intros f [H _]. exact H. }
  (* the listing of the bucket before the upload *)
  assert (Hbefore : exists es,
            get_entry shareId es = None /\ Forall (fun e => e.2 <> Dangling) es /\
            size_at B fs = walk_size es /\
            exists m c, find B fs1 = Some (Dir m (es ++ [(shareId, c)]))).
  { rewrite mkdir_below in Hmk. unfold size_at. destruct (find B fs) as [d|] eqn:HfB.
    - destruct (alter_at_focus now true _ B [shareId] fs fs1 d ltac:(discriminate) HfB Hmk)
        as (d' & Hd' & Hfind).
      destruct d as [| m es |]; try discriminate.
      rewrite find_app, HfB in Hfree. cbn [find] in Hfree.
      assert (Hnew : get_entry shareId es = None)
        by (destruct (get_entry shareId es); [discriminate|reflexivity]).
      rewrite alter_at_last, Hnew in Hd'. injection Hd' as <-.
      rewrite (put_entry_fresh _ _ _ Hnew) in Hfind.
      exists es. split; [exact Hnew|]. split; [apply (examinable_entries m), Hexam; reflexivity|].
      split; [apply dir_size_walk|eauto].
    - assert (HBne : B <> []) by (intros HB0; rewrite HB0 in HfB; discriminate).
      destruct (alter_at_fresh_focus now _ B [shareId] fs fs1 HBne ltac:(discriminate) HfB Hmk)
        as (d' & Hd' & Hfind).
      rewrite alter_at_last in Hd'. cbn [get_entry] in Hd'. injection Hd' as <-.
      exists []. split; [reflexivity|]. split; [constructor|]. split; [reflexivity|].
      cbn [put_entry] in Hfind. eauto. }
  destruct Hbefore as (es & Hnew & Hclean & Hsize & Hdir1).
  rewrite Hfiles in Hsave.
  pose proof (save_files_under_share host now shareDir B shareId es Hat Hnew files fs1 fs2 _
                Hplain Hdir1 Hsave) as Hdir2.
  assert (Hdir3 : exists m c, find B fs3 = Some (Dir m (es ++ [(shareId, c)]))).
  { destruct (strictly_equals (up_burn req) "true").
    - apply writing_returned in Hburn.
      rewrite (locate_join_plain host shareDir ".burn" eq_refl), Hat, <- app_assoc in Hburn.
      apply (write_under_share now B shareId es Hnew ".burn" EmptyString fs2 fs3 Hdir2 Hburn).
    - injection Hburn as _ <-. exact Hdir2. }
  destruct Hdir3 as (m & c & Hdir3).
  rewrite find_app, Hdir3 in Hshare. cbn [find] in Hshare.
  rewrite get_entry_app, Hnew in Hshare. cbn [get_entry] in Hshare.
  rewrite String.eqb_refl in Hshare. injection Hshare as ->.
  rewrite !getDirSize_size_at. fold B. rewrite Hsize. unfold size_at. rewrite Hdir3.
  rewrite dir_size_walk, (walk_size_app _ _ Hclean). cbn [walk_size weight].
  rewrite dir_size_walk, walk_size_saved, Hfiles. lia.
Qed.

(** An instance: five bytes uploaded into the bucket that holds one. *)
Lemma upload_adds_its_size_to_the_bucket_witness :
  let req := upload_of "pw" [FormFile "a.txt" "hello"] None in
  getDirSize demo_host (bucket_dir demo_cfg "2bcdef012345") one_byte_tree = 1 /\
  getDirSize demo_host (bucket_dir demo_cfg "2bcdef012345")
    (state_of (handleUpload demo_host demo_cfg req "share009" 5 one_byte_tree)) = 6.
Proof.
  intros req. split; [vm_compute; reflexivity|].
  set (resp := {| status := 200; headers := []; body := JsonUrl "/d/2bcdef012345/share009" |}).
  set (fs' := state_of (handleUpload demo_host demo_cfg req "share009" 5 one_byte_tree)).
  assert (Hrun : handleUpload demo_host demo_cfg req "share009" 5 one_byte_tree
                 = Returned resp fs') by (vm_compute; reflexivity).
  assert (Hnames : Forall (fun f : string * string => plain_segment f.1 = true /\ f.1 <> ".burn")
                     [("a.txt", "hello")]) by (repeat constructor; discriminate).
  assert (Hnd : NoDup (map fst [("a.txt", "hello")])) by apply NoDup_singleton.
  assert (Hfree : find (locate demo_host (share_dir_of demo_host demo_cfg req "share009"))
                    one_byte_tree = None) by (vm_compute; reflexivity).
  assert (Hexam : forall n,
            find (locate demo_host
                    (bucket_dir demo_cfg
                       (hashPassword demo_host (default EmptyString (up_password req)))))
              one_byte_tree = Some n -> examinable n = true).
  { intros n H. vm_compute in H. injection H as <-. reflexivity. }
  pose proof (upload_adds_its_size_to_the_bucket demo_host demo_cfg req [("a.txt", "hello")]
                "share009" 5 one_byte_tree fs' resp eq_refl eq_refl Hnames Hnd Hfree Hexam
                Hrun eq_refl) as Hadd.
  change (hashPassword demo_host (default EmptyString (up_password req)))
    with "2bcdef012345" in Hadd.
  rewrite Hadd. vm_compute. reflexivity.
Defined.

(** ** Static files *)



(** ** The router *)

(** X14.  What a request can change.  Only [POST /api/upload] with an
    allow-listed password changes the storage tree; only
    [GET /api/quota] changes the throttle table; only a path that
    starts with [/d/] sets a timer.  In particular downloads are not
    throttled and ask for no password, and a preflight request changes
    nothing. *)
Theorem fetch_effects (host : Host) (cfg : Config) (req : Request) (shareId : string)
    (now : Z) (st : ServerState) :
  let st' := (fetch host cfg req shareId now st).2 in
  (srv_tree st' = srv_tree st \/
   (req_method req = "POST" /\ req_pathname req = "/api/upload" /\
    authorized cfg (req_password req) = true)) /\
  (srv_limits st' = srv_limits st \/
   (req_method req = "GET" /\ req_pathname req = "/api/quota")) /\
  (srv_timers st' = srv_timers st \/
   (req_method req <> "OPTIONS" /\ String.prefix "/d/" (req_pathname req) = true)).
Proof.
  cbv zeta. unfold fetch.
  destruct (String.eqb_spec (req_method req) "OPTIONS") as [|Hopt]; [cbn; auto|].
  destruct (String.prefix "/d/" (req_pathname req)) eqn:Hd.
  { destruct (handleDownload host cfg (req_pathname req) now (srv_tree st)) as [resp set].
    cbn. auto. }
  destruct (String.eqb_spec (req_pathname req) "/api/upload") as [Hup|_];
    [destruct (String.eqb_spec (req_method req) "POST") as [Hpost|_]|]; cbn [andb].
  - pose proof (handleUpload_cases host cfg (as_upload req) shareId now (srv_tree st)) as Hcases.
    destruct (handleUpload host cfg (as_upload req) shareId now (srv_tree st)) as [resp fs'|fs'];
      cbn [state_of] in Hcases; cbn [snd srv_tree srv_limits srv_timers];
      (split; [|auto]); destruct Hcases as [->|(Ha & _ & _)]; auto.
  - destruct (String.eqb_spec (req_pathname req) "/api/quota") as [Hq|_];
      [destruct (String.eqb_spec (req_method req) "GET") as [Hget|_]|]; cbn [andb];
      try (cbn; auto; fail).
    destruct (handleQuota host cfg (as_quota req) now (srv_limits st) (srv_tree st))
      as [resp limits]. cbn. auto.
  - destruct (String.eqb_spec (req_pathname req) "/api/quota") as [Hq|_];
      [destruct (String.eqb_spec (req_method req) "GET") as [Hget|_]|]; cbn [andb];
      try (cbn; auto; fail).
    destruct (handleQuota host cfg (as_quota req) now (srv_limits st) (srv_tree st))
      as [resp limits]. cbn. auto.
Qed.

(** ** The upload form and the server *)

Lemma totalSize_upload_size (files : list (string * string)) :
  totalSize files = upload_size (map (fun f => FormFile f.1 f.2) files).
Proof.
  unfold totalSize, upload_size. generalize 0.
  induction files as [|f files IH]; intros a; [reflexivity|].
  cbn [map fold_left]. apply IH.
Qed.

(** X15.  The quota check of the form agrees with the one of the
    server.  With the quota the server answered for a password, and
    for a queue that is not empty, the form shows its warning (and
    disables the upload) exactly when the server would answer 413 to
    that queue on the same tree; when the form shows no warning, the
    answer of the server, if it answers, is 200. *)
Theorem form_quota_check_agrees (host : Host) (cfg : Config) (password : string)
    (files : list (string * string)) (burn : bool) (ask : QuotaRequest)
    (limits : gmap string RateEntry) (asked : Z) (shareId : string) (now : Z) (fs : node)
    (quota : Quota) :
  q_password ask = Some password ->
  quota_of (handleQuota host cfg ask asked limits fs).1 = Some quota ->
  files <> [] ->
  let outcome := handleUpload host cfg (uploadFiles files password burn) shareId now fs in
  if exceedsQuota (Some quota) files
  then state_of outcome = fs /\ option_map status (result_of outcome) = Some 413
  else forall resp fs', outcome = Returned resp fs' -> status resp = 200.
Proof.
  intros Hpw Hquota Hsome outcome.
  set (req := uploadFiles files password burn) in *.
  set (used := getDirSize host (bucket_dir cfg (hashPassword host password)) fs).
  assert (Hq : authorized cfg (Some password) = true /\
               quota_available quota = max_bytes cfg - used).
  { unfold handleQuota in Hquota.
    destruct (isRateLimited (getClientIp ask) asked limits) as [limited limits'].
    destruct limited; [discriminate Hquota|].
    rewrite Hpw in Hquota.
    destruct (authorized cfg (Some password)); [|discriminate Hquota].
    split; [reflexivity|]. cbn in Hquota. injection Hquota as <-. reflexivity. }
  destruct Hq as [Ha Havail].
  assert (Hfiles : up_files req <> []).
  { unfold req. cbn [uploadFiles up_files]. destruct files; [congruence|discriminate]. }
  unfold exceedsQuota. rewrite Havail, totalSize_upload_size.
  change (map (fun f => FormFile f.1 f.2) files) with (up_files req).
  destruct (Z.gtb_spec (upload_size (up_files req)) (max_bytes cfg - used)) as [Hover|Hfit].
  - unfold outcome. rewrite handleUpload_over_quota; [split; reflexivity|exact Ha|exact Hfiles|].
    change (default EmptyString (up_password req)) with password. fold used. lia.
  - intros resp fs' Hrun.
    rewrite (handleUpload_accepted_answer host cfg req shareId now fs fs' resp Ha Hfiles);
      [reflexivity| |exact Hrun].
    change (default EmptyString (up_password req)) with password. fold used. lia.
Qed.

(** An instance: with a quota of 1 MB and one byte in use, a queue of
    1 MB gets the warning and the server answers 413. *)
Lemma form_quota_check_agrees_witness :
  let quota := {| quota_used := 1; quota_max := 1048576; quota_available := 1048575 |} in
  let files := [("big.bin", blob 1048576)] in
  quota_of (handleQuota demo_host demo_cfg quota_request 0 no_clients one_byte_tree).1
    = Some quota /\
  exceedsQuota (Some quota) files = true /\
  option_map status
    (result_of (handleUpload demo_host demo_cfg (uploadFiles files "pw" false) "share009" 5
                  one_byte_tree)) = Some 413.
Proof.
  intros quota files.
  assert (Hquota : quota_of (handleQuota demo_host demo_cfg quota_request 0 no_clients
                               one_byte_tree).1 = Some quota) by (vm_compute; reflexivity).
  assert (Hwarn : exceedsQuota (Some quota) files = true) by (vm_compute; reflexivity).
  assert (Hsome : files <> []) by discriminate.
  pose proof (form_quota_check_agrees demo_host demo_cfg "pw" files false quota_request
                no_clients 0 "share009" 5 one_byte_tree quota eq_refl Hquota Hsome) as Hagree.
  cbv zeta in Hagree. rewrite Hwarn in Hagree.
  split; [exact Hquota|]. split; [exact Hwarn|apply Hagree].
Defined.

Lemma totalSize_app (xs ys : list (string * string)) :
  totalSize (xs ++ ys) = totalSize xs + totalSize ys.
Proof.
  unfold totalSize. rewrite fold_left_app.
  assert (Hshift : forall l a, fold_left (fun sum f => sum + file_size f) l a
                               = a + fold_left (fun sum f => sum + file_size f) l 0).
  { induction l as [|f l IH]; intros a; cbn [fold_left]; [lia|].
    rewrite (IH (a + file_size f)), (IH (0 + file_size f)). lia. }
  apply Hshift.
Qed.

Lemma filter_indexed_all {A} (xs : list A) :
  forall i j, (i < j)%nat -> filter_indexed (fun _ k => negb (k =? i)%nat) j xs = xs.
Proof.
  induction xs as [|x xs IH]; intros i j Hj; [reflexivity|].
  cbn [filter_indexed]. destruct (Nat.eqb_spec j i) as [->|_]; [lia|].
  cbn [negb]. f_equal. apply IH. lia.
Qed.

Lemma filter_indexed_remove {A} (xs : list A) :
  forall i index,
  filter_indexed (fun _ j => negb (j =? i + index)%nat) i xs
  = firstn index xs ++ skipn (S index) xs.
Proof.
  induction xs as [|x xs IH]; intros i index; [destruct index; reflexivity|].
  cbn [filter_indexed]. destruct index as [|index].
  - rewrite Nat.add_0_r, Nat.eqb_refl. cbn [negb].
    change (firstn 0 (x :: xs) ++ skipn 1 (x :: xs)) with xs.
    apply filter_indexed_all. lia.
  - destruct (Nat.eqb_spec i (i + S index)) as [Heq|_]; [lia|].
    cbn [negb]. change (firstn (S index) (x :: xs) ++ skipn (S (S index)) (x :: xs))
      with (x :: (firstn index xs ++ skipn (S index) xs)).
    f_equal. replace (i + S index)%nat with (S i + index)%nat by lia. apply IH.
Qed.

(** X16.  The queue of the form.  Dropping files appends them and
    raises the total shown by their sizes; removing the file at an
    index leaves the other files in their order and lowers the total by
    the size of that file; an index outside the queue removes nothing. *)
Theorem queue_totals (prev files : list (string * string)) (index : nat) :
  totalSize (handleDrop files prev) = totalSize prev + totalSize files /\
  handleRemoveFile index prev = firstn index prev ++ skipn (S index) prev /\
  totalSize (handleRemoveFile index prev)
  = totalSize prev - match nth_error prev index with
                     | Some f => file_size f
                     | None => 0
                     end.
Proof.
  split; [apply totalSize_app|].
  assert (Hrm : handleRemoveFile index prev = firstn index prev ++ skipn (S index) prev)
    by apply (filter_indexed_remove prev 0 index).
  split; [exact Hrm|]. rewrite Hrm. clear Hrm. revert index.
  induction prev as [|f prev IH]; intros index; [destruct index; cbn; lia|].
  destruct index as [|index]; cbn [firstn skipn app nth_error].
  - change (f :: prev) with ([f] ++ prev). rewrite totalSize_app.
    change (totalSize [f]) with (0 + file_size f). change (skipn 0 prev) with prev. lia.
  - change (f :: firstn index prev ++ skipn (S index) prev)
      with ([f] ++ (firstn index prev ++ skipn (S index) prev)).
    change (f :: prev) with ([f] ++ prev).
    rewrite (totalSize_app [f] prev), (totalSize_app [f] (_ ++ _)), IH. lia.
Qed.

(** ** The key of the throttle *)

Lemma split_on_no_sep (sep : ascii) (s : string) :
  all_chars (fun c => negb (Ascii.eqb c sep)) s = true -> split_on sep s = [s].
Proof.
  induction s as [|c s IH]; [reflexivity|].
  cbn [all_chars split_on]. intros H. apply andb_true_iff in H as [Hc Hs].
  destruct (Ascii.eqb c sep); [discriminate Hc|]. rewrite (IH Hs). reflexivity.
Qed.

Lemma client_key_first (first : string) (real password : option string) :
  no_comma first = true ->
  getClientIp {| q_forwarded_for := Some first; q_real_ip := real;
                 q_password := password |} = trim first.
Proof.
  intros Hfirst. unfold getClientIp. cbn [q_forwarded_for].
  rewrite (split_on_no_sep _ _ Hfirst). reflexivity.
Qed.



Lemma repeat_char_length (c : ascii) (n : nat) : String.length (repeat_char c n) = n.
Proof. induction n as [|n IH]; cbn [repeat_char String.length]; congruence. Qed.

Lemma repeat_char_key (n : nat) :
  no_comma (repeat_char "x" n) = true /\ trim (repeat_char "x" n) = repeat_char "x" n.
Proof.
  split; [induction n as [|n IH]; [reflexivity|exact IH]|].
  unfold trim.
  assert (Hstart : trim_start (repeat_char "x" n) = repeat_char "x" n)
    by (destruct n; reflexivity).
  rewrite Hstart. induction n as [|n IH]; [reflexivity|].
  cbn [repeat_char trim_end]. rewrite IH by (destruct n; reflexivity).
  destruct n; reflexivity.
Qed.

(** X18.  The throttle of the quota query can be side-stepped: the key
    comes from a header the client writes, so whatever the table of the
    throttle holds, some value of [x-forwarded-for] makes the request
    pass it (the answer is not 429). *)
Theorem throttle_key_is_chosen_by_the_client (host : Host) (cfg : Config) (now : Z)
    (limits : gmap string RateEntry) (fs : node) (real password : option string) :
  exists v,
    status (handleQuota host cfg
              {| q_forwarded_for := Some v; q_real_ip := real; q_password := password |}
              now limits fs).1 <> 429.
Proof.
  destruct (exist_fresh (set_map (C := gset string) (D := gset nat) String.length (dom limits)))
    as [n Hn].
  exists (repeat_char "x" n).
  destruct (repeat_char_key n) as [Hcomma Htrim].
  pose proof (client_key_first (repeat_char "x" n) real password Hcomma) as Hkey.
  assert (Hnew : limits !! repeat_char "x" n = None).
  { apply not_elem_of_dom. intros Hin. apply Hn.
    apply elem_of_map. exists (repeat_char "x" n). split; [|exact Hin].
    rewrite repeat_char_length. reflexivity. }
  unfold handleQuota. rewrite Hkey, Htrim. unfold isRateLimited. rewrite Hnew.
  destruct (negb (authorized cfg _)); cbn; discriminate.
Qed.

(** ** What an upload leaves in place *)

Lemma mkdir_keeps (now : Z) (p : list string) (fs fs' : node) (q : list string) :
  fs_mkdir_p now p fs = Some fs' -> is_Some (find q fs) -> is_Some (find q fs').
Proof.
  unfold fs_mkdir_p. destruct p as [|x p]; [intros [= <-]; auto|].
  apply alter_at_keeps.
  - intros [[| |]|]; discriminate.
  - intros [| |] r; try discriminate. intros [= <-] q' Hq'. exact Hq'.
Qed.

(** X19.  An upload removes nothing: whatever the request and its file
    names are, every location of the tree that held something holds
    something afterwards (a file it writes over keeps its place). *)
Theorem upload_removes_nothing (host : Host) (cfg : Config) (req : UploadRequest)
    (shareId : string) (now : Z) (fs : node) (q : list string) :
  is_Some (find q fs) ->
  is_Some (find q (state_of (handleUpload host cfg req shareId now fs))).
Proof.
  destruct (handleUpload_cases host cfg req shareId now fs) as [->|(Ha & Hf & Hfit)]; [auto|].
  rewrite (handleUpload_accepted host cfg req shareId now fs Ha Hf Hfit).
  set (R := fun a b : node => is_Some (find q a) -> is_Some (find q b)).
  assert (Hrefl : forall a, R a a) by (intros a H; exact H).
  assert (Htrans : forall a b c, R a b -> R b c -> R a c) by (unfold R; auto).
  clear Hfit. revert fs. apply (respects_bind R Htrans).
  - apply (respects_writing R Hrefl). intros a b Hm. unfold R.
    apply (mkdir_keeps _ _ _ _ q Hm).
  - intros _. apply (respects_bind R Htrans).
    + intros a. unfold R. apply save_files_keep.
    + intros _. apply (respects_bind R Htrans); [|intros; apply (respects_ret R Hrefl)].
      destruct (strictly_equals (up_burn req) "true"); [|apply (respects_ret R Hrefl)].
      apply (respects_writing R Hrefl). intros a b Hw. unfold R.
      apply (write_keeps _ _ _ _ _ q Hw).
Qed.

(** An instance: an upload whose file name climbs into the share of
    another upload writes over the file there, and the file keeps its
    place. *)
Lemma upload_removes_nothing_witness :
  let req := upload_of "pw" [FormFile "../share005/a.txt" "bye"] None in
  let fs' := state_of (handleUpload demo_host demo_cfg req "share009" 50 one_file_tree) in
  find ["srv"; "data"; "uploads"; "2bcdef012345"; "share005"; "a.txt"] one_file_tree
    = Some (File 40 "hello") /\
  find ["srv"; "data"; "uploads"; "2bcdef012345"; "share005"; "a.txt"] fs'
    = Some (File 50 "bye").
Proof.
  intros req fs'.
  assert (Hbefore : find ["srv"; "data"; "uploads"; "2bcdef012345"; "share005"; "a.txt"]
                      one_file_tree = Some (File 40 "hello")) by (vm_compute; reflexivity).
  split; [exact Hbefore|].
  destruct (upload_removes_nothing demo_host demo_cfg req "share009" 50 one_file_tree
              ["srv"; "data"; "uploads"; "2bcdef012345"; "share005"; "a.txt"])
    as [n Hn]; [rewrite Hbefore; eexists; reflexivity|].
  fold fs' in Hn. rewrite Hn. vm_compute in Hn. symmetry. exact Hn.
Defined.

(** ** Names an upload adds *)


Section Adds.

Context (now : Z) (act : option node -> leaf_result).
Hypothesis act_no_remove : forall found, act found <> Remove.
Hypothesis act_listing : forall found r, act found = Leave r ->
  forall q m' es' name, find q r = Some (Dir m' es') -> In name (map fst es') ->
  exists c m es, found = Some c /\ find q c = Some (Dir m es) /\ In name (map fst es).



End Adds.



Section UploadNames.

Context (host : Host) (cfg : Config).

#[local] Abbreviation up2 := (locate host (uploads_dir cfg)).

Lemma locate_share (bucket shareId : string) :
  plain_segment bucket = true -> plain_segment shareId = true ->
  locate host (join (bucket_dir cfg bucket) [shareId]) = up2 ++ [bucket; shareId].
Proof.
  intros Hb Hs. rewrite (locate_share_dir host cfg bucket shareId Hb Hs), locate_uploads_dir,
    <- app_assoc. reflexivity.
Qed.




End UploadNames.




(** ** What a download looks at *)

(** The answer for a share directory is determined by what lies at
    that directory, when the names it lists are plain. *)
Lemma download_share_same (host : Host) (shareDir : path) (shareId : string) (now : Z)
    (fs1 fs2 : node) :
  listed_plain (locate host shareDir) fs1 ->
  find (locate host shareDir) fs1 = find (locate host shareDir) fs2 ->
  download_share host shareDir shareId now fs1 = download_share host shareDir shareId now fs2.
Proof.
  intros Hplain Hsame.
  assert (Hfile : forall name, plain_segment name = true ->
            find (locate host (join shareDir [name])) fs1
            = find (locate host (join shareDir [name])) fs2).
  { intros name Hname. rewrite (locate_join_plain host shareDir name Hname).
    rewrite !find_app, Hsame. reflexivity. }
  unfold download_share, fs_readdir. rewrite <- Hsame.
  destruct (find (locate host shareDir) fs1) as [[| m es |]|] eqn:Hdir; try reflexivity.
  assert (Hnames : Forall (fun s => plain_segment s = true) (map fst es)).
  { apply Hplain. unfold fs_readdir. rewrite Hdir. reflexivity. }
  set (files := List.filter (fun f => negb (String.eqb f ".burn")) (map fst es)).
  assert (Hfiles : Forall (fun s => plain_segment s = true) files).
  { apply List.Forall_forall. intros x Hx. apply filter_In in Hx as [Hx _].
    rewrite List.Forall_forall in Hnames. apply Hnames, Hx. }
  assert (Hread : forall name, In name files ->
            fs_read (locate host (join shareDir [name])) fs1
            = fs_read (locate host (join shareDir [name])) fs2).
  { intros name Hin. unfold fs_read. rewrite Hfile; [reflexivity|].
    rewrite List.Forall_forall in Hfiles. apply Hfiles, Hin. }
  assert (Hzip : map (fun filename =>
                        (filename, fs_read (locate host (join shareDir [filename])) fs1)) files
                 = map (fun filename =>
                        (filename, fs_read (locate host (join shareDir [filename])) fs2)) files).
  { apply map_ext_in. intros name Hin. rewrite (Hread name Hin). reflexivity. }
  assert (Hmark : fs_exists (locate host (join shareDir [".burn"])) fs1
                  = fs_exists (locate host (join shareDir [".burn"])) fs2).
  { unfold fs_exists. rewrite (Hfile ".burn" eq_refl). reflexivity. }
  rewrite Hzip, Hmark.
  destruct files as [|f1 [|f2 files']]; try reflexivity.
  rewrite (Hread f1 (or_introl eq_refl)). reflexivity.
Qed.

(** X21.  A download looks at its share directory only.  For a link
    with a plain bucket and a plain share, in a tree whose share
    directory lists names a directory can hold, the answer (status,
    headers, body and timer) is determined by what lies at
    [<data_dir>/uploads/<bucket>/<share>]: two trees that agree there
    are answered alike, whatever else they hold. *)
Theorem download_looks_at_its_share_only (host : Host) (cfg : Config)
    (bucket shareId : string) (now : Z) (fs1 fs2 : node) :
  let shareAt := locate host (uploads_dir cfg) ++ [bucket; shareId] in
  plain_segment bucket = true -> plain_segment shareId = true ->
  listed_plain shareAt fs1 ->
  find shareAt fs1 = find shareAt fs2 ->
  handleDownload host cfg ("/d/" +:+ bucket +:+ "/" +:+ shareId) now fs1
  = handleDownload host cfg ("/d/" +:+ bucket +:+ "/" +:+ shareId) now fs2.
Proof.
  intros shareAt Hb Hs Hplain Hsame.
  rewrite !(handleDownload_link host cfg bucket shareId now _ Hb Hs).
  assert (Hat : locate host (join (bucket_dir cfg bucket) [shareId]) = shareAt)
    by apply (locate_share host cfg _ _ Hb Hs).
  apply download_share_same; rewrite Hat; assumption.
Qed.

(** An instance: the share of [two_files_tree] is served alike from a
    tree that holds another share beside it. *)
Lemma download_looks_at_its_share_only_witness :
  let fs2 := state_of (handleUpload demo_host demo_cfg
                         (upload_of "pw" [FormFile "c.txt" "more"] None) "share009" 80
                         two_files_tree) in
  handleDownload demo_host demo_cfg "/d/2bcdef012345/share004" 90 two_files_tree
  = handleDownload demo_host demo_cfg "/d/2bcdef012345/share004" 90 fs2 /\
  find ["srv"; "data"; "uploads"; "2bcdef012345"; "share009"; "c.txt"] fs2
  = Some (File 80 "more").
Proof.
  intros fs2. split; [|vm_compute; reflexivity].
  change "/d/2bcdef012345/share004" with ("/d/" +:+ "2bcdef012345" +:+ "/" +:+ "share004").
  apply (download_looks_at_its_share_only demo_host demo_cfg "2bcdef012345" "share004" 90
           two_files_tree fs2 eq_refl eq_refl).
  - intros names H. vm_compute in H. injection H as <-. repeat constructor.
  - vm_compute. reflexivity.
Defined.

(** X22.  Shares do not disturb one another.  An upload whose share
    identifier is plain and whose file names have no [".."] segment
    leaves the answer to a download of every other share as it was: of
    a share of another bucket, and of another share of the same bucket. *)
Theorem upload_leaves_other_downloads (host : Host) (cfg : Config) (req : UploadRequest)
    (shareId bucket other : string) (now later : Z) (fs : node) :
  plain_segment shareId = true -> names_stay_below (up_files req) ->
  plain_segment bucket = true -> plain_segment other = true ->
  bucket <> hashPassword host (default EmptyString (up_password req)) \/ other <> shareId ->
  listed_plain (locate host (uploads_dir cfg) ++ [bucket; other]) fs ->
  handleDownload host cfg ("/d/" +:+ bucket +:+ "/" +:+ other) later
    (state_of (handleUpload host cfg req shareId now fs))
  = handleDownload host cfg ("/d/" +:+ bucket +:+ "/" +:+ other) later fs.
Proof.
  intros Hs Hnames Hb Ho Hother Hplain.
  rewrite !(handleDownload_link host cfg bucket other later _ Hb Ho).
  assert (Hat : locate host (join (bucket_dir cfg bucket) [other])
                = locate host (uploads_dir cfg) ++ [bucket; other])
    by apply (locate_share host cfg _ _ Hb Ho).
  symmetry. apply download_share_same; rewrite Hat; [exact Hplain|].
  symmetry. apply handleUpload_frame; [exact Hnames|].
  unfold share_dir_of.
  rewrite (locate_share host cfg _ shareId (hashPassword_plain host _) Hs).
  destruct (diverge_or_same bucket other
              (hashPassword host (default EmptyString (up_password req))) shareId
              (locate host (uploads_dir cfg))) as [Hd|[Hb' Hs']]; [exact Hd|].
  destruct Hother; congruence.
Qed.

(** An instance: a second upload into the bucket of ["pw"]. *)
Lemma upload_leaves_other_downloads_witness :
  let req := upload_of "pw" [FormFile "c.txt" "more"] None in
  body (handleDownload demo_host demo_cfg "/d/2bcdef012345/share004" 90
          (state_of (handleUpload demo_host demo_cfg req "share009" 80 two_files_tree))).1
  = ZipBody [("a.txt", Some "hello"); ("b.bin", Some "world")].
Proof.
  intros req.
  change "/d/2bcdef012345/share004" with ("/d/" +:+ "2bcdef012345" +:+ "/" +:+ "share004").
  rewrite (upload_leaves_other_downloads demo_host demo_cfg req "share009" "2bcdef012345"
             "share004" 80 90 two_files_tree eq_refl).
  - vm_compute. reflexivity.
  - repeat constructor.
  - reflexivity.
  - reflexivity.
  - right. discriminate.
  - intros names H. vm_compute in H. injection H as <-. repeat constructor.
Defined.

(** ** Forms whose files are not files *)

Lemma save_strings (host : Host) (now : Z) (shareDir : path) (values : list FormValue)
    (fs : node) :
  Forall (fun v => file_name v = None) values ->
  for_of values (save_file host now shareDir) fs = Returned tt fs.
Proof.
  induction values as [|v values IH]; intros Hall; [reflexivity|].
  apply Forall_cons in Hall as [Hv Hall]. rewrite for_of_cons.
  destruct v as [s|name c]; [|discriminate Hv]. cbn [save_file ret]. apply IH, Hall.
Qed.

Lemma upload_size_strings (values : list FormValue) :
  Forall (fun v => file_name v = None) values -> upload_size values = 0.
Proof.
  induction values as [|v values IH]; intros Hall; [reflexivity|].
  apply Forall_cons in Hall as [Hv Hall]. rewrite upload_size_cons, (IH Hall).
  destruct v; [reflexivity|discriminate Hv].
Qed.

(** X23.  Text fields sent under the name [files] pass for files.  The
    check for an empty upload counts the values of the form, not the
    files among them: when an upload whose [files] are all text fields
    is answered with 200, it has created a share directory that holds
    no file (only the marker, if the form asked for one), and a
    download of the link it returned is answered with 404. *)
Theorem text_fields_pass_for_files (host : Host) (cfg : Config) (req : UploadRequest)
    (shareId : string) (now later : Z) (fs fs' : node) (resp : Response) :
  let shareDir := share_dir_of host cfg req shareId in
  Forall (fun v => file_name v = None) (up_files req) ->
  plain_segment shareId = true ->
  find (locate host shareDir) fs = None ->
  handleUpload host cfg req shareId now fs = Returned resp fs' -> status resp = 200 ->
  find (locate host shareDir) fs'
    = Some (Dir now (if strictly_equals (up_burn req) "true"
                     then [(".burn", File now EmptyString)] else [])) /\
  exists url, body resp = JsonUrl url /\
    handleDownload host cfg url later fs' = (not_found, []).
Proof.
  intros shareDir Hstrings Hs Hfree Hrun Hok.
  destruct (handleUpload_ok_accepted host cfg req shareId now fs fs' resp Hrun Hok)
    as (Ha & Hf & Hfit).
  pose proof (handleUpload_accepted_answer host cfg req shareId now fs fs' resp Ha Hf Hfit Hrun)
    as Hresp.
  rewrite (handleUpload_accepted host cfg req shareId now fs Ha Hf Hfit) in Hrun.
  fold shareDir in Hrun.
  apply bind_returned in Hrun as (? & fs1 & Hmk & Hrun).
  apply bind_returned in Hrun as (? & fs2 & Hsave & Hrun).
  apply bind_returned in Hrun as (? & fs3 & Hburn & Hrun).
  injection Hrun as _ <-.
  apply writing_returned in Hmk. apply (mkdir_new _ _ _ _ Hfree) in Hmk.
  rewrite (save_strings host now shareDir _ fs1 Hstrings) in Hsave. injection Hsave as _ <-.
  assert (Hdir : find (locate host shareDir) fs3
                 = Some (Dir now (if strictly_equals (up_burn req) "true"
                                  then [(".burn", File now EmptyString)] else []))).
  { destruct (strictly_equals (up_burn req) "true").
    - apply writing_returned in Hburn.
      rewrite (locate_join_plain host shareDir ".burn" eq_refl) in Hburn.
      apply (write_new_entry now _ ".burn" EmptyString fs1 fs3 now [] Hmk eq_refl Hburn).
    - injection Hburn as _ <-. exact Hmk. }
  split; [exact Hdir|]. rewrite Hresp. eexists. split; [reflexivity|].
  rewrite (handleDownload_link host cfg _ shareId later fs3 (hashPassword_plain host _) Hs).
  change (join (bucket_dir cfg (hashPassword host (default EmptyString (up_password req))))
            [shareId]) with shareDir.
  unfold download_share, fs_readdir. rewrite Hdir.
  destruct (strictly_equals (up_burn req) "true"); reflexivity.
Qed.

(** An instance: a form with one text field named [files]. *)
Lemma text_fields_pass_for_files_witness :
  let req := upload_of "pw" [FormString "not a file"] None in
  result_of (handleUpload demo_host demo_cfg req "share009" 5 empty_tree)
    = Some {| status := 200; headers := []; body := JsonUrl "/d/2bcdef012345/share009" |} /\
  handleDownload demo_host demo_cfg "/d/2bcdef012345/share009" 6
    (state_of (handleUpload demo_host demo_cfg req "share009" 5 empty_tree))
  = (not_found, []).
Proof.
  intros req.
  set (resp := {| status := 200; headers := []; body := JsonUrl "/d/2bcdef012345/share009" |}).
  set (fs' := state_of (handleUpload demo_host demo_cfg req "share009" 5 empty_tree)).
  assert (Hrun : handleUpload demo_host demo_cfg req "share009" 5 empty_tree
                 = Returned resp fs') by (vm_compute; reflexivity).
  assert (Hstrings : Forall (fun v => file_name v = None) (up_files req))
    by (repeat constructor).
  assert (Hfree : find (locate demo_host (share_dir_of demo_host demo_cfg req "share009"))
                    empty_tree = None) by (vm_compute; reflexivity).
  destruct (text_fields_pass_for_files demo_host demo_cfg req "share009" 5 6 empty_tree fs'
              resp Hstrings eq_refl Hfree Hrun eq_refl) as (_ & url & Hurl & Hdown).
  injection Hurl as <-. rewrite Hrun. split; [reflexivity|exact Hdown].
Defined.

(** ** The statistics script *)

Lemma count_shares_listed (host : Host) (uploadsDir : path) (fs : node) (m : Z)
    (entries : list (string * node)) :
  find (locate host uploadsDir) fs = Some (Dir m entries) ->
  forall part shares,
  (forall e, In e part -> get_entry e.1 entries = Some e.2) ->
  Forall (fun e => plain_segment e.1 = true) part ->
  count_shares host uploadsDir (map fst part) shares fs = (shares + listed_shares part)%nat.
Proof.
  intros Hup. induction part as [|[b n] part IH]; intros shares Hget Hplain;
    [cbn; lia|].
  apply Forall_cons in Hplain as [Hb Hplain]. cbn [fst] in Hb.
  cbn [map fst count_shares]. unfold fs_readdir.
  rewrite (locate_join_plain host uploadsDir b Hb), find_app, Hup. cbn [find].
  pose proof (Hget (b, n) (or_introl eq_refl)) as Hthere. cbn [fst snd] in Hthere.
  rewrite Hthere.
  destruct n as [| m' es |]; cbn [listed_shares]; try lia.
  rewrite (IH _ (fun e He => Hget e (or_intror He)) Hplain), length_map. lia.
Qed.

(** X24.  What the statistics script counts.  Every entry of the
    uploads directory is counted as a bucket, directory or not; the
    shares counted are the entries of the buckets that are listed
    before the first entry that is not a directory (all of them when
    every entry is a directory); and the size is the total
    [getDirSize] gives for the uploads directory. *)
Theorem stats_counts (host : Host) (dataDir : string) (fs : node) (m : Z)
    (entries : list (string * node)) :
  let uploadsAt := locate host (join (parse_path dataDir) ["uploads"]) in
  find uploadsAt fs = Some (Dir m entries) ->
  Forall (fun e => plain_segment e.1 = true) entries ->
  NoDup (map fst entries) ->
  stats host dataDir fs
  = {| stat_shares := listed_shares entries; stat_buckets := length entries;
       stat_bytes := walk_size entries |}.
Proof.
  intros uploadsAt Hup Hplain Hnd. unfold stats, fs_readdir. fold uploadsAt. rewrite Hup.
  cbn [fst snd]. rewrite length_map.
  rewrite (count_shares_listed host _ fs m entries Hup entries 0%nat); [| |exact Hplain].
  - rewrite getDirSize_size_at. unfold size_at. fold uploadsAt. rewrite Hup, dir_size_walk.
    reflexivity.
  - intros [b n] Hin. apply get_entry_in; assumption.
Qed.

(** An instance: one bucket with three shares; and a tree whose first
    entry cannot be read, in which no share is counted. *)
Lemma stats_counts_witness :
  stats demo_host "./data" mixed_bucket_tree
    = {| stat_shares := 3; stat_buckets := 1; stat_bytes := 0 |} /\
  stats demo_host "./data" unreadable_bucket_tree
    = {| stat_shares := 0; stat_buckets := 2; stat_bytes := 0 |}.
Proof.
  split; [|vm_compute; reflexivity].
  rewrite (stats_counts demo_host "./data" mixed_bucket_tree 0
             [("aaaaaaaaaaaa",
               Dir 0 [("share001", Dangling);
                      ("share002", old_share "a.txt");
                      ("share003", Dir 601200001 [("b.txt", File 601200001 "world")])])]).
  - reflexivity.
  - vm_compute. reflexivity.
  - repeat constructor.
  - apply NoDup_singleton.
Defined.

(** ** Uploads that fail half way *)

Lemma alter_at_focus_succeeds (now : Z) (create : bool) (act : option node -> leaf_result)
    (p : list string) :
  forall q n d d', q <> [] -> find p n = Some d ->
  alter_at now create act q d = Some d' -> is_Some (alter_at now create act (p ++ q) n).
Proof.
  induction p as [|x p IH]; intros q n d d' Hq Hf Ha.
  - cbn in Hf. injection Hf as <-. cbn [app]. rewrite Ha. eexists; reflexivity.
  - destruct n as [| m es |]; try discriminate. cbn [find] in Hf.
    destruct (get_entry x es) as [c|] eqn:Hg; [|discriminate].
    destruct (IH q c d d' Hq Hf Ha) as [c' Hc]. cbn [app].
    destruct (p ++ q) as [|y r] eqn:Hpq; [apply app_eq_nil in Hpq as [_ ?]; congruence|].
    rewrite alter_at_inner, Hg, Hc. eexists; reflexivity.
Qed.

Lemma split_two (name sub : string) :
  plain_segment name = true -> plain_segment sub = true ->
  split_slash (name +:+ "/" +:+ sub) = [name; sub].
Proof.
  intros Hn Hs. unfold split_slash.
  change (name +:+ "/" +:+ sub) with (name +:+ String slash sub).
  rewrite split_on_app. fold split_slash. rewrite (plain_split _ Hn), (plain_split _ Hs).
  reflexivity.
Qed.

(** X25.  An upload that fails half way leaves what it wrote.  When a
    form holds a file and then a file that is to go below the first one
    ([name] and [name/sub]), in a bucket that exists, the first file is
    written, the second write is refused (the path goes through a
    file) and the exception leaves the handler: no answer with a link
    is made, but the share directory stays with the first file in it,
    and a download of its link is answered with 200 and that file. *)
Theorem failed_upload_leaves_its_files (host : Host) (cfg : Config) (req : UploadRequest)
    (shareId name sub c1 c2 : string) (rest : list FormValue) (now later : Z) (fs : node)
    (m : Z) (es : list (string * node)) :
  let bucket := hashPassword host (default EmptyString (up_password req)) in
  let shareDir := share_dir_of host cfg req shareId in
  up_files req = FormFile name c1 :: FormFile (name +:+ "/" +:+ sub) c2 :: rest ->
  plain_segment shareId = true -> plain_segment name = true -> plain_segment sub = true ->
  name <> ".burn" ->
  authorized cfg (up_password req) = true ->
  getDirSize host (bucket_dir cfg bucket) fs + upload_size (up_files req) <= max_bytes cfg ->
  find (locate host (bucket_dir cfg bucket)) fs = Some (Dir m es) ->
  find (locate host shareDir) fs = None ->
  exists fs',
    handleUpload host cfg req shareId now fs = Thrown fs' /\
    find (locate host shareDir) fs' = Some (Dir now [(name, File now c1)]) /\
    let answer := handleDownload host cfg ("/d/" +:+ bucket +:+ "/" +:+ shareId) later fs' in
    status answer.1 = 200 /\ body answer.1 = FileBody (Some c1).
Proof.
  intros bucket shareDir Hfiles Hs Hname Hsub Hnb Ha Hfit Hbucket Hfree.
  assert (Hf : up_files req <> []) by (rewrite Hfiles; discriminate).
  rewrite (handleUpload_accepted host cfg req shareId now fs Ha Hf Hfit).
  fold shareDir. rewrite Hfiles.
  assert (Hat : locate host shareDir = locate host (bucket_dir cfg bucket) ++ [shareId])
    by apply (locate_join_plain host _ shareId Hs).
  (* the share directory is made *)
  assert (Hmk : exists fs1, fs_mkdir_p now (locate host shareDir) fs = Some fs1 /\
                            find (locate host shareDir) fs1 = Some (Dir now [])).
  { destruct (fs_mkdir_p now (locate host shareDir) fs) as [fs1|] eqn:Hrun.
    - exists fs1. split; [reflexivity|]. apply (mkdir_new now _ fs fs1 Hfree Hrun).
    - exfalso. rewrite Hat, mkdir_below in Hrun.
      rewrite Hat, find_app, Hbucket in Hfree. cbn [find] in Hfree.
      assert (Hnew : get_entry shareId es = None)
        by (destruct (get_entry shareId es); [discriminate|reflexivity]).
      match type of Hrun with
      | alter_at _ _ ?act _ _ = _ =>
          destruct (alter_at_focus_succeeds now true act (locate host (bucket_dir cfg bucket))
                      [shareId] fs (Dir m es)
                      (Dir now (put_entry shareId (Dir now []) es))
                      ltac:(discriminate) Hbucket) as [fs1 Hfs1]
      end; [rewrite alter_at_last, Hnew; reflexivity|congruence]. }
  destruct Hmk as (fs1 & Hmk & Hdir1).
  (* the first file is written *)
  assert (Hw1 : exists fs2, fs_write now (locate host (join shareDir [name])) c1 fs1 = Some fs2 /\
                            find (locate host shareDir) fs2
                            = Some (Dir now [(name, File now c1)])).
  { rewrite (locate_join_plain host shareDir name Hname).
    destruct (fs_write now (locate host shareDir ++ [name]) c1 fs1) as [fs2|] eqn:Hrun.
    - exists fs2. split; [reflexivity|].
      apply (write_new_entry now _ name c1 fs1 fs2 now [] Hdir1 eq_refl Hrun).
    - exfalso. unfold fs_write in Hrun.
      match type of Hrun with
      | alter_at _ _ ?act _ _ = _ =>
          destruct (alter_at_focus_succeeds now true act (locate host shareDir) [name] fs1
                      (Dir now []) (Dir now [(name, File now c1)])
                      ltac:(discriminate) Hdir1 eq_refl) as [fs2 Hfs2]
      end. congruence. }
  destruct Hw1 as (fs2 & Hw1 & Hdir2).
  (* the second write goes through the first file and is refused *)
  assert (Hw2 : fs_write now (locate host (join shareDir [name +:+ "/" +:+ sub])) c2 fs2 = None).
  { rewrite (locate_join_name host shareDir (name +:+ "/" +:+ sub)).
    2:{ unfold has_dotdot. rewrite (split_two name sub Hname Hsub). cbn [existsb].
        destruct (plain_segment_inv name Hname) as (_ & _ & Hn & _).
        destruct (plain_segment_inv sub Hsub) as (_ & _ & Hsb & _).
        destruct (String.eqb_spec ".." name); [congruence|].
        destruct (String.eqb_spec ".." sub); [congruence|reflexivity]. }
    rewrite (split_two name sub Hname Hsub).
    change [name; sub] with ([name] ++ [sub]). unfold kept_segments.
    rewrite filter_app_bool. fold (kept_segments [name]). fold (kept_segments [sub]).
    rewrite (plain_kept name Hname), (plain_kept sub Hsub). cbn [app].
    destruct (fs_write now (locate host shareDir ++ [name; sub]) c2 fs2) as [fs3|] eqn:Hrun;
      [|reflexivity].
    exfalso. unfold fs_write in Hrun.
    destruct (alter_at_focus now true _ (locate host shareDir) [name; sub] fs2 fs3 _
                ltac:(discriminate) Hdir2 Hrun) as (d' & Hd' & _).
    rewrite alter_at_inner in Hd'. cbn [get_entry] in Hd'.
    rewrite String.eqb_refl in Hd'. discriminate Hd'. }
  exists fs2. split; [|split; [exact Hdir2|]].
  - unfold bind at 1. unfold writing at 1. rewrite Hmk.
    unfold bind at 1. rewrite for_of_cons. cbn [save_file].
    unfold writing at 1. rewrite Hw1. rewrite for_of_cons. cbn [save_file].
    unfold writing at 1. rewrite Hw2. reflexivity.
  - cbv zeta. rewrite (handleDownload_link host cfg bucket shareId later fs2
                         (hashPassword_plain host _) Hs).
    change (join (bucket_dir cfg bucket) [shareId]) with shareDir.
    assert (Hone : [(name, c1)] <> []) by discriminate.
    assert (Hnames : Forall (fun f : string * string => plain_segment f.1 = true /\ f.1 <> ".burn")
                       [(name, c1)]) by (repeat constructor; assumption).
    assert (Hnd : NoDup (map fst [(name, c1)])) by apply NoDup_singleton.
    destruct (download_share_saved host shareDir shareId [(name, c1)] false now now later fs2
                Hone Hnames Hnd Hdir2) as (Hstatus & Hbody & _).
    split; assumption.
Qed.

(** An instance: the files [a] and [a/b] uploaded into the bucket of
    ["pw"]. *)
Lemma failed_upload_leaves_its_files_witness :
  let req := upload_of "pw" [FormFile "a" "one"; FormFile "a/b" "two"] None in
  result_of (handleUpload demo_host demo_cfg req "share009" 5 one_byte_tree) = None /\
  find ["srv"; "data"; "uploads"; "2bcdef012345"; "share009"]
    (state_of (handleUpload demo_host demo_cfg req "share009" 5 one_byte_tree))
  = Some (Dir 5 [("a", File 5 "one")]).
Proof.
  intros req.
  assert (Hfit : getDirSize demo_host
                   (bucket_dir demo_cfg
                      (hashPassword demo_host (default EmptyString (up_password req))))
                   one_byte_tree + upload_size (up_files req) <= max_bytes demo_cfg)
    by (vm_compute; discriminate).
  assert (Hbucket : find (locate demo_host
                            (bucket_dir demo_cfg
                               (hashPassword demo_host (default EmptyString (up_password req)))))
                      one_byte_tree = Some (Dir 0 [("share001", Dir 0 [("a", File 0 "x")])]))
    by (vm_compute; reflexivity).
  assert (Hfree : find (locate demo_host (share_dir_of demo_host demo_cfg req "share009"))
                    one_byte_tree = None) by (vm_compute; reflexivity).
  destruct (failed_upload_leaves_its_files demo_host demo_cfg req "share009" "a" "b" "one" "two"
              [] 5 6 one_byte_tree 0 _ eq_refl eq_refl eq_refl eq_refl ltac:(discriminate)
              eq_refl Hfit Hbucket Hfree) as (fs' & Hrun & Hdir & _).
  rewrite Hrun. split; [reflexivity|]. exact Hdir.
Defined.
